(** * Audio player widget: playback unit and playlist sequencer

    A shallow embedding of [src/AudioPlayer.ts] (class [AudioPlayer]) and of
    the playback entry points of the widget class [AudioPlayerWidget]
    ([play], [stop], [destroyPlayers], [initialize], [playAsPlaylist]).

    The code is single threaded and event driven.  Every method body runs
    to completion; an [async] method runs synchronously up to its first
    [await] and is then resumed by the platform.  The embedding therefore
    has
    - a [world]: the object store holding every [AudioPlayer] ever
      constructed, the widget's fields, one [currentIndex] cell for each
      activation of [playAsPlaylist], one record for each activation of
      [AudioPlayer.play] and of [initialize], the action tables handed to
      the host, and the trace of effects sent to the outside;
    - a state-and-exception monad [M] over the world, in which a thrown
      exception keeps the mutations done before it, as in JavaScript;
    - a [step] function that runs one macrotask: a call of a public method,
      a change of the settings, or a platform callback (the promise of
      [audio.play()] settles, the 250 ms timer fires, the ['ended'] event
      is dispatched, an asset lookup awaited by [initialize] settles). *)

From Stdlib Require Import QArith Qminmax.
From stdpp Require Import base list strings.

Open Scope string_scope.
Open Scope list_scope.

(** ** JavaScript numbers

    A [number] is an IEEE double.  Every finite double is a rational, and
    comparison, [Math.min] and [Math.max] are exact on them, so finite
    values are carried as [Q]; [-0] is identified with [0]. *)

Inductive number : Type :=
| NaN
| NegInfinity
| Finite (q : Q)
| Infinity.

(** [Math.max(a, b)]: [NaN] if either argument is, else the larger one. *)
Definition Math_max (a b : number) : number :=
  match a, b with
  | NaN, _ | _, NaN => NaN
  | Infinity, _ | _, Infinity => Infinity
  | NegInfinity, x | x, NegInfinity => x
  | Finite p, Finite q => match (p ?= q)%Q with Lt => Finite q | _ => Finite p end
  end.

(** [Math.min(a, b)]: [NaN] if either argument is, else the smaller one. *)
Definition Math_min (a b : number) : number :=
  match a, b with
  | NaN, _ | _, NaN => NaN
  | NegInfinity, _ | _, NegInfinity => NegInfinity
  | Infinity, x | x, Infinity => x
  | Finite p, Finite q => match (p ?= q)%Q with Gt => Finite q | _ => Finite p end
  end.

(** ** Exceptions *)

Record Error : Type := mkError { name : string; message : string }.

Definition TypeError (msg : string) : Error := mkError "TypeError" msg.
Definition IndexSizeError : Error :=
  mkError "IndexSizeError" "The volume provided is outside the range [0, 1].".
(** The rejection of [audio.play()] when the platform refuses playback. *)
Definition NotAllowedError : Error :=
  mkError "NotAllowedError" "play() failed because the user didn't interact with the document first.".

Inductive outcome (A : Type) : Type :=
| Ret (a : A)
| Throw (e : Error).
Arguments Ret {A} a.
Arguments Throw {A} e.

(** ** The platform's audio element

    Only the attributes the code touches.  [audio.play()] is asynchronous:
    it is modelled by the events of the step function below. *)

Module HTMLAudioElement.

Record t : Type := mk {
  src : string;
  volume : Q;
  loop : bool;
  paused : bool;
  currentTime : Q
}.

(** [new Audio(url)]. *)
Definition Audio (url : string) : t :=
  {| src := url; volume := 1; loop := false; paused := true; currentTime := 0 |}.

(** The [volume] setter: a value that is not a finite double is refused
    with a [TypeError], a value outside [0, 1] with an [IndexSizeError]. *)
Definition set_volume (v : number) (a : t) : outcome t :=
  match v with
  | Finite q =>
      if Qle_bool 0 q && Qle_bool q 1
      then Ret {| src := src a; volume := q; loop := loop a;
                  paused := paused a; currentTime := currentTime a |}
      else Throw IndexSizeError
  | _ => Throw (TypeError "The provided double value is non-finite.")
  end.

Definition set_loop (b : bool) (a : t) : t :=
  {| src := src a; volume := volume a; loop := b;
     paused := paused a; currentTime := currentTime a |}.

Definition set_currentTime (q : Q) (a : t) : t :=
  {| src := src a; volume := volume a; loop := loop a;
     paused := paused a; currentTime := q |}.

Definition set_src (s : string) (a : t) : t :=
  {| src := s; volume := volume a; loop := loop a;
     paused := paused a; currentTime := currentTime a |}.

(** [audio.pause()]. *)
Definition pause (a : t) : t :=
  {| src := src a; volume := volume a; loop := loop a;
     paused := true; currentTime := currentTime a |}.

(** [audio.load()]: the load algorithm pauses the element and seeks it
    to the start. *)
Definition load (a : t) : t :=
  {| src := src a; volume := volume a; loop := loop a;
     paused := true; currentTime := 0 |}.

(** The platform starts the element: the promise of [audio.play()] is
    fulfilled. *)
Definition started (a : t) : t :=
  {| src := src a; volume := volume a; loop := loop a;
     paused := false; currentTime := currentTime a |}.

End HTMLAudioElement.

(** ** References and callbacks *)

(** An object reference to an [AudioPlayer]: its index in the store. *)
Abbreviation loc := nat.

(** The calls that a user-supplied end callback can make on a player. *)
Inductive unit_call : Type :=
| DoPlay (l : loc) (loop : bool)
| DoRewind (l : loc)
| DoStop (l : loc)
| DoPause (l : loc)
| DoSetVolume (l : loc) (v : number)
| DoDestroy (l : loc).

(** The closures that are registered as end callbacks.
    - [OnEndTrigger src_id] is the arrow function of [initialize]:
      [() => haptic.triggerAction('widget-audio-player-audio-ended-' + source.id)];
    - [OnEndAdvance cell player] is the arrow function of [playNext]; it
      captures the [currentIndex] variable of its activation of
      [playAsPlaylist] (the cell) and the constant [player];
    - [OnEndUser calls raises] is a callback handed in by another caller of
      the public [registerOnEndCallback]: it makes the calls in order and
      then returns, or throws [e] when [raises = Some e]. *)
Inductive callback : Type :=
| OnEndTrigger (source_id : string)
| OnEndAdvance (cell : nat) (player : loc)
| OnEndUser (calls : list unit_call) (raises : option Error).

(** ** class AudioPlayer: fields and the methods that touch only [this] *)

Module AudioPlayer.

Record t : Type := mk {
  id : string;
  playing : bool;
  audio : HTMLAudioElement.t;
  onEndCallback : option callback
}.

Definition set_playing (b : bool) (p : t) : t :=
  {| id := id p; playing := b; audio := audio p; onEndCallback := onEndCallback p |}.

Definition set_audio (a : HTMLAudioElement.t) (p : t) : t :=
  {| id := id p; playing := playing p; audio := a; onEndCallback := onEndCallback p |}.

Definition set_id (s : string) (p : t) : t :=
  {| id := s; playing := playing p; audio := audio p; onEndCallback := onEndCallback p |}.

Definition set_onEndCallback (c : option callback) (p : t) : t :=
  {| id := id p; playing := playing p; audio := audio p; onEndCallback := c |}.

(** [private clampVolume(volume)]. *)
Definition clampVolume (volume : number) : number :=
  Math_min (Finite 1) (Math_max (Finite 0) volume).

(** [constructor(url, volume = 1.0)].  The ['ended'] listener it binds
    is [ended_listener] below. *)
Definition constructor (url : string) (volume : number) : outcome t :=
  match HTMLAudioElement.set_volume (clampVolume volume) (HTMLAudioElement.Audio url) with
  | Ret a => Ret {| id := ""; playing := false; audio := a; onEndCallback := None |}
  | Throw e => Throw e
  end.

(** The synchronous head of [play(loop)], before [this.audio.play()]. *)
Definition play_head (loop : bool) (p : t) : t :=
  set_playing true (set_audio (HTMLAudioElement.set_loop loop (audio p)) p).

Definition rewind (p : t) : t :=
  set_audio (HTMLAudioElement.set_currentTime 0 (audio p)) p.

Definition stop (p : t) : t :=
  set_playing false
    (set_audio (HTMLAudioElement.set_currentTime 0 (HTMLAudioElement.pause (audio p))) p).

Definition pause (p : t) : t :=
  set_audio (HTMLAudioElement.pause (audio p)) p.

Definition setVolume (volume : number) (p : t) : outcome t :=
  match HTMLAudioElement.set_volume (clampVolume volume) (audio p) with
  | Ret a => Ret (set_audio a p)
  | Throw e => Throw e
  end.

Definition registerOnEndCallback (cb : callback) (p : t) : t :=
  set_onEndCallback (Some cb) p.

(** [destroy()].  Each [try { ... } catch {}] swallows what its block
    throws; the setter of [0] is the only one that could. *)
Definition destroy (p : t) : t :=
  let p1 := set_onEndCallback None (set_playing false p) in
  let a1 := match HTMLAudioElement.set_volume (Finite 0) (audio p1) with
            | Ret a => a
            | Throw _ => audio p1
            end in
  let a2 := HTMLAudioElement.pause a1 in
  let a3 := HTMLAudioElement.load (HTMLAudioElement.set_src "" a2) in
  set_audio a3 p1.

End AudioPlayer.

(** ** Widget configuration *)

Inductive AudioSourceType : Type := FileAsset | Url.

Module AudioSource.
Record t : Type := mk {
  type : AudioSourceType;
  id : string;
  fileId : option string;
  url : option string;
  volume : option number
}.
End AudioSource.

(** ** The host's action tables

    What [initialize] hands to the host: the triggers the widget may fire
    and the effects the host may run.  A [string] stands for a JavaScript
    string, one character for one code unit. *)

Module ActionTrigger.
Record t : Type := mk {
  id : string;
  label : string
}.
End ActionTrigger.

(** The arrow functions that [initialize] gives as callbacks of action
    effects:
    - [StopAllAudio] is [() => { for (const player of this.players) player.stop() }];
    - [PlayAllAsPlaylist] is [() => this.playAsPlaylist()];
    - [PlayAudio id false] is [() => this.play(source.id)] and
      [PlayAudio id true] is [() => this.play(source.id, true)];
    - [StopAudio id] is [() => this.stop(source.id)]. *)
Inductive effect_callback : Type :=
| StopAllAudio
| PlayAllAsPlaylist
| PlayAudio (id : string) (loop : bool)
| StopAudio (id : string).

Module ActionEffect.
Record t : Type := mk {
  id : string;
  label : string;
  callback : effect_callback
}.
End ActionEffect.

(** ** The world *)

(** Where an activation of [AudioPlayer.play] stands: suspended on
    [await this.audio.play()], suspended on the 250 ms timer, or settled.
    [Rejected] is the promise of [play()] rejecting; it is there to be
    told apart from [Resolved], and no path of the code produces it. *)
Inductive phase : Type :=
| AwaitPlay
| AwaitTimer
| Resolved
| Rejected (e : Error).

Record activation : Type := mkActivation {
  act_player : loc;
  act_phase : phase
}.

(** Where an activation of [AudioPlayerWidget.initialize] stands: running,
    suspended on [await haptic.board.assets.getFileUrl(source.fileId)],
    suspended on [await haptic.board.assets.getFileNode(source.fileId)],
    or settled.  A suspended activation keeps its local variables: the
    [source] the loop is at, the sources its iterator has still to yield,
    the [player] it has constructed, and the tables [actionTriggers] and
    [actionEffects] as far as they are filled. *)
Inductive initialization : Type :=
| InitRunning
| AwaitFileUrl (source : AudioSource.t) (rest : list AudioSource.t)
    (actionTriggers : list ActionTrigger.t) (actionEffects : list ActionEffect.t)
| AwaitFileNode (source : AudioSource.t) (player : loc) (rest : list AudioSource.t)
    (actionTriggers : list ActionTrigger.t) (actionEffects : list ActionEffect.t)
| InitResolved
| InitRejected (e : Error).

(** What the code sends to its collaborators, in order.  [PlayCalled] and
    [CallbackInvoked] record the entry into [AudioPlayer.play] and the call
    [this.onEndCallback()]; [AudioPlay k l] is the call [this.audio.play()]
    made by activation [k] on the audio element of player [l]. *)
Inductive effect : Type :=
| AnalyticsDebug (what : string)
| AnalyticsError (what : string) (about : string)
| ConsoleWarn (msg : string)
| ConsoleError (msg : string) (err : Error)
| TriggerAction (action : string)
| PlayCalled (l : loc) (loop : bool)
| AudioPlay (k : nat) (l : loc)
| SetTimeout (k : nat) (ms : nat)
| CallbackInvoked (l : loc).

Record world : Type := mkWorld {
  store : list AudioPlayer.t;            (* every AudioPlayer constructed so far *)
  players : list loc;                    (* this.players *)
  sources : option (list AudioSource.t); (* this.shared.sources *)
  autoStart : bool;                      (* this.shared.autoStart *)
  assets : list (string * string);       (* haptic.board.assets: fileId to url *)
  cells : list nat;                      (* a currentIndex per playAsPlaylist activation *)
  plays : list activation;               (* the activations of AudioPlayer.play *)
  inits : list initialization;           (* the activations of initialize *)
  haptic_actionTriggers : list ActionTrigger.t; (* haptic.actionTriggers *)
  haptic_actionEffects : list ActionEffect.t;   (* haptic.actionEffects *)
  trace : list effect
}.

Definition set_store (s : list AudioPlayer.t) (w : world) : world :=
  {| store := s; players := players w; sources := sources w; autoStart := autoStart w;
     assets := assets w; cells := cells w; plays := plays w; inits := inits w;
     haptic_actionTriggers := haptic_actionTriggers w;
     haptic_actionEffects := haptic_actionEffects w; trace := trace w |}.

Definition set_players (ps : list loc) (w : world) : world :=
  {| store := store w; players := ps; sources := sources w; autoStart := autoStart w;
     assets := assets w; cells := cells w; plays := plays w; inits := inits w;
     haptic_actionTriggers := haptic_actionTriggers w;
     haptic_actionEffects := haptic_actionEffects w; trace := trace w |}.

Definition set_cells (cs : list nat) (w : world) : world :=
  {| store := store w; players := players w; sources := sources w; autoStart := autoStart w;
     assets := assets w; cells := cs; plays := plays w; inits := inits w;
     haptic_actionTriggers := haptic_actionTriggers w;
     haptic_actionEffects := haptic_actionEffects w; trace := trace w |}.

Definition set_plays (ks : list activation) (w : world) : world :=
  {| store := store w; players := players w; sources := sources w; autoStart := autoStart w;
     assets := assets w; cells := cells w; plays := ks; inits := inits w;
     haptic_actionTriggers := haptic_actionTriggers w;
     haptic_actionEffects := haptic_actionEffects w; trace := trace w |}.

Definition set_trace (t : list effect) (w : world) : world :=
  {| store := store w; players := players w; sources := sources w; autoStart := autoStart w;
     assets := assets w; cells := cells w; plays := plays w; inits := inits w;
     haptic_actionTriggers := haptic_actionTriggers w;
     haptic_actionEffects := haptic_actionEffects w; trace := t |}.

Definition set_sources (srcs : option (list AudioSource.t)) (w : world) : world :=
  {| store := store w; players := players w; sources := srcs; autoStart := autoStart w;
     assets := assets w; cells := cells w; plays := plays w; inits := inits w;
     haptic_actionTriggers := haptic_actionTriggers w;
     haptic_actionEffects := haptic_actionEffects w; trace := trace w |}.

Definition set_autoStart (auto : bool) (w : world) : world :=
  {| store := store w; players := players w; sources := sources w; autoStart := auto;
     assets := assets w; cells := cells w; plays := plays w; inits := inits w;
     haptic_actionTriggers := haptic_actionTriggers w;
     haptic_actionEffects := haptic_actionEffects w; trace := trace w |}.

Definition set_inits (acts : list initialization) (w : world) : world :=
  {| store := store w; players := players w; sources := sources w; autoStart := autoStart w;
     assets := assets w; cells := cells w; plays := plays w; inits := acts;
     haptic_actionTriggers := haptic_actionTriggers w;
     haptic_actionEffects := haptic_actionEffects w; trace := trace w |}.

Definition set_haptic_actionTriggers (ts : list ActionTrigger.t) (w : world) : world :=
  {| store := store w; players := players w; sources := sources w; autoStart := autoStart w;
     assets := assets w; cells := cells w; plays := plays w; inits := inits w;
     haptic_actionTriggers := ts;
     haptic_actionEffects := haptic_actionEffects w; trace := trace w |}.

Definition set_haptic_actionEffects (es : list ActionEffect.t) (w : world) : world :=
  {| store := store w; players := players w; sources := sources w; autoStart := autoStart w;
     assets := assets w; cells := cells w; plays := plays w; inits := inits w;
     haptic_actionTriggers := haptic_actionTriggers w;
     haptic_actionEffects := es; trace := trace w |}.

(** ** The monad: state, and exceptions that keep the state *)

Definition M (A : Type) : Type := world -> outcome A * world.

Definition ret {A} (a : A) : M A := fun w => (Ret a, w).

Definition bind {A B} (m : M A) (f : A -> M B) : M B :=
  fun w => match m w with
           | (Ret a, w') => f a w'
           | (Throw e, w') => (Throw e, w')
           end.

Definition throw {A} (e : Error) : M A := fun w => (Throw e, w).

(** [try { body } catch (e) { handler(e) }]. *)
Definition try_catch {A} (body : M A) (handler : Error -> M A) : M A :=
  fun w => match body w with
           | (Ret a, w') => (Ret a, w')
           | (Throw e, w') => handler e w'
           end.

Notation "'let*' x := c 'in' k" := (bind c (fun x => k))
  (at level 10, x name, c at level 100, k at level 200).
Notation "c >> k" := (bind c (fun _ => k))
  (at level 100, k at level 200, right associativity).

Definition get : M world := fun w => (Ret w, w).
Definition modify (f : world -> world) : M unit := fun w => (Ret tt, f w).

Definition emit (e : effect) : M unit :=
  modify (fun w => set_trace (trace w ++ [e]) w).

(** Reading through a reference.  Every reference the code holds is to a
    live object, so the [None] branch is never taken from a world built by
    the code; it is kept as a fault so that no lemma can rely on it. *)
Definition deref (l : loc) : M AudioPlayer.t :=
  fun w => match store w !! l with
           | Some p => (Ret p, w)
           | None => (Throw (TypeError "dangling reference"), w)
           end.

Definition update (l : loc) (f : AudioPlayer.t -> AudioPlayer.t) : M unit :=
  let* p := deref l in
  modify (fun w => set_store (<[l := f p]> (store w)) w).

(** [new AudioPlayer(...)] once the constructor has returned [p]. *)
Definition alloc (p : AudioPlayer.t) : M loc :=
  fun w => (Ret (length (store w)), set_store (store w ++ [p]) w).

Fixpoint for_each {A} (xs : list A) (body : A -> M unit) : M unit :=
  match xs with
  | [] => ret tt
  | x :: xs' => body x >> for_each xs' body
  end.

Definition triggerAction (action : string) : M unit := emit (TriggerAction action).

(** The [currentIndex] variable of an activation of [playAsPlaylist]:
    [let currentIndex = 0], reading it, and assigning to it. *)
Definition new_cell (v : nat) : M nat :=
  fun w => (Ret (length (cells w)), set_cells (cells w ++ [v]) w).

Definition read_cell (c : nat) : M nat :=
  fun w => (Ret (default 0 (cells w !! c)), w).

Definition write_cell (c : nat) (v : nat) : M unit :=
  modify (fun w => set_cells (<[c := v]> (cells w)) w).

(** A new activation of [AudioPlayer.play] on player [l]. *)
Definition spawn (l : loc) : M nat :=
  fun w => (Ret (length (plays w)), set_plays (plays w ++ [mkActivation l AwaitPlay]) w).

(** A new activation of [AudioPlayerWidget.initialize], and where an
    activation stands. *)
Definition spawn_init : M nat :=
  fun w => (Ret (length (inits w)), set_inits (inits w ++ [InitRunning]) w).

Definition set_init (a : nat) (st : initialization) : M unit :=
  modify (fun w => set_inits (<[a := st]> (inits w)) w).

(** Activation [a] of an [async] function runs [body], from where it is
    called or resumed to where it suspends or returns.  What [body] throws
    rejects the promise of the activation; no caller awaits or catches
    that promise, so the rejection is a fault of the macrotask. *)
Definition running (a : nat) (body : M unit) : M unit :=
  try_catch body (fun e => set_init a (InitRejected e) >> throw e).

(** ** class AudioPlayer: [play] and the ['ended'] listener *)

Definition activation_of (k : nat) : M (option activation) :=
  let* w := get in ret (plays w !! k).

Definition set_phase (k : nat) (ph : phase) : M unit :=
  modify (fun w =>
    match plays w !! k with
    | Some a => set_plays (<[k := mkActivation (act_player a) ph]> (plays w)) w
    | None => w
    end).

(** One pass through [attemptPlay] up to [await this.audio.play()]. *)
Definition attemptPlay (k : nat) (l : loc) : M unit :=
  emit (AudioPlay k l) >> set_phase k AwaitPlay.

(** [play(loop = false)] up to its first [await]; the result is the index
    of the new activation, which stands for the returned promise. *)
Definition play (l : loc) (loop : bool) : M nat :=
  emit (PlayCalled l loop) >>
  update l (AudioPlayer.play_head loop) >>
  let* k := spawn l in
  attemptPlay k l >>
  ret k.

(** The promise of [this.audio.play()] settles for activation [k]:
    fulfilled ([None]) or rejected with [err].  When fulfilled the [try]
    block ends, [attemptPlay] returns through every enclosing [await] and
    [play] resolves.  The platform has no such promise pending unless the
    activation is suspended on it. *)
Definition play_settled (k : nat) (r : option Error) : M unit :=
  let* a := activation_of k in
  match a with
  | Some (mkActivation l AwaitPlay) =>
      match r with
      | None =>
          update l (fun p => AudioPlayer.set_audio (HTMLAudioElement.started (AudioPlayer.audio p)) p) >>
          set_phase k Resolved
      | Some err =>
          if String.eqb (name err) "NotAllowedError" then
            emit (ConsoleWarn "Playback blocked, retrying...") >>
            emit (SetTimeout k 250) >>
            set_phase k AwaitTimer
          else
            emit (ConsoleError "Audio playback failed:" err) >>
            update l (AudioPlayer.set_playing false) >>
            set_phase k Resolved
      end
  | _ => ret tt
  end.

(** The 250 ms timer of activation [k] fires: [if (!this.playing) return],
    else the next pass through [attemptPlay]. *)
Definition timer_fired (k : nat) : M unit :=
  let* a := activation_of k in
  match a with
  | Some (mkActivation l AwaitTimer) =>
      let* p := deref l in
      if negb (AudioPlayer.playing p) then set_phase k Resolved
      else attemptPlay k l
  | _ => ret tt
  end.

(** A call made by a user callback or from outside. *)
Definition do_call (c : unit_call) : M unit :=
  match c with
  | DoPlay l loop => play l loop >> ret tt
  | DoRewind l => update l AudioPlayer.rewind
  | DoStop l => update l AudioPlayer.stop
  | DoPause l => update l AudioPlayer.pause
  | DoSetVolume l v =>
      let* p := deref l in
      match AudioPlayer.setVolume v p with
      | Ret p' => update l (fun _ => p')
      | Throw e => throw e
      end
  | DoDestroy l => update l AudioPlayer.destroy
  end.

(** ** class AudioPlayerWidget *)

Definition started_action (id : string) : string :=
  ("widget-audio-player-audio-started-" ++ id)%string.
Definition ended_action (id : string) : string :=
  ("widget-audio-player-audio-ended-" ++ id)%string.

(** The local function [playNext] of the activation of [playAsPlaylist]
    whose [currentIndex] is cell [c].  [this.players[currentIndex]] is
    [undefined] out of range, and calling a method on it throws. *)
Definition playNext (c : nat) : M unit :=
  let* w := get in
  let* i := read_cell c in
  (if (length (players w) <=? i)%nat then write_cell c 0 else ret tt) >>
  let* currentIndex := read_cell c in
  match players w !! currentIndex with
  | None => throw (TypeError "Cannot read properties of undefined (reading 'registerOnEndCallback')")
  | Some l =>
      update l (AudioPlayer.registerOnEndCallback (OnEndAdvance c l)) >>
      let* p := deref l in
      triggerAction (started_action (AudioPlayer.id p)) >>
      play l false >>
      ret tt
  end.

(** Calling the registered closure. *)
Definition invoke (cb : callback) : M unit :=
  match cb with
  | OnEndTrigger source_id => triggerAction (ended_action source_id)
  | OnEndAdvance c l =>
      let* p := deref l in
      triggerAction (ended_action (AudioPlayer.id p)) >>
      let* currentIndex := read_cell c in
      write_cell c (S currentIndex) >>
      playNext c
  | OnEndUser calls raises =>
      for_each calls do_call >>
      match raises with
      | Some e => throw e
      | None => ret tt
      end
  end.

(** The listener of ['ended'] bound by the constructor of player [l]. *)
Definition ended_listener (l : loc) : M unit :=
  let* p := deref l in
  if negb (AudioPlayer.playing p) then ret tt
  else
    update l (AudioPlayer.set_playing false) >>
    let* p' := deref l in
    match AudioPlayer.onEndCallback p' with
    | None => ret tt
    | Some cb =>
        try_catch (emit (CallbackInvoked l) >> invoke cb)
                  (fun error => emit (ConsoleError "Audio onEnd callback failed:" error))
    end.

(** [this.players.find((p) => p.id === id)]. *)
Definition find_player (id : string) : M (option loc) :=
  let* w := get in
  ret (List.find (fun l => match store w !! l with
                           | Some p => String.eqb (AudioPlayer.id p) id
                           | None => false
                           end) (players w)).

Module AudioPlayerWidget.

(** [public play(id, loop = false)]. *)
Definition play (id : string) (loop : bool) : M unit :=
  emit (AnalyticsDebug "play") >>
  let* player := find_player id in
  match player with
  | None => emit (AnalyticsError "No audio player found with ID" id)
  | Some l =>
      let* p := deref l in
      (if AudioPlayer.playing p then update l AudioPlayer.rewind else ret tt) >>
      play l loop >>
      ret tt
  end.

(** [public stop(id)]. *)
Definition stop (id : string) : M unit :=
  emit (AnalyticsDebug "stop") >>
  let* player := find_player id in
  match player with
  | None => emit (AnalyticsError "No audio player found with ID" id)
  | Some l => update l AudioPlayer.stop
  end.

(** [private destroyPlayers()]; [initialize] starts with the same two
    statements. *)
Definition destroyPlayers : M unit :=
  let* w := get in
  for_each (players w) (fun l => update l AudioPlayer.destroy) >>
  modify (set_players []).

(** The action effect 'Stop all audio'. *)
Definition stopAll : M unit :=
  let* w := get in
  for_each (players w) (fun l => update l AudioPlayer.stop).

(** [private playAsPlaylist()].  [!this.shared.sources?.length] holds
    when [sources] is [undefined] or empty. *)
Definition playAsPlaylist : M unit :=
  emit (AnalyticsDebug "playAsPlaylist") >>
  let* w := get in
  match sources w with
  | None | Some [] => ret tt
  | Some (_ :: _) =>
      let* c := new_cell 0 in
      playNext c
  end.

(** JavaScript truthiness of an optional string field. *)
Definition truthy (s : option string) : option string :=
  match s with
  | Some "" | None => None
  | Some x => Some x
  end.

(** [if (name?.length > 30) name = name.slice(0, 27) + '...']. *)
Definition short_name (name : string) : string :=
  if (30 <? String.length name)%nat then (String.substring 0 27 name ++ "...")%string
  else name.

(** The two [actionTriggers.push(...)] of the loop body. *)
Definition push_triggers (source : AudioSource.t) (name : string)
    (actionTriggers : list ActionTrigger.t) : list ActionTrigger.t :=
  actionTriggers ++
  [ActionTrigger.mk (ended_action (AudioSource.id source)) ("Audio ends: " ++ name)%string;
   ActionTrigger.mk (started_action (AudioSource.id source)) ("Audio starts: " ++ name)%string].

(** The three [actionEffects.push(...)] of the loop body. *)
Definition push_effects (source : AudioSource.t) (name : string)
    (actionEffects : list ActionEffect.t) : list ActionEffect.t :=
  actionEffects ++
  [ActionEffect.mk ("widget-audio-player-play-audio-" ++ AudioSource.id source)%string
     ("Play audio: " ++ name)%string (PlayAudio (AudioSource.id source) false);
   ActionEffect.mk ("widget-audio-player-stop-audio-" ++ AudioSource.id source)%string
     ("Stop audio: " ++ name)%string (StopAudio (AudioSource.id source));
   ActionEffect.mk ("widget-audio-player-play-audio-loop-" ++ AudioSource.id source)%string
     ("Loop audio: " ++ name)%string (PlayAudio (AudioSource.id source) true)].

(** The two entries [actionEffects] starts with. *)
Definition global_effects : list ActionEffect.t :=
  [ActionEffect.mk "widget-audio-player-stop-all-audio" "Stop all audio" StopAllAudio;
   ActionEffect.mk "widget-audio-player-play-all-audio-as-playlist"
     "Play all audio as playlist" PlayAllAsPlaylist].

(** [player = new AudioPlayer(url, source.volume ?? 1)],
    [player.id = source.id], [this.players.push(player)] inside the [try]
    of the loop body: the new player, or nothing when the constructor has
    thrown, which the [catch] logs before it leaves the body with
    [continue]. *)
Definition new_player (source : AudioSource.t) (url : string) : M (option loc) :=
  match AudioPlayer.constructor url (default (Finite 1) (AudioSource.volume source)) with
  | Throw error =>
      emit (AnalyticsError "Error initializing audio player for source:" (AudioSource.id source)) >>
      ret None
  | Ret p =>
      let* l := alloc (AudioPlayer.set_id (AudioSource.id source) p) in
      modify (fun w => set_players (players w ++ [l]) w) >>
      ret (Some l)
  end.

(** The end of the loop body for [source] once its [name] is known: the
    pushes to the two tables and the registration of the callback that
    reports the end of the source. *)
Definition add_actions (source : AudioSource.t) (player : loc) (name : string)
    (next : list ActionTrigger.t -> list ActionEffect.t -> M unit)
    (actionTriggers : list ActionTrigger.t) (actionEffects : list ActionEffect.t) : M unit :=
  update player (AudioPlayer.registerOnEndCallback (OnEndTrigger (AudioSource.id source))) >>
  next (push_triggers source (short_name name) actionTriggers)
       (push_effects source (short_name name) actionEffects).

(** What follows the loop: the tables are handed to the host and, with
    [autoStart], the playlist is started; [initialize] returns. *)
Definition init_finish (a : nat)
    (actionTriggers : list ActionTrigger.t) (actionEffects : list ActionEffect.t) : M unit :=
  modify (set_haptic_actionTriggers actionTriggers) >>
  modify (set_haptic_actionEffects actionEffects) >>
  let* w := get in
  (if autoStart w then playAsPlaylist else ret tt) >>
  set_init a InitResolved.

(** The loop [for (const source of this.shared.sources)] of activation
    [a], from the sources its iterator has still to yield, up to the next
    [await] or through to the end of [initialize].  A URL source needs no
    lookup: its name is [source.url].  A file source with a [fileId]
    suspends the activation on [getFileUrl]. *)
Fixpoint init_loop (a : nat) (srcs : list AudioSource.t)
    (actionTriggers : list ActionTrigger.t) (actionEffects : list ActionEffect.t) : M unit :=
  match srcs with
  | [] => init_finish a actionTriggers actionEffects
  | source :: rest =>
      match AudioSource.type source, truthy (AudioSource.fileId source),
            truthy (AudioSource.url source) with
      | FileAsset, Some fileId, _ =>
          set_init a (AwaitFileUrl source rest actionTriggers actionEffects)
      | Url, _, Some url =>
          let* player := new_player source url in
          match player with
          | None => init_loop a rest actionTriggers actionEffects
          | Some l => add_actions source l url (init_loop a rest) actionTriggers actionEffects
          end
      | _, _, _ =>
          emit (AnalyticsError "Invalid audio source configuration:" (AudioSource.id source)) >>
          init_loop a rest actionTriggers actionEffects
      end
  end.

(** [private async initialize()] up to its first [await], or through to
    its end when no source needs a lookup.  The array the loop iterates
    is the value of [this.shared.sources] when the loop starts. *)
Definition initialize : M unit :=
  let* a := spawn_init in
  running a
    (emit (AnalyticsDebug "initialize") >>
     destroyPlayers >>
     let* w := get in
     match sources w with
     | None => throw (TypeError "this.shared.sources is not iterable")
     | Some srcs => init_loop a srcs [] global_effects
     end).

(** The promise of [getFileUrl] awaited by activation [a] settles:
    fulfilled with what the board has for the file, or rejected with
    [error], which the [catch] of the loop body logs.  With a URL the
    player is constructed and the activation suspends again, on
    [getFileNode]. *)
Definition file_url_settled (a : nat) (r : option Error) : M unit :=
  let* w := get in
  match inits w !! a with
  | Some (AwaitFileUrl source rest actionTriggers actionEffects) =>
      set_init a InitRunning >>
      running a
        match r with
        | Some error =>
            emit (AnalyticsError "Error initializing audio player for source:"
                    (AudioSource.id source)) >>
            init_loop a rest actionTriggers actionEffects
        | None =>
            let fileId := default "" (AudioSource.fileId source) in
            match truthy (snd <$> List.find (fun kv => String.eqb (fst kv) fileId) (assets w)) with
            | None =>
                emit (AnalyticsError "Failed to get URL for file asset with ID" fileId) >>
                init_loop a rest actionTriggers actionEffects
            | Some url =>
                let* player := new_player source url in
                match player with
                | None => init_loop a rest actionTriggers actionEffects
                | Some l => set_init a (AwaitFileNode source l rest actionTriggers actionEffects)
                end
            end
        end
  | _ => ret tt
  end.

(** The promise of [getFileNode] awaited by activation [a] settles:
    fulfilled with a node whose name is [node_name], if it has one, or
    rejected, which is outside the [try] and rejects [initialize].  The
    name is [(await ...)?.name || 'unknown']. *)
Definition file_node_settled (a : nat) (r : outcome (option string)) : M unit :=
  let* w := get in
  match inits w !! a with
  | Some (AwaitFileNode source l rest actionTriggers actionEffects) =>
      set_init a InitRunning >>
      running a
        match r with
        | Throw error => throw error
        | Ret node_name =>
            add_actions source l (default "unknown" (truthy node_name))
              (init_loop a rest) actionTriggers actionEffects
        end
  | _ => ret tt
  end.

(** The host runs the callback of an action effect. *)
Definition run_effect (cb : effect_callback) : M unit :=
  match cb with
  | StopAllAudio => stopAll
  | PlayAllAsPlaylist => playAsPlaylist
  | PlayAudio id loop => play id loop
  | StopAudio id => stop id
  end.

End AudioPlayerWidget.

(** ** Macrotasks *)

Inductive event : Type :=
(* calls of public methods of a player *)
| Call (c : unit_call)
| CallRegisterOnEndCallback (l : loc) (cb : callback)
(* the widget's entry points and action effects *)
| WidgetPlay (id : string) (loop : bool)
| WidgetStop (id : string)
| WidgetStopAll
| WidgetPlayAsPlaylist
| WidgetInitialize
| WidgetDestroy
(* the settings dialog assigns a shared variable; [sources] has an observer
   that calls [initialize] *)
| SourcesChanged (srcs : list AudioSource.t)
| AutoStartChanged (auto : bool)
(* the host runs the action effect registered under an identifier *)
| ActionEffectRun (id : string)
(* platform callbacks *)
| PlaySettled (k : nat) (r : option Error)
| TimerFired (k : nat)
| Ended (l : loc)
| FileUrlSettled (a : nat) (r : option Error)
| FileNodeSettled (a : nat) (r : outcome (option string)).

(** One macrotask.  [Throw] is a fault that leaves the operation. *)
Definition step (e : event) : M unit :=
  match e with
  | Call c => do_call c
  | CallRegisterOnEndCallback l cb => update l (AudioPlayer.registerOnEndCallback cb)
  | WidgetPlay id loop => AudioPlayerWidget.play id loop
  | WidgetStop id => AudioPlayerWidget.stop id
  | WidgetStopAll => AudioPlayerWidget.stopAll
  | WidgetPlayAsPlaylist => AudioPlayerWidget.playAsPlaylist
  | WidgetInitialize => AudioPlayerWidget.initialize
  | WidgetDestroy => AudioPlayerWidget.destroyPlayers
  | SourcesChanged srcs =>
      modify (set_sources (Some srcs)) >> AudioPlayerWidget.initialize
  | AutoStartChanged auto => modify (set_autoStart auto)
  | ActionEffectRun id =>
      let* w := get in
      match List.find (fun e => String.eqb (ActionEffect.id e) id) (haptic_actionEffects w) with
      | Some e => AudioPlayerWidget.run_effect (ActionEffect.callback e)
      | None => ret tt
      end
  | PlaySettled k r => play_settled k r
  | TimerFired k => timer_fired k
  | Ended l => ended_listener l
  | FileUrlSettled a r => AudioPlayerWidget.file_url_settled a r
  | FileNodeSettled a r => AudioPlayerWidget.file_node_settled a r
  end.

(** A run of macrotasks; the faults that left an operation are collected,
    and the event loop goes on after each. *)
Fixpoint run (es : list event) (w : world) : list Error * world :=
  match es with
  | [] => ([], w)
  | e :: es' =>
      match step e w with
      | (Ret _, w') => run es' w'
      | (Throw err, w') => let '(errs, w'') := run es' w' in (err :: errs, w'')
      end
  end.

(** The world of a freshly loaded widget, before its constructor calls
    [initialize]. *)
Definition boot (srcs : list AudioSource.t) (auto : bool) (files : list (string * string)) : world :=
  {| store := []; players := []; sources := Some srcs; autoStart := auto;
     inits := []; haptic_actionTriggers := []; haptic_actionEffects := [];
     assets := files; cells := []; plays := []; trace := [] |}.

(** ** Observations on a world *)

(** The player behind a reference, and its fields. *)
Definition player_at (w : world) (l : loc) : option AudioPlayer.t := store w !! l.

Definition playing_at (w : world) (l : loc) : option bool :=
  AudioPlayer.playing <$> store w !! l.

Definition callback_at (w : world) (l : loc) : option (option callback) :=
  AudioPlayer.onEndCallback <$> store w !! l.

Definition volume_at (w : world) (l : loc) : option Q :=
  (fun p => HTMLAudioElement.volume (AudioPlayer.audio p)) <$> store w !! l.

(** The identifier of the player behind a reference. *)
Definition unit_id (w : world) (l : loc) : string :=
  default "" (AudioPlayer.id <$> store w !! l).

(** The volume a constructor or setter call leaves behind. *)
Definition stored_volume (r : outcome AudioPlayer.t) : option Q :=
  match r with
  | Ret p => Some (HTMLAudioElement.volume (AudioPlayer.audio p))
  | Throw _ => None
  end.

Definition phase_of (w : world) (k : nat) : option phase :=
  act_phase <$> plays w !! k.

(** The activation of the latest call of [AudioPlayer.play]. *)
Definition last_play (w : world) : nat := pred (length (plays w)).

(** The unit under the cursor of the playlist run whose cell is [c]. *)
Definition current (c : nat) (w : world) : option loc :=
  match cells w !! c with
  | Some i => players w !! i
  | None => None
  end.

(** Counting effects in a trace. *)
Definition count (f : effect -> bool) (t : list effect) : nat :=
  length (List.filter f t).

Definition is_attempt (k : nat) (e : effect) : bool :=
  match e with AudioPlay k' _ => (k' =? k)%nat | _ => false end.

Definition is_backoff (k : nat) (e : effect) : bool :=
  match e with SetTimeout k' ms => (k' =? k)%nat && (ms =? 250)%nat | _ => false end.

Definition is_timeout (k : nat) (e : effect) : bool :=
  match e with SetTimeout k' _ => (k' =? k)%nat | _ => false end.

Definition is_callback (e : effect) : bool :=
  match e with CallbackInvoked _ => true | _ => false end.

(** The play attempts of activation [k] so far, its timers of 250 ms, its
    timers of any delay, and the calls of end callbacks. *)
Definition attempts (k : nat) (w : world) : nat := count (is_attempt k) (trace w).
Definition backoffs (k : nat) (w : world) : nat := count (is_backoff k) (trace w).
Definition timeouts (k : nat) (w : world) : nat := count (is_timeout k) (trace w).
Definition callbacks (w : world) : nat := count is_callback (trace w).

(** The notifications sent to the host's action system, in order. *)
Definition notifications (w : world) : list string :=
  omap (fun e => match e with TriggerAction a => Some a | _ => None end) (trace w).

(** ** Schedules of the platform *)

(** Natural ends driven one after the other: each time, the platform lets
    the pending attempt of the unit under the cursor of run [c] through,
    and the unit then plays to its end. *)
Fixpoint drive (c : nat) (n : nat) (w : world) : world :=
  match n with
  | O => w
  | S n' =>
      let w' := drive c n' w in
      match current c w' with
      | Some l => snd (run [PlaySettled (last_play w') None; Ended l] w')
      | None => w'
      end
  end.

(** An activation whose first [n] attempts are refused by the platform and
    whose next attempt is let through. *)
Fixpoint blocked_then_allowed (k : nat) (n : nat) (err : Error) : list event :=
  match n with
  | O => [PlaySettled k None]
  | S n' => PlaySettled k (Some err) :: TimerFired k :: blocked_then_allowed k n' err
  end.

(** What the platform still delivers to an activation in phase [ph] when
    it refuses the attempt with [err]: the rejection of the pending
    attempt, if one is pending, and then the timer. *)
Definition remaining (k : nat) (ph : phase) (err : Error) : list event :=
  match ph with
  | AwaitPlay => [PlaySettled k (Some err); TimerFired k]
  | AwaitTimer => [TimerFired k]
  | _ => []
  end.

(** The timers such an activation still sets. *)
Definition remaining_backoffs (ph : phase) : nat :=
  match ph with
  | AwaitPlay => 1
  | _ => 0
  end.

(** ** Invariants *)

(** [Inv] is kept by the computation [m], whatever it returns or throws. *)
Definition stable (Inv : world -> Prop) {A} (m : M A) : Prop :=
  forall w, Inv w -> Inv (snd (m w)).

(** The effects that are neither a play attempt, nor a timer, nor the call
    of an end callback. *)
Definition quiet (e : effect) : Prop :=
  match e with
  | AudioPlay _ _ | SetTimeout _ _ | CallbackInvoked _ => False
  | _ => True
  end.

(** Activation [k], of player [l], has resolved after [n] play attempts
    and [m] timers. *)
Definition settled (k : nat) (l : loc) (n m : nat) (w : world) : Prop :=
  plays w !! k = Some (mkActivation l Resolved) /\ attempts k w = n /\ timeouts k w = m.

(** No player managed by the widget carries the identifier [id]. *)
Definition unmanaged (id : string) (w : world) : Prop :=
  forall l p, l ∈ players w -> store w !! l = Some p -> AudioPlayer.id p <> id.

(** Every reference in [this.players] is to a constructed player. *)
Definition valid_players (w : world) : Prop :=
  forall l, l ∈ players w -> l < length (store w).

(** The playlist run with cell [c], started in world [w], has reached its
    [j]-th unit in world [wj]: the collection and the identifiers are the
    ones of [w], the cursor is [j] modulo the number of units, and the unit
    under it is playing, not looping, with the advancement handler of this
    run in its callback slot and its play attempt pending. *)
Definition playlist_at (w : world) (c j : nat) (wj : world) : Prop :=
  players wj = players w
  /\ AudioPlayer.id <$> store wj = AudioPlayer.id <$> store w
  /\ cells wj !! c = Some (j mod length (players w))
  /\ exists l q,
       players w !! (j mod length (players w)) = Some l
       /\ store wj !! l = Some q
       /\ AudioPlayer.playing q = true
       /\ HTMLAudioElement.loop (AudioPlayer.audio q) = false
       /\ AudioPlayer.onEndCallback q = Some (OnEndAdvance c l)
       /\ plays wj !! last_play wj = Some (mkActivation l AwaitPlay).

(** The cursors are those of [cs], but for the one of run [c]. *)
Definition one_changed (c : nat) (cs : list nat) (w : world) : Prop :=
  exists v, cells w = <[c := v]> cs.

(** The run a callback advances, if it is an advancement handler. *)
Definition run_of (cb : option callback) : nat :=
  match cb with
  | Some (OnEndAdvance c _) => c
  | _ => 0
  end.

(** ** Sample configurations *)

Definition url_source (id url : string) : AudioSource.t :=
  AudioSource.mk Url id None (Some url) None.

Definition three_sources : list AudioSource.t :=
  [url_source "A" "a.mp3"; url_source "B" "b.mp3"; url_source "C" "c.mp3"].

(** The widget once its constructor has run [initialize] on three URL
    sources: players 0, 1 and 2 with the identifiers A, B and C. *)
Definition three_units : world :=
  snd (run [WidgetInitialize] (boot three_sources false [])).

(** Player 0 of [three_units] after [play()] was called on it. *)
Definition playing_first : world :=
  snd (step (Call (DoPlay 0 false)) three_units).

(** Player 0 of [three_units] in the middle of a retry chain: [play()] was
    called, the first attempt was refused and the 250 ms timer is running. *)
Definition retrying : world :=
  snd (run [Call (DoPlay 0 false); PlaySettled 0 (Some NotAllowedError)] three_units).

(** Player 0 of [three_units] after [destroy()]. *)
Definition destroyed_first : world :=
  snd (step (Call (DoDestroy 0)) three_units).

(** The playlist of [three_units] after its first unit has played to its
    end: the run with cell 0 stands at the second unit. *)
Definition mid_playlist : world :=
  snd (run [WidgetPlayAsPlaylist; PlaySettled 0 None; Ended 0] three_units).

(** What [audio.play()] is rejected with when the element has no source
    it can play. *)
Definition NotSupportedError : Error :=
  mkError "NotSupportedError" "The element has no supported sources.".

(** A source as the settings dialog first creates it: a file asset whose
    file has not been picked yet. *)
Definition unpicked_source : AudioSource.t :=
  AudioSource.mk FileAsset "A" None None (Some (Finite 1)).

(** ** Well-formed worlds *)

(** Every reference held by the widget or by an activation of
    [AudioPlayer.play] is to a constructed player. *)
Definition well_formed (w : world) : Prop :=
  valid_players w
  /\ forall k a, plays w !! k = Some a -> act_player a < length (store w).

(** [f] applied to the players behind the references [ls], one after the
    other, as [for (const player of ls) player.f()] does. *)
Definition update_all (f : AudioPlayer.t -> AudioPlayer.t) (ls : list loc)
    (st : list AudioPlayer.t) : list AudioPlayer.t :=
  foldl (fun st l => alter f l st) st ls.

(** [l] is the first of the managed players that carries the identifier
    [id]. *)
Definition first_with (id : string) (w : world) (l : loc) : Prop :=
  exists ps1 ps2,
    players w = ps1 ++ l :: ps2
    /\ Forall (fun l' => unit_id w l' <> id) ps1
    /\ AudioPlayer.id <$> store w !! l = Some id.

(** ** What [initialize] builds *)

(** The URL that the loop body of [initialize] hands to the constructor
    for [source]: the one of the asset for a file source whose file is
    known to the board, the source's own for a URL source; none when the
    body leaves the source with [continue] before it constructs a
    player. *)
Definition source_url (files : list (string * string)) (source : AudioSource.t) : option string :=
  match AudioSource.type source, AudioPlayerWidget.truthy (AudioSource.fileId source),
        AudioPlayerWidget.truthy (AudioSource.url source) with
  | FileAsset, Some fileId, _ =>
      AudioPlayerWidget.truthy (snd <$> List.find (fun kv => String.eqb (fst kv) fileId) files)
  | Url, _, Some url => Some url
  | _, _, _ => None
  end.

(** The player that the loop body has pushed to [this.players] for
    [source] when it ends, if it pushed one: constructed from the URL and
    [source.volume ?? 1], given the identifier of the source and the
    callback that reports its end. *)
Definition built_player (files : list (string * string)) (source : AudioSource.t)
    : option AudioPlayer.t :=
  match source_url files source with
  | Some url =>
      match AudioPlayer.constructor url (default (Finite 1) (AudioSource.volume source)) with
      | Ret p =>
          Some (AudioPlayer.registerOnEndCallback (OnEndTrigger (AudioSource.id source))
                  (AudioPlayer.set_id (AudioSource.id source) p))
      | Throw _ => None
      end
  | None => None
  end.

Definition is_error (e : effect) : bool :=
  match e with AnalyticsError _ _ => true | _ => false end.

(** ** The pace of the attempts *)

(** What activation [k] of [AudioPlayer.play] has done so far fits where
    it stands: every timer it has set is one of 250 ms; it has made one
    attempt more than it has set timers while it awaits an attempt, and
    as many, at least one, while it awaits its timer; once resolved it
    has made at least one attempt and at most one more than it has set
    timers; its promise has not rejected; and an activation that does not
    exist yet has done nothing. *)
Definition paced (k : nat) (w : world) : Prop :=
  timeouts k w = backoffs k w
  /\ match phase_of w k with
     | None => attempts k w = 0 /\ timeouts k w = 0
     | Some AwaitPlay => attempts k w = timeouts k w + 1
     | Some AwaitTimer => attempts k w = timeouts k w /\ 1 <= timeouts k w
     | Some Resolved => timeouts k w <= attempts k w <= timeouts k w + 1 /\ 1 <= attempts k w
     | Some (Rejected _) => False
     end.

(** ** Schedules of the board *)

(** A source whose turn in the loop of [initialize] has no [await]: a URL
    source, or a file source without a [fileId]. *)
Definition synchronous (source : AudioSource.t) : bool :=
  match AudioSource.type source, AudioPlayerWidget.truthy (AudioSource.fileId source) with
  | FileAsset, Some _ => false
  | _, _ => true
  end.

(** The name the loop body computes for a source that has a player: its
    URL, or the name the board has for the node of its file, if any. *)
Definition source_name (names : string -> option string) (source : AudioSource.t) : string :=
  match AudioSource.type source with
  | Url => default "" (AudioSource.url source)
  | FileAsset =>
      default "unknown"
        (AudioPlayerWidget.truthy (names (default "" (AudioSource.fileId source))))
  end.

(** The lookups of activation [a] of [initialize] over the sources
    [srcs], each answered as soon as it is made, with nothing else in
    between: for each file source with a [fileId], the URL the board has
    for the file and, when a player could be constructed, the node of the
    file, whose name [names] gives. *)
Fixpoint lookups (a : nat) (files : list (string * string)) (names : string -> option string)
    (srcs : list AudioSource.t) : list event :=
  match srcs with
  | [] => []
  | source :: rest =>
      match AudioSource.type source, AudioPlayerWidget.truthy (AudioSource.fileId source) with
      | FileAsset, Some fileId =>
          FileUrlSettled a None ::
          match built_player files source with
          | Some _ => [FileNodeSettled a (Ret (names fileId))]
          | None => []
          end
      | _, _ => []
      end ++ lookups a files names rest
  end.

(** The local tables of [initialize] after its loop has run over [srcs]
    with these lookups, from the tables [ts] and [es]. *)
Definition pushed_triggers (files : list (string * string)) (names : string -> option string)
    (srcs : list AudioSource.t) (ts : list ActionTrigger.t) : list ActionTrigger.t :=
  foldl (fun ts source =>
           match built_player files source with
           | Some _ =>
               AudioPlayerWidget.push_triggers source
                 (AudioPlayerWidget.short_name (source_name names source)) ts
           | None => ts
           end) ts srcs.

Definition pushed_effects (files : list (string * string)) (names : string -> option string)
    (srcs : list AudioSource.t) (es : list ActionEffect.t) : list ActionEffect.t :=
  foldl (fun es source =>
           match built_player files source with
           | Some _ =>
               AudioPlayerWidget.push_effects source
                 (AudioPlayerWidget.short_name (source_name names source)) es
           | None => es
           end) es srcs.

(** The faults and the world when the events [es] follow a computation
    that has ended in [r]. *)
Definition then_run (r : outcome unit * world) (es : list event) : list Error * world :=
  let '(errs, w') := run es (snd r) in
  (match fst r with Throw e => e :: errs | Ret _ => errs end, w').

(** A source whose file has been picked. *)
Definition file_source (id fileId : string) : AudioSource.t :=
  AudioSource.mk FileAsset id (Some fileId) None None.

(** What a pending [audio.play()] is rejected with when [pause()] is
    called on the element before playback has begun. *)
Definition AbortError : Error :=
  mkError "AbortError" "The play() request was interrupted by a call to pause().".


(** ** The triggers the host knows *)

(** The identifiers of the triggers in [haptic.actionTriggers]. *)
Definition trigger_ids (w : world) : list string :=
  ActionTrigger.id <$> haptic_actionTriggers w.

(** What the callback slot of the player [p] behind [x] holds is not a
    closure of the widget, unless the widget manages the player and the
    closure is one it registers on that player: the report of the end of
    the source the player was built for, or the advancement handler that
    [playNext] puts on the player it starts. *)
Definition own_closure (w : world) (x : loc) (p : AudioPlayer.t) : Prop :=
  match AudioPlayer.onEndCallback p with
  | Some (OnEndTrigger source_id) => x ∈ players w /\ source_id = AudioPlayer.id p
  | Some (OnEndAdvance _ l) => x ∈ players w /\ l = x
  | _ => True
  end.

(** The host knows the triggers of the players the widget manages: the
    start and the end of each are in its table; the closures of the
    widget sit on managed players only; no activation of [initialize] is
    suspended; and the sources need no lookup. *)
Definition registered (w : world) : Prop :=
  (forall x p, store w !! x = Some p -> x ∈ players w ->
     ended_action (AudioPlayer.id p) ∈ trigger_ids w
     /\ started_action (AudioPlayer.id p) ∈ trigger_ids w)
  /\ (forall x p, store w !! x = Some p -> own_closure w x p)
  /\ Forall (fun i => match i with
                      | AwaitFileUrl _ _ _ _ | AwaitFileNode _ _ _ _ _ => False
                      | _ => True
                      end) (inits w)
  /\ exists srcs, sources w = Some srcs /\ Forall (fun s => synchronous s = true) srcs.

(** The notifications sent since there were [sent] of them are triggers
    the host knows. *)
Definition fires_within (sent : list string) (w : world) : Prop :=
  exists new, notifications w = sent ++ new /\ Forall (fun a => a ∈ trigger_ids w) new.

(** An event of the widget, the platform, the host or a caller of the
    players' public methods, as opposed to one that plants a closure of
    the widget from outside, or that configures a source whose file has
    to be looked up. *)
Definition own_event (e : event) : Prop :=
  match e with
  | CallRegisterOnEndCallback _ (OnEndTrigger _)
  | CallRegisterOnEndCallback _ (OnEndAdvance _ _) => False
  | SourcesChanged srcs => Forall (fun s => synchronous s = true) srcs
  | _ => True
  end.

(* ================================================================== *)
(** * Properties *)

(** ** Volume *)

Lemma Math_max_finite p q : Math_max (Finite p) (Finite q) = Finite (Qmax p q).
Proof. unfold Math_max, Qmax, GenericMinMax.gmax. by destruct (p ?= q)%Q. Qed.

Lemma Math_min_finite p q : Math_min (Finite p) (Finite q) = Finite (Qmin p q).
Proof. unfold Math_min, Qmin, GenericMinMax.gmin. by destruct (p ?= q)%Q. Qed.

Lemma clampVolume_finite v :
  AudioPlayer.clampVolume (Finite v) = Finite (Qmin 1 (Qmax 0 v)).
Proof. unfold AudioPlayer.clampVolume. by rewrite Math_max_finite, Math_min_finite. Qed.

Lemma clamp_in_range v : (0 <= Qmin 1 (Qmax 0 v) /\ Qmin 1 (Qmax 0 v) <= 1)%Q.
Proof.
  split.
  - apply Q.min_glb; [discriminate | apply Q.le_max_l].
  - apply Q.le_min_l.
Qed.

Lemma set_volume_clamped v a :
  HTMLAudioElement.set_volume (AudioPlayer.clampVolume (Finite v)) a =
  Ret (HTMLAudioElement.mk (HTMLAudioElement.src a) (Qmin 1 (Qmax 0 v))
         (HTMLAudioElement.loop a) (HTMLAudioElement.paused a)
         (HTMLAudioElement.currentTime a)).
Proof.
  rewrite clampVolume_finite. unfold HTMLAudioElement.set_volume.
  destruct (clamp_in_range v) as [H0 H1].
  apply Qle_bool_iff in H0, H1. by rewrite H0, H1.
Qed.

Lemma setVolume_finite v p :
  AudioPlayer.setVolume (Finite v) p =
  Ret (AudioPlayer.set_audio
         (HTMLAudioElement.mk (HTMLAudioElement.src (AudioPlayer.audio p)) (Qmin 1 (Qmax 0 v))
            (HTMLAudioElement.loop (AudioPlayer.audio p))
            (HTMLAudioElement.paused (AudioPlayer.audio p))
            (HTMLAudioElement.currentTime (AudioPlayer.audio p))) p).
Proof. unfold AudioPlayer.setVolume. by rewrite set_volume_clamped. Qed.

Lemma constructor_finite url v :
  AudioPlayer.constructor url (Finite v) =
  Ret (AudioPlayer.mk "" false (HTMLAudioElement.mk url (Qmin 1 (Qmax 0 v)) false true 0) None).
Proof. unfold AudioPlayer.constructor. by rewrite set_volume_clamped. Qed.

(** C9.  For every finite input [v], [setVolume(v)] raises no fault and
    stores [min(1, max(0, v))], changing nothing else of the player; the
    constructor applies the same clamp to its initial volume; the stored
    value lies in [0, 1]; and the inputs -0.5, 1.7 and 0.42 store 0, 1 and
    0.42. *)
Theorem setVolume_stores_clamped (v : Q) (p : AudioPlayer.t) (url : string) :
  AudioPlayer.setVolume (Finite v) p =
    Ret (AudioPlayer.set_audio
           (HTMLAudioElement.mk (HTMLAudioElement.src (AudioPlayer.audio p)) (Qmin 1 (Qmax 0 v))
              (HTMLAudioElement.loop (AudioPlayer.audio p))
              (HTMLAudioElement.paused (AudioPlayer.audio p))
              (HTMLAudioElement.currentTime (AudioPlayer.audio p))) p)
  /\ stored_volume (AudioPlayer.setVolume (Finite v) p) = Some (Qmin 1 (Qmax 0 v))
  /\ stored_volume (AudioPlayer.constructor url (Finite v)) = Some (Qmin 1 (Qmax 0 v))
  /\ (0 <= Qmin 1 (Qmax 0 v) <= 1)%Q
  /\ stored_volume (AudioPlayer.setVolume (Finite (-5 # 10)) p) = Some 0%Q
  /\ stored_volume (AudioPlayer.setVolume (Finite (17 # 10)) p) = Some 1%Q
  /\ stored_volume (AudioPlayer.setVolume (Finite (42 # 100)) p) = Some (42 # 100)%Q.
Proof.
  split_and!.
  - apply setVolume_finite.
  - by rewrite setVolume_finite.
  - by rewrite constructor_finite.
  - apply clamp_in_range.
  - apply clamp_in_range.
  - by rewrite setVolume_finite.
  - by rewrite setVolume_finite.
  - by rewrite setVolume_finite.
Qed.

(** ** How the primitives compute *)

Arguments deref : simpl never.
Arguments update : simpl never.

Lemma emit_eq e w : emit e w = (Ret tt, set_trace (trace w ++ [e]) w).
Proof. reflexivity. Qed.

Lemma deref_ok w l p : store w !! l = Some p -> deref l w = (Ret p, w).
Proof. intros H. unfold deref. by rewrite H. Qed.

Lemma update_ok w l p f :
  store w !! l = Some p ->
  update l f w = (Ret tt, set_store (<[l := f p]> (store w)) w).
Proof. intros H. unfold update, bind. by rewrite (deref_ok _ _ _ H). Qed.

Lemma lookup_snoc_length {A} (xs : list A) (x : A) : (xs ++ [x])%list !! length xs = Some x.
Proof. rewrite lookup_app_r by lia. by replace (length xs - length xs) with 0 by lia. Qed.

Lemma insert_snoc_length {A} (xs : list A) (x y : A) :
  <[length xs := y]> (xs ++ [x])%list = (xs ++ [y])%list.
Proof. rewrite insert_app_r_alt by lia. by replace (length xs - length xs) with 0 by lia. Qed.

Lemma play_ok w l p loop :
  store w !! l = Some p ->
  play l loop w =
    (Ret (length (plays w)),
     {| store := <[l := AudioPlayer.play_head loop p]> (store w);
        players := players w; sources := sources w; autoStart := autoStart w;
        inits := inits w; haptic_actionTriggers := haptic_actionTriggers w;
        haptic_actionEffects := haptic_actionEffects w;
        assets := assets w; cells := cells w;
        plays := plays w ++ [mkActivation l AwaitPlay];
        trace := trace w ++ [PlayCalled l loop; AudioPlay (length (plays w)) l] |}).
Proof.
  intros H. unfold play, bind, emit, modify, attemptPlay, set_phase, spawn, get, ret, bind. cbn.
  rewrite (update_ok _ _ p) by done. cbn.
  rewrite lookup_snoc_length, insert_snoc_length. cbn.
  by rewrite <- app_assoc.
Qed.

Lemma find_none_all {A} (f : A -> bool) (xs : list A) :
  (forall x, x ∈ xs -> f x = false) -> List.find f xs = None.
Proof.
  induction xs as [|x xs IH]; intros H; [done|]. cbn.
  rewrite (H x) by apply list_elem_of_here.
  apply IH. intros y Hy. apply H. by apply list_elem_of_further.
Qed.

Lemma find_player_unmanaged id w : unmanaged id w -> find_player id w = (Ret None, w).
Proof.
  intros H. unfold find_player, bind, get, ret.
  rewrite find_none_all; [done|].
  intros l Hl. destruct (store w !! l) as [p|] eqn:E; [|done].
  apply String.eqb_neq. by apply (H l p).
Qed.

(** ** Unknown identifiers at the widget's entry points *)

(** C10.  When no managed player carries the identifier, [play(id, loop)]
    and [stop(id)] of the widget raise no fault and do nothing but log: the
    debug line and the diagnostic error are the only effects, no player
    method is entered, and the store of players, the activations of
    [AudioPlayer.play] and the playlist cursors are unchanged. *)
Theorem unknown_id_is_ignored (w : world) (id : string) (loop : bool) :
  unmanaged id w ->
  step (WidgetPlay id loop) w =
    (Ret tt, set_trace (trace w ++ [AnalyticsDebug "play";
                                    AnalyticsError "No audio player found with ID" id]) w)
  /\ step (WidgetStop id) w =
    (Ret tt, set_trace (trace w ++ [AnalyticsDebug "stop";
                                    AnalyticsError "No audio player found with ID" id]) w)
  /\ store (snd (step (WidgetPlay id loop) w)) = store w
  /\ plays (snd (step (WidgetPlay id loop) w)) = plays w
  /\ cells (snd (step (WidgetPlay id loop) w)) = cells w
  /\ store (snd (step (WidgetStop id) w)) = store w
  /\ plays (snd (step (WidgetStop id) w)) = plays w
  /\ cells (snd (step (WidgetStop id) w)) = cells w.
Proof.
  intros H.
  assert (Hp : step (WidgetPlay id loop) w =
    (Ret tt, set_trace (trace w ++ [AnalyticsDebug "play";
                                    AnalyticsError "No audio player found with ID" id]) w)).
  { unfold step, AudioPlayerWidget.play, bind. rewrite emit_eq.
    rewrite find_player_unmanaged by done. rewrite emit_eq. cbn.
    by rewrite <- app_assoc. }
  assert (Hs : step (WidgetStop id) w =
    (Ret tt, set_trace (trace w ++ [AnalyticsDebug "stop";
                                    AnalyticsError "No audio player found with ID" id]) w)).
  { unfold step, AudioPlayerWidget.stop, bind. rewrite emit_eq.
    rewrite find_player_unmanaged by done. rewrite emit_eq. cbn.
    by rewrite <- app_assoc. }
  rewrite Hp, Hs. by split_and!.
Qed.

Lemma unknown_id_is_ignored_witness :
  unmanaged "Z" three_units
  /\ step (WidgetPlay "Z" true) three_units =
       (Ret tt, set_trace (trace three_units ++
                             [AnalyticsDebug "play";
                              AnalyticsError "No audio player found with ID" "Z"]) three_units)
  /\ step (WidgetStop "Z") three_units =
       (Ret tt, set_trace (trace three_units ++
                             [AnalyticsDebug "stop";
                              AnalyticsError "No audio player found with ID" "Z"]) three_units).
Proof.
  assert (H : unmanaged "Z" three_units).
  { intros l p Hl Hp. vm_compute in Hl.
    repeat (apply elem_of_cons in Hl as [-> | Hl]);
      [vm_compute in Hp; injection Hp as <-; discriminate .. | by apply elem_of_nil in Hl]. }
  destruct (unknown_id_is_ignored three_units "Z" true H) as (C1 & C2 & _).
  split_and!; [exact H | exact C1 | exact C2].
Defined.

(** ** The settling of [audio.play()] and the timer *)

Lemma play_settled_fulfilled w k l p :
  plays w !! k = Some (mkActivation l AwaitPlay) ->
  store w !! l = Some p ->
  play_settled k None w =
    (Ret tt,
     set_plays (<[k := mkActivation l Resolved]> (plays w))
       (set_store (<[l := AudioPlayer.set_audio
                            (HTMLAudioElement.started (AudioPlayer.audio p)) p]> (store w)) w)).
Proof.
  intros Hk Hl. unfold play_settled, activation_of, bind, get, ret. rewrite Hk.
  rewrite (update_ok _ _ p) by done. unfold set_phase, modify. cbn. by rewrite Hk.
Qed.

Lemma play_settled_blocked w k l err :
  plays w !! k = Some (mkActivation l AwaitPlay) ->
  name err = "NotAllowedError" ->
  play_settled k (Some err) w =
    (Ret tt,
     set_plays (<[k := mkActivation l AwaitTimer]> (plays w))
       (set_trace (trace w ++ [ConsoleWarn "Playback blocked, retrying..."; SetTimeout k 250]) w)).
Proof.
  intros Hk He. unfold play_settled, activation_of, bind, get, ret. rewrite Hk, He.
  cbn. unfold set_phase, modify. cbn. rewrite Hk. cbn. by rewrite <- app_assoc.
Qed.

Lemma play_settled_failed w k l p err :
  plays w !! k = Some (mkActivation l AwaitPlay) ->
  store w !! l = Some p ->
  name err <> "NotAllowedError" ->
  play_settled k (Some err) w =
    (Ret tt,
     set_plays (<[k := mkActivation l Resolved]> (plays w))
       (set_store (<[l := AudioPlayer.set_playing false p]> (store w))
          (set_trace (trace w ++ [ConsoleError "Audio playback failed:" err]) w))).
Proof.
  intros Hk Hl He. unfold play_settled, activation_of, bind, get, ret. rewrite Hk.
  apply String.eqb_neq in He. rewrite He. cbn.
  rewrite (update_ok _ _ p) by done. unfold set_phase, modify. cbn. by rewrite Hk.
Qed.

Lemma play_settled_idle w k r :
  (forall l, plays w !! k <> Some (mkActivation l AwaitPlay)) ->
  play_settled k r w = (Ret tt, w).
Proof.
  intros Hk. unfold play_settled, activation_of, bind, get, ret.
  destruct (plays w !! k) as [[l ph]|] eqn:E; [|done].
  destruct ph; try done. by destruct (Hk l).
Qed.

Lemma timer_fired_stopped w k l p :
  plays w !! k = Some (mkActivation l AwaitTimer) ->
  store w !! l = Some p ->
  AudioPlayer.playing p = false ->
  timer_fired k w = (Ret tt, set_plays (<[k := mkActivation l Resolved]> (plays w)) w).
Proof.
  intros Hk Hl Hp. unfold timer_fired, activation_of, bind, get, ret. rewrite Hk.
  rewrite (deref_ok _ _ p) by done. rewrite Hp. cbn. unfold set_phase, modify. by rewrite Hk.
Qed.

Lemma timer_fired_live w k l p :
  plays w !! k = Some (mkActivation l AwaitTimer) ->
  store w !! l = Some p ->
  AudioPlayer.playing p = true ->
  timer_fired k w =
    (Ret tt,
     set_plays (<[k := mkActivation l AwaitPlay]> (plays w))
       (set_trace (trace w ++ [AudioPlay k l]) w)).
Proof.
  intros Hk Hl Hp. unfold timer_fired, activation_of, bind, get, ret. rewrite Hk.
  rewrite (deref_ok _ _ p) by done. rewrite Hp. cbn.
  unfold set_phase, modify. cbn. by rewrite Hk.
Qed.

Lemma timer_fired_idle w k :
  (forall l, plays w !! k <> Some (mkActivation l AwaitTimer)) ->
  timer_fired k w = (Ret tt, w).
Proof.
  intros Hk. unfold timer_fired, activation_of, bind, get, ret.
  destruct (plays w !! k) as [[l ph]|] eqn:E; [|done].
  destruct ph; try done. by destruct (Hk l).
Qed.

(** ** Counting effects *)

Lemma count_app f t1 t2 : count f (t1 ++ t2) = count f t1 + count f t2.
Proof. unfold count. by rewrite List.filter_app, length_app. Qed.

Lemma count_snoc f t e : count f (t ++ [e]) = count f t + (if f e then 1 else 0).
Proof. rewrite count_app. unfold count. cbn. by destruct (f e). Qed.

(** ** Invariants kept by every computation of the embedding *)

Section Stable.
Context (Inv : world -> Prop).

Lemma stable_ret {A} (a : A) : stable Inv (ret a).
Proof. by intros w H. Qed.

Lemma stable_throw {A} (e : Error) : stable Inv (@throw A e).
Proof. by intros w H. Qed.

Lemma stable_get : stable Inv get.
Proof. by intros w H. Qed.

Lemma stable_deref l : stable Inv (deref l).
Proof. intros w H. unfold deref. by destruct (store w !! l). Qed.

Lemma stable_read_cell c : stable Inv (read_cell c).
Proof. by intros w H. Qed.

Lemma stable_bind {A B} (m : M A) (f : A -> M B) :
  stable Inv m -> (forall a, stable Inv (f a)) -> stable Inv (bind m f).
Proof.
  intros Hm Hf w H. unfold bind. specialize (Hm w H).
  destruct (m w) as [[a|e] w']; cbn in *; [by apply Hf | done].
Qed.

Lemma stable_try_catch {A} (m : M A) (h : Error -> M A) :
  stable Inv m -> (forall e, stable Inv (h e)) -> stable Inv (try_catch m h).
Proof.
  intros Hm Hh w H. unfold try_catch. specialize (Hm w H).
  destruct (m w) as [[a|e] w']; cbn in *; [done | by apply Hh].
Qed.

Lemma stable_for_each {A} (xs : list A) (body : A -> M unit) :
  (forall x, stable Inv (body x)) -> stable Inv (for_each xs body).
Proof.
  intros Hb. induction xs as [|x xs IH]; cbn.
  - apply stable_ret.
  - apply stable_bind; [apply Hb | intros _; apply IH].
Qed.

Lemma stable_modify (f : world -> world) :
  (forall w, Inv w -> Inv (f w)) -> stable Inv (modify f).
Proof. intros Hf w H. by apply Hf. Qed.

End Stable.

Ltac stable_leaf :=
  match goal with
  | H : forall l f, stable _ (update l f) |- stable _ (update _ _) => apply H
  | H : forall l loop, stable _ (play l loop) |- stable _ (play _ _) => apply H
  | H : forall e, quiet e -> stable _ (emit e) |- stable _ (emit _) => apply H; exact Logic.I
  | H : forall e, quiet e -> stable _ (emit e) |- stable _ (triggerAction _) => apply H; exact Logic.I
  | H : forall c v, _ -> stable _ (write_cell c v) |- stable _ (write_cell _ _) => apply H
  end.

Ltac stable_go :=
  repeat match goal with
    | |- stable _ (ret _) => apply stable_ret
    | |- stable _ (throw _) => apply stable_throw
    | |- stable _ get => apply stable_get
    | |- stable _ (deref _) => apply stable_deref
    | |- stable _ (read_cell _) => apply stable_read_cell
    | |- stable _ (bind _ _) => apply stable_bind; [|intros ?]
    | |- stable _ (try_catch _ _) => apply stable_try_catch; [|intros ?]
    | |- stable _ (for_each _ _) => apply stable_for_each; intros ?
    | |- stable _ (match ?x with _ => _ end) => destruct x
    | |- _ => stable_leaf
    end.

(** An invariant kept by the primitives is kept by the code built from
    them.  [writable c] tells which [currentIndex] cells the invariant
    allows to be assigned. *)
Section StableCode.
Context (Inv : world -> Prop) (writable : nat -> Prop).
Hypothesis Inv_update : forall l f, stable Inv (update l f).
Hypothesis Inv_emit : forall e, quiet e -> stable Inv (emit e).
Hypothesis Inv_play : forall l loop, stable Inv (play l loop).
Hypothesis Inv_write : forall c v, writable c -> stable Inv (write_cell c v).

Lemma stable_do_call c : stable Inv (do_call c).
Proof. destruct c; cbn [do_call]; stable_go. Qed.

Lemma stable_playNext c : writable c -> stable Inv (playNext c).
Proof. intros Hc. unfold playNext. stable_go; done. Qed.

Lemma stable_invoke cb :
  (forall c l, cb = OnEndAdvance c l -> writable c) -> stable Inv (invoke cb).
Proof.
  intros Hcb. destruct cb as [sid | c l | calls raises]; cbn [invoke].
  - stable_go.
  - stable_go; [eauto | apply stable_playNext; eauto].
  - stable_go; apply stable_do_call.
Qed.

Lemma stable_ended_listener l :
  (forall c, writable c) ->
  (forall l', stable Inv (emit (CallbackInvoked l'))) ->
  stable Inv (ended_listener l).
Proof.
  intros Hw Hcb. unfold ended_listener. stable_go; [apply Hcb | by apply stable_invoke].
Qed.

End StableCode.

(** An invariant that looks only at the players, the activations of
    [play] and the trace, and that is kept by the primitives on these, is
    kept by every macrotask. *)
Section StableWidget.
Context (Inv : world -> Prop).
Hypothesis Inv_frame : forall w w',
  store w' = store w -> players w' = players w -> plays w' = plays w ->
  trace w' = trace w -> Inv w -> Inv w'.
Hypothesis Inv_update : forall l f, stable Inv (update l f).
Hypothesis Inv_emit : forall e, quiet e -> stable Inv (emit e).
Hypothesis Inv_callback : forall l, stable Inv (emit (CallbackInvoked l)).
Hypothesis Inv_play : forall l loop, stable Inv (play l loop).
Hypothesis Inv_new_player : forall s url, stable Inv (AudioPlayerWidget.new_player s url).
Hypothesis Inv_no_players : stable Inv (modify (set_players [])).
Hypothesis Inv_play_settled : forall k r, stable Inv (play_settled k r).
Hypothesis Inv_timer_fired : forall k, stable Inv (timer_fired k).

Lemma stable_framed {A} (m : M A) :
  (forall w, store (snd (m w)) = store w /\ players (snd (m w)) = players w
             /\ plays (snd (m w)) = plays w /\ trace (snd (m w)) = trace w) ->
  stable Inv m.
Proof. intros Hm w H. destruct (Hm w) as (? & ? & ? & ?). by apply (Inv_frame w). Qed.

Lemma stable_write c v : stable Inv (write_cell c v).
Proof. by apply stable_framed. Qed.

Lemma stable_set_init a st : stable Inv (set_init a st).
Proof. by apply stable_framed. Qed.

Ltac widget_leaf :=
  match goal with
  | |- stable _ (update _ _) => apply Inv_update
  | |- stable _ (play _ _) => apply Inv_play
  | |- stable _ (AudioPlayerWidget.new_player _ _) => apply Inv_new_player
  | |- stable _ (modify (set_players [])) => apply Inv_no_players
  | |- stable _ (emit (CallbackInvoked _)) => apply Inv_callback
  | |- stable _ (emit _) => apply Inv_emit; exact Logic.I
  | |- stable _ (playNext _) =>
      apply (stable_playNext Inv (fun _ => True));
      [apply Inv_update | apply Inv_emit | apply Inv_play
      | intros ? ? _; apply stable_write | exact Logic.I]
  | |- stable _ _ => by apply stable_framed
  end.

Lemma stable_playAsPlaylist : stable Inv AudioPlayerWidget.playAsPlaylist.
Proof. unfold AudioPlayerWidget.playAsPlaylist. stable_go; widget_leaf. Qed.

Lemma stable_destroyPlayers : stable Inv AudioPlayerWidget.destroyPlayers.
Proof. unfold AudioPlayerWidget.destroyPlayers. stable_go; widget_leaf. Qed.

Lemma stable_widget_play id loop : stable Inv (AudioPlayerWidget.play id loop).
Proof. unfold AudioPlayerWidget.play. stable_go; widget_leaf. Qed.

Lemma stable_widget_stop id : stable Inv (AudioPlayerWidget.stop id).
Proof. unfold AudioPlayerWidget.stop. stable_go; widget_leaf. Qed.

Lemma stable_stopAll : stable Inv AudioPlayerWidget.stopAll.
Proof. unfold AudioPlayerWidget.stopAll. stable_go; widget_leaf. Qed.

Lemma stable_run_effect cb : stable Inv (AudioPlayerWidget.run_effect cb).
Proof.
  destruct cb; cbn [AudioPlayerWidget.run_effect];
    auto using stable_stopAll, stable_playAsPlaylist, stable_widget_play, stable_widget_stop.
Qed.

Lemma stable_init_finish a ts es : stable Inv (AudioPlayerWidget.init_finish a ts es).
Proof.
  unfold AudioPlayerWidget.init_finish.
  stable_go; first [apply stable_playAsPlaylist | widget_leaf].
Qed.

Lemma stable_add_actions s l name next ts es :
  (forall ts' es', stable Inv (next ts' es')) ->
  stable Inv (AudioPlayerWidget.add_actions s l name next ts es).
Proof.
  intros Hn. unfold AudioPlayerWidget.add_actions. stable_go; first [apply Hn | widget_leaf].
Qed.

Lemma stable_init_loop a srcs : forall ts es,
  stable Inv (AudioPlayerWidget.init_loop a srcs ts es).
Proof.
  induction srcs as [|s rest IH]; intros ts es; cbn [AudioPlayerWidget.init_loop].
  - apply stable_init_finish.
  - stable_go;
      first [apply IH | by apply stable_add_actions | apply stable_set_init | widget_leaf].
Qed.

Lemma stable_running a body : stable Inv body -> stable Inv (running a body).
Proof.
  intros Hb. unfold running. apply stable_try_catch; [done|]. intros e.
  stable_go; first [apply stable_set_init | widget_leaf].
Qed.

Lemma stable_initialize : stable Inv AudioPlayerWidget.initialize.
Proof.
  unfold AudioPlayerWidget.initialize. apply stable_bind; [by apply stable_framed|].
  intros a. apply stable_running.
  stable_go; first [apply stable_destroyPlayers | apply stable_init_loop | widget_leaf].
Qed.

Lemma stable_file_url_settled a r : stable Inv (AudioPlayerWidget.file_url_settled a r).
Proof.
  unfold AudioPlayerWidget.file_url_settled.
  apply stable_bind; [apply stable_get | intros w0].
  destruct (inits w0 !! a) as [[]|]; try apply stable_ret.
  apply stable_bind; [apply stable_set_init | intros _]. apply stable_running.
  stable_go; first [apply stable_init_loop | apply stable_set_init | widget_leaf].
Qed.

Lemma stable_file_node_settled a r : stable Inv (AudioPlayerWidget.file_node_settled a r).
Proof.
  unfold AudioPlayerWidget.file_node_settled.
  apply stable_bind; [apply stable_get | intros w0].
  destruct (inits w0 !! a) as [[]|]; try apply stable_ret.
  apply stable_bind; [apply stable_set_init | intros _]. apply stable_running.
  destruct r as [name|e]; [|apply stable_throw].
  apply stable_add_actions. intros ts es. apply stable_init_loop.
Qed.

Lemma stable_step e : stable Inv (step e).
Proof.
  destruct e; cbn [step].
  - apply (stable_do_call Inv); auto.
  - apply Inv_update.
  - apply stable_widget_play.
  - apply stable_widget_stop.
  - apply stable_stopAll.
  - apply stable_playAsPlaylist.
  - apply stable_initialize.
  - apply stable_destroyPlayers.
  - apply stable_bind; [by apply stable_framed | intros _; apply stable_initialize].
  - by apply stable_framed.
  - apply stable_bind; [apply stable_get | intros w0].
    destruct (List.find _ _); [apply stable_run_effect | apply stable_ret].
  - apply Inv_play_settled.
  - apply Inv_timer_fired.
  - apply (stable_ended_listener Inv (fun _ => True)); auto.
    intros ? ? _. apply stable_write.
  - apply stable_file_url_settled.
  - apply stable_file_node_settled.
Qed.

Lemma stable_run es w : Inv w -> Inv (snd (run es w)).
Proof.
  revert w. induction es as [|e es IH]; intros w H; [done|]. cbn [run].
  assert (H1 := stable_step e w H).
  destruct (step e w) as [[[]|err] w1]; cbn [snd] in H1.
  - by apply IH.
  - specialize (IH w1 H1). by destruct (run es w1).
Qed.

End StableWidget.

Ltac as_stable :=
  match goal with
  | H : ?Inv ?w |- ?Inv (snd (?m ?w)) => revert w H; change (stable Inv m)
  end.

Lemma bind_activation_of {B} k (f : option activation -> M B) w :
  bind (activation_of k) f w = f (plays w !! k) w.
Proof. reflexivity. Qed.

(** ** A resolved activation stays resolved and makes no attempt *)

Section Settled.
Context (k : nat) (l : loc) (n m : nat).
Abbreviation Inv := (settled k l n m).

Lemma settled_effect e :
  is_attempt k e = false -> is_timeout k e = false -> stable Inv (emit e).
Proof.
  intros Ha Ht w (Hk & Hn & Hm). unfold settled, attempts, timeouts in *. cbn -[count].
  rewrite !count_snoc, Ha, Ht. split_and!; [done | lia | lia].
Qed.

Lemma settled_quiet e : quiet e -> stable Inv (emit e).
Proof. intros Hq. apply settled_effect; by destruct e. Qed.

Lemma settled_callback l' : stable Inv (emit (CallbackInvoked l')).
Proof. by apply settled_effect. Qed.

Lemma settled_update l' f : stable Inv (update l' f).
Proof. unfold update. stable_go. by apply stable_modify. Qed.

Lemma settled_write c v : stable Inv (write_cell c v).
Proof. by apply stable_modify. Qed.

Lemma settled_set_phase k' ph : k' <> k -> stable Inv (set_phase k' ph).
Proof.
  intros Hne w (Hk & Hn & Hm). unfold set_phase, modify. cbn.
  destruct (plays w !! k') as [a|]; [|done].
  split_and!; [|done|done]. cbn. by rewrite list_lookup_insert_ne.
Qed.

Lemma settled_attempt k' l' : k' <> k -> stable Inv (attemptPlay k' l').
Proof.
  intros Hne. unfold attemptPlay. stable_go.
  - apply settled_effect; [|done]. cbn. by apply Nat.eqb_neq.
  - by apply settled_set_phase.
Qed.

Ltac settled_leaf :=
  match goal with
  | |- stable _ (update _ _) => apply settled_update
  | |- stable _ (write_cell _ _) => apply settled_write
  | |- stable _ (set_phase _ _) => by apply settled_set_phase
  | |- stable _ (attemptPlay _ _) => by apply settled_attempt
  | |- stable _ (emit (SetTimeout _ _)) =>
      apply settled_effect; [done | cbn; by apply Nat.eqb_neq]
  | |- stable _ (emit (CallbackInvoked _)) => apply settled_callback
  | |- stable _ (emit _) => by apply settled_quiet
  end.

Lemma settled_play l' loop : stable Inv (play l' loop).
Proof.
  intros w H. unfold play, bind.
  assert (H1 := settled_quiet (PlayCalled l' loop) Logic.I w H).
  destruct (emit (PlayCalled l' loop) w) as [[[]|e] w1]; cbn in H1; [|done].
  assert (H2 := settled_update l' (AudioPlayer.play_head loop) w1 H1).
  destruct (update l' (AudioPlayer.play_head loop) w1) as [[[]|e] w2]; cbn in H2; [|done].
  unfold spawn.
  assert (Hlt : k < length (plays w2)).
  { destruct H2 as (Hk & _). by apply lookup_lt_Some in Hk. }
  assert (H3 : Inv (set_plays (plays w2 ++ [mkActivation l' AwaitPlay]) w2)).
  { destruct H2 as (Hk & Hn & Hm). split_and!; [|done|done]. cbn.
    by rewrite lookup_app_l. }
  assert (H4 := settled_attempt (length (plays w2)) l' ltac:(lia) _ H3).
  destruct (attemptPlay _ _ _) as [[[]|e] w3]; cbn in H4; done.
Qed.

Lemma settled_play_settled k' r : stable Inv (play_settled k' r).
Proof.
  intros w H. unfold play_settled. rewrite bind_activation_of.
  destruct (plays w !! k') as [[l' ph]|] eqn:E; [|done].
  destruct ph; try done.
  assert (Hne : k' <> k).
  { intros ->. destruct H as (Hk & _). congruence. }
  clear E. as_stable. stable_go; settled_leaf.
Qed.

Lemma settled_timer_fired k' : stable Inv (timer_fired k').
Proof.
  intros w H. unfold timer_fired. rewrite bind_activation_of.
  destruct (plays w !! k') as [[l' ph]|] eqn:E; [|done].
  destruct ph; try done.
  assert (Hne : k' <> k).
  { intros ->. destruct H as (Hk & _). congruence. }
  clear E. as_stable. stable_go; settled_leaf.
Qed.

Lemma settled_do_call c : stable Inv (do_call c).
Proof.
  apply (stable_do_call Inv); auto using settled_update, settled_quiet, settled_play.
Qed.

Lemma settled_ended_listener l' : stable Inv (ended_listener l').
Proof.
  apply (stable_ended_listener Inv (fun _ => True));
    auto using settled_update, settled_quiet, settled_play, settled_write, settled_callback.
Qed.

Lemma settled_playNext c : stable Inv (playNext c).
Proof.
  apply (stable_playNext Inv (fun _ => True));
    auto using settled_update, settled_quiet, settled_play, settled_write.
Qed.

Lemma settled_frame w w' :
  store w' = store w -> players w' = players w -> plays w' = plays w ->
  trace w' = trace w -> Inv w -> Inv w'.
Proof.
  intros _ _ Hp Ht. unfold settled, attempts, timeouts. by rewrite Hp, Ht.
Qed.

Lemma settled_new_player s url : stable Inv (AudioPlayerWidget.new_player s url).
Proof.
  unfold AudioPlayerWidget.new_player. stable_go; try settled_leaf.
  - by intros w H.
  - by apply stable_modify.
Qed.

Lemma settled_step e : stable Inv (step e).
Proof.
  apply stable_step;
    [apply settled_frame | apply settled_update | apply settled_quiet | apply settled_callback
    | apply settled_play | apply settled_new_player | by apply stable_modify
    | apply settled_play_settled | apply settled_timer_fired].
Qed.

Lemma settled_run es w : Inv w -> Inv (snd (run es w)).
Proof.
  apply stable_run;
    [apply settled_frame | apply settled_update | apply settled_quiet | apply settled_callback
    | apply settled_play | apply settled_new_player | by apply stable_modify
    | apply settled_play_settled | apply settled_timer_fired].
Qed.

End Settled.

(** ** A failure other than the permission block *)

Lemma lookup_insert_same {A} (xs : list A) i x y :
  xs !! i = Some y -> <[i := x]> xs !! i = Some x.
Proof. intros H. apply list_lookup_insert_eq. by apply lookup_lt_Some in H. Qed.

(** C6.  When the attempt of an activation is rejected with an error whose
    name is not NotAllowedError, the macrotask returns without a fault, the
    playing flag of the player is false, the failure is logged and is the
    only effect, the promise of [play()] is resolved (not rejected), and
    whatever happens afterwards the activation stays resolved and makes no
    further attempt and sets no timer. *)
Theorem other_failure_abandons
    (w : world) (k : nat) (l : loc) (p : AudioPlayer.t) (err : Error) :
  plays w !! k = Some (mkActivation l AwaitPlay) ->
  store w !! l = Some p ->
  name err <> "NotAllowedError" ->
  let w' := snd (step (PlaySettled k (Some err)) w) in
  fst (step (PlaySettled k (Some err)) w) = Ret tt
  /\ player_at w' l = Some (AudioPlayer.set_playing false p)
  /\ playing_at w' l = Some false
  /\ trace w' = trace w ++ [ConsoleError "Audio playback failed:" err]
  /\ phase_of w' k = Some Resolved
  /\ forall es,
       phase_of (snd (run es w')) k = Some Resolved
       /\ attempts k (snd (run es w')) = attempts k w
       /\ timeouts k (snd (run es w')) = timeouts k w.
Proof.
  intros Hk Hl He. cbn zeta. cbn [step].
  rewrite (play_settled_failed w k l p err Hk Hl He). cbn [fst snd].
  assert (Hs : settled k l (attempts k w) (timeouts k w)
                 (set_plays (<[k:=mkActivation l Resolved]> (plays w))
                    (set_store (<[l:=AudioPlayer.set_playing false p]> (store w))
                       (set_trace (trace w ++ [ConsoleError "Audio playback failed:" err]) w)))).
  { unfold settled, attempts, timeouts. cbn -[count].
    rewrite !count_snoc. cbn. split_and!; [|lia|lia].
    by apply (lookup_insert_same _ _ _ _ Hk). }
  split_and!.
  - done.
  - unfold player_at. cbn. by apply (lookup_insert_same _ _ _ _ Hl).
  - unfold playing_at. cbn. by rewrite (lookup_insert_same _ _ _ _ Hl).
  - done.
  - unfold phase_of. cbn. by rewrite (lookup_insert_same _ _ _ _ Hk).
  - intros es. destruct (settled_run k l _ _ es _ Hs) as (H1 & H2 & H3).
    unfold phase_of. by rewrite H1.
Qed.

Lemma other_failure_abandons_witness :
  plays playing_first !! 0 = Some (mkActivation 0 AwaitPlay)
  /\ store playing_first !! 0 =
       Some (AudioPlayer.play_head false
               (AudioPlayer.mk "A" false (HTMLAudioElement.Audio "a.mp3")
                  (Some (OnEndTrigger "A"))))
  /\ name NotSupportedError <> "NotAllowedError"
  /\ fst (step (PlaySettled 0 (Some NotSupportedError)) playing_first) = Ret tt
  /\ playing_at (snd (step (PlaySettled 0 (Some NotSupportedError)) playing_first)) 0
     = Some false
  /\ trace (snd (step (PlaySettled 0 (Some NotSupportedError)) playing_first))
     = trace playing_first ++ [ConsoleError "Audio playback failed:" NotSupportedError]
  /\ phase_of (snd (step (PlaySettled 0 (Some NotSupportedError)) playing_first)) 0
     = Some Resolved.
Proof.
  assert (H1 : plays playing_first !! 0 = Some (mkActivation 0 AwaitPlay)) by reflexivity.
  assert (H2 : store playing_first !! 0 =
       Some (AudioPlayer.play_head false
               (AudioPlayer.mk "A" false (HTMLAudioElement.Audio "a.mp3")
                  (Some (OnEndTrigger "A"))))) by reflexivity.
  assert (H3 : name NotSupportedError <> "NotAllowedError") by discriminate.
  destruct (other_failure_abandons playing_first 0 0 _ NotSupportedError H1 H2 H3)
    as (C1 & _ & C3 & C4 & C5 & _).
  split_and!; [exact H1 | exact H2 | exact H3 | exact C1 | exact C3 | exact C4 | exact C5].
Defined.

(** ** Stopping a retry chain *)

Lemma stop_ok w l p :
  store w !! l = Some p ->
  step (Call (DoStop l)) w = (Ret tt, set_store (<[l := AudioPlayer.stop p]> (store w)) w).
Proof. intros H. cbn [step do_call]. by apply update_ok. Qed.

Lemma run_cons_ok e es w w' :
  step e w = (Ret tt, w') -> run (e :: es) w = run es w'.
Proof. intros H. cbn [run]. by rewrite H. Qed.

(** C2.  Activation [k] of [play()] on player [l] is in flight, suspended
    on an attempt or on the 250 ms timer, and the platform refuses its
    attempts with NotAllowedError.  [stop()] is called.  Then what the
    platform still delivers to the activation runs without a fault; the
    activation resolves; it makes no further play attempt; it sets at most
    one more timer (one, of 250 ms, when an attempt was pending at the time
    of the stop, none when the timer was already running); playback has not
    started: the player is exactly as [stop()] left it, paused at position
    0 with the playing flag false; and whatever happens afterwards the
    activation stays resolved, attempts nothing and sets no timer. *)
Theorem stop_ends_retry_chain
    (w : world) (k : nat) (l : loc) (p : AudioPlayer.t) (ph : phase) (err : Error) :
  plays w !! k = Some (mkActivation l ph) ->
  ph = AwaitPlay \/ ph = AwaitTimer ->
  store w !! l = Some p ->
  name err = "NotAllowedError" ->
  let w' := snd (run (Call (DoStop l) :: remaining k ph err) w) in
  fst (run (Call (DoStop l) :: remaining k ph err) w) = []
  /\ phase_of w' k = Some Resolved
  /\ attempts k w' = attempts k w
  /\ timeouts k w' = timeouts k w + remaining_backoffs ph
  /\ backoffs k w' = backoffs k w + remaining_backoffs ph
  /\ player_at w' l = Some (AudioPlayer.stop p)
  /\ playing_at w' l = Some false
  /\ HTMLAudioElement.paused (AudioPlayer.audio (AudioPlayer.stop p)) = true
  /\ forall es,
       phase_of (snd (run es w')) k = Some Resolved
       /\ attempts k (snd (run es w')) = attempts k w
       /\ timeouts k (snd (run es w')) = timeouts k w + remaining_backoffs ph.
Proof.
  intros Hk Hph Hl He. cbn zeta.
  rewrite (run_cons_ok (Call (DoStop l)) _ _ _ (stop_ok w l p Hl)).
  set (w1 := set_store (<[l:=AudioPlayer.stop p]> (store w)) w).
  assert (Hl1 : store w1 !! l = Some (AudioPlayer.stop p)).
  { subst w1. cbn. by apply (lookup_insert_same _ _ _ _ Hl). }
  assert (Hfin : exists w2,
    run (remaining k ph err) w1 = ([], w2)
    /\ settled k l (attempts k w) (timeouts k w + remaining_backoffs ph) w2
    /\ backoffs k w2 = backoffs k w + remaining_backoffs ph
    /\ store w2 = store w1).
  { destruct Hph as [-> | ->]; cbn [remaining remaining_backoffs].
    - (* an attempt was pending: it is refused, the timer is set and fires *)
      assert (Hk1 : plays w1 !! k = Some (mkActivation l AwaitPlay)) by done.
      rewrite (run_cons_ok (PlaySettled k (Some err)) _ _ _
                 (play_settled_blocked w1 k l err Hk1 He)).
      erewrite (run_cons_ok (TimerFired k));
        [|eapply (timer_fired_stopped _ k l (AudioPlayer.stop p))].
      + eexists. split; [reflexivity|]. unfold settled, attempts, timeouts, backoffs.
        cbn -[count]. rewrite !count_app. cbn. rewrite Nat.eqb_refl. cbn.
        split_and!; try done.
        rewrite list_insert_insert_eq. by apply (lookup_insert_same _ _ _ _ Hk).
      + cbn. by apply (lookup_insert_same _ _ _ _ Hk).
      + done.
      + done.
    - (* the timer was running: it fires *)
      assert (Hk1 : plays w1 !! k = Some (mkActivation l AwaitTimer)) by done.
      rewrite (run_cons_ok (TimerFired k) _ _ _
                 (timer_fired_stopped w1 k l (AudioPlayer.stop p) Hk1 Hl1 eq_refl)).
      eexists. split; [reflexivity|]. unfold settled, attempts, timeouts, backoffs.
      cbn -[count]. split_and!; try done; try lia.
      by apply (lookup_insert_same _ _ _ _ Hk). }
  destruct Hfin as (w2 & Hrun & Hs & Hb & Hst). rewrite Hrun. cbn [fst snd].
  split_and!.
  - done.
  - unfold phase_of. destruct Hs as (-> & _). done.
  - by destruct Hs as (_ & ? & _).
  - by destruct Hs as (_ & _ & ?).
  - done.
  - unfold player_at. by rewrite Hst.
  - unfold playing_at. by rewrite Hst, Hl1.
  - done.
  - intros es. destruct (settled_run k l _ _ es _ Hs) as (H1 & H2 & H3).
    unfold phase_of. by rewrite H1.
Qed.

Lemma stop_ends_retry_chain_witness :
  plays retrying !! 0 = Some (mkActivation 0 AwaitTimer)
  /\ (AwaitTimer = AwaitPlay \/ AwaitTimer = AwaitTimer)
  /\ store retrying !! 0 =
       Some (AudioPlayer.play_head false
               (AudioPlayer.mk "A" false (HTMLAudioElement.Audio "a.mp3")
                  (Some (OnEndTrigger "A"))))
  /\ name NotAllowedError = "NotAllowedError"
  /\ let w' := snd (run (Call (DoStop 0) :: remaining 0 AwaitTimer NotAllowedError) retrying) in
     fst (run (Call (DoStop 0) :: remaining 0 AwaitTimer NotAllowedError) retrying) = []
     /\ phase_of w' 0 = Some Resolved
     /\ attempts 0 w' = attempts 0 retrying
     /\ timeouts 0 w' = timeouts 0 retrying + remaining_backoffs AwaitTimer
     /\ playing_at w' 0 = Some false.
Proof.
  assert (H1 : plays retrying !! 0 = Some (mkActivation 0 AwaitTimer)) by reflexivity.
  assert (H2 : AwaitTimer = AwaitPlay \/ AwaitTimer = AwaitTimer) by (right; reflexivity).
  assert (H3 : store retrying !! 0 =
       Some (AudioPlayer.play_head false
               (AudioPlayer.mk "A" false (HTMLAudioElement.Audio "a.mp3")
                  (Some (OnEndTrigger "A"))))) by reflexivity.
  assert (H4 : name NotAllowedError = "NotAllowedError") by reflexivity.
  destruct (stop_ends_retry_chain retrying 0 0 _ AwaitTimer NotAllowedError H1 H2 H3 H4)
    as (C1 & C2 & C3 & C4 & _ & _ & C7 & _).
  cbv zeta.
  split_and!; [exact H1 | exact H2 | exact H3 | exact H4
              | exact C1 | exact C2 | exact C3 | exact C4 | exact C7].
Defined.

(** ** A retry chain that is let through *)

Lemma retry_chain k l err :
  name err = "NotAllowedError" ->
  forall n w p,
    plays w !! k = Some (mkActivation l AwaitPlay) ->
    store w !! l = Some p ->
    AudioPlayer.playing p = true ->
    fst (run (blocked_then_allowed k n err) w) = []
    /\ plays (snd (run (blocked_then_allowed k n err) w)) !! k = Some (mkActivation l Resolved)
    /\ attempts k (snd (run (blocked_then_allowed k n err) w)) = attempts k w + n
    /\ timeouts k (snd (run (blocked_then_allowed k n err) w)) = timeouts k w + n
    /\ backoffs k (snd (run (blocked_then_allowed k n err) w)) = backoffs k w + n
    /\ (forall i, playing_at (snd (run (take i (blocked_then_allowed k n err)) w)) l = Some true)
    /\ (forall i, i < length (blocked_then_allowed k n err) ->
          phase_of (snd (run (take i (blocked_then_allowed k n err)) w)) k
          = Some (if Nat.even i then AwaitPlay else AwaitTimer)).
Proof.
  intros He. induction n as [|n IH]; intros w p Hk Hl Hp; cbn [blocked_then_allowed].
  - (* the attempt is let through *)
    rewrite (run_cons_ok (PlaySettled k None) _ _ _ (play_settled_fulfilled w k l p Hk Hl)).
    cbn [run fst snd]. unfold attempts, timeouts, backoffs. cbn -[count].
    split_and!; try done; try lia.
    + by apply (lookup_insert_same _ _ _ _ Hk).
    + intros [|i]; cbn [take].
      * cbn [run snd]. unfold playing_at. by rewrite Hl, <- Hp.
      * rewrite take_nil.
        rewrite (run_cons_ok (PlaySettled k None) _ _ _ (play_settled_fulfilled w k l p Hk Hl)).
        unfold playing_at. cbn. rewrite (lookup_insert_same _ _ _ _ Hl). cbn. by rewrite Hp.
    + intros i Hi. cbn in Hi. replace i with 0 by lia. cbn. unfold phase_of. by rewrite Hk.
  - (* the attempt is refused, the timer runs out, the flag is still set *)
    pose proof (play_settled_blocked w k l err Hk He) as E1.
    set (w1 := set_plays (<[k:=mkActivation l AwaitTimer]> (plays w))
                 (set_trace (trace w ++ [ConsoleWarn "Playback blocked, retrying...";
                                         SetTimeout k 250]) w)) in *.
    assert (Hk1 : plays w1 !! k = Some (mkActivation l AwaitTimer)).
    { subst w1. cbn. by apply (lookup_insert_same _ _ _ _ Hk). }
    pose proof (timer_fired_live w1 k l p Hk1 Hl Hp) as E2.
    set (w2 := set_plays (<[k:=mkActivation l AwaitPlay]> (plays w1))
                 (set_trace (trace w1 ++ [AudioPlay k l]) w1)) in *.
    assert (Hk2 : plays w2 !! k = Some (mkActivation l AwaitPlay)).
    { subst w2. cbn -[w1]. by apply (lookup_insert_same _ _ _ _ Hk1). }
    destruct (IH w2 p Hk2 Hl Hp) as (R1 & R2 & R3 & R4 & R5 & R6 & R7).
    rewrite (run_cons_ok (PlaySettled k (Some err)) _ _ _ E1).
    rewrite (run_cons_ok (TimerFired k) _ _ _ E2).
    assert (Ha : attempts k w2 = attempts k w + 1).
    { subst w2 w1. unfold attempts. cbn -[count]. rewrite !count_app. cbn.
      rewrite Nat.eqb_refl. cbn. lia. }
    assert (Ht : timeouts k w2 = timeouts k w + 1).
    { subst w2 w1. unfold timeouts. cbn -[count]. rewrite !count_app. cbn.
      rewrite Nat.eqb_refl. cbn. lia. }
    assert (Hb : backoffs k w2 = backoffs k w + 1).
    { subst w2 w1. unfold backoffs. cbn -[count]. rewrite !count_app. cbn.
      rewrite Nat.eqb_refl. cbn. lia. }
    split_and!; try done; try lia.
    + intros [|[|i]]; cbn [take].
      * cbn. unfold playing_at. by rewrite Hl, <- Hp.
      * rewrite (run_cons_ok (PlaySettled k (Some err)) _ _ _ E1). cbn.
        unfold playing_at. cbn. by rewrite Hl, <- Hp.
      * rewrite (run_cons_ok (PlaySettled k (Some err)) _ _ _ E1).
        rewrite (run_cons_ok (TimerFired k) _ _ _ E2). apply R6.
    + intros [|[|i]] Hi; cbn [take].
      * cbn. unfold phase_of. by rewrite Hk.
      * rewrite (run_cons_ok (PlaySettled k (Some err)) _ _ _ E1). cbn [run snd].
        unfold phase_of. by rewrite Hk1.
      * rewrite (run_cons_ok (PlaySettled k (Some err)) _ _ _ E1).
        rewrite (run_cons_ok (TimerFired k) _ _ _ E2).
        change (Nat.even (S (S i))) with (Nat.even i). apply R7. cbn in Hi. lia.
Qed.

(** C3.  [play()] is called on a player; the platform refuses the first
    two attempts with NotAllowedError and lets the third through, and
    nothing else happens in between.  Then no fault is raised, the promise
    of [play()] resolves, and it does so only at the end: step by step the
    activation awaits an attempt, the timer, an attempt, the timer, an
    attempt, and is then resolved; it has made three attempts and set two
    timers, both of 250 ms; and the playing flag is true after the call and
    after every later step, the resolution included. *)
Theorem two_refusals_then_success
    (w : world) (l : loc) (p : AudioPlayer.t) (loop : bool) (err : Error) :
  store w !! l = Some p ->
  name err = "NotAllowedError" ->
  let k := length (plays w) in
  let es := Call (DoPlay l loop) :: blocked_then_allowed k 2 err in
  let w' := snd (run es w) in
  es = [Call (DoPlay l loop);
        PlaySettled k (Some err); TimerFired k;
        PlaySettled k (Some err); TimerFired k;
        PlaySettled k None]
  /\ fst (run es w) = []
  /\ phase_of w' k = Some Resolved
  /\ attempts k w' = attempts k w + 3
  /\ backoffs k w' = backoffs k w + 2
  /\ timeouts k w' = timeouts k w + 2
  /\ playing_at w' l = Some true
  /\ (forall i, playing_at (snd (run (take (S i) es) w)) l = Some true)
  /\ (fun i => phase_of (snd (run (take i es) w)) k) <$> seq 0 7
     = [None; Some AwaitPlay; Some AwaitTimer; Some AwaitPlay; Some AwaitTimer;
        Some AwaitPlay; Some Resolved].
Proof.
  intros Hl He. cbn zeta.
  assert (E0 : step (Call (DoPlay l loop)) w =
    (Ret tt,
     {| store := <[l := AudioPlayer.play_head loop p]> (store w);
        players := players w; sources := sources w; autoStart := autoStart w;
        inits := inits w; haptic_actionTriggers := haptic_actionTriggers w;
        haptic_actionEffects := haptic_actionEffects w;
        assets := assets w; cells := cells w;
        plays := plays w ++ [mkActivation l AwaitPlay];
        trace := trace w ++ [PlayCalled l loop; AudioPlay (length (plays w)) l] |})).
  { cbn [step do_call]. unfold bind. by rewrite (play_ok w l p loop Hl). }
  set (w0 := mkWorld _ _ _ _ _ _ _ _ _ _ _) in E0.
  set (k := length (plays w)).
  assert (Hk0 : plays w0 !! k = Some (mkActivation l AwaitPlay)).
  { subst w0 k. cbn. apply lookup_snoc_length. }
  assert (Hl0 : store w0 !! l = Some (AudioPlayer.play_head loop p)).
  { subst w0. cbn. by apply (lookup_insert_same _ _ _ _ Hl). }
  destruct (retry_chain k l err He 2 w0 _ Hk0 Hl0 eq_refl)
    as (R1 & R2 & R3 & R4 & R5 & R6 & R7).
  assert (Ha : attempts k w0 = attempts k w + 1).
  { subst w0. unfold attempts. cbn -[count]. rewrite count_app. cbn.
    fold k. rewrite Nat.eqb_refl. cbn. lia. }
  assert (Ht : timeouts k w0 = timeouts k w).
  { subst w0. unfold timeouts. cbn -[count]. rewrite count_app. cbn. lia. }
  assert (Hb : backoffs k w0 = backoffs k w).
  { subst w0. unfold backoffs. cbn -[count]. rewrite count_app. cbn. lia. }
  rewrite (run_cons_ok (Call (DoPlay l loop)) _ _ _ E0).
  split_and!; try done; try lia.
  - unfold phase_of. by rewrite R2.
  - specialize (R6 (length (blocked_then_allowed k 2 err))).
    by rewrite firstn_all in R6.
  - intros i. cbn [take].
    rewrite (run_cons_ok (Call (DoPlay l loop)) _ _ _ E0). apply R6.
  - assert (Hpre : forall i, i < 5 ->
      phase_of (snd (run (take (S i) (Call (DoPlay l loop) :: blocked_then_allowed k 2 err)) w)) k
      = Some (if Nat.even i then AwaitPlay else AwaitTimer)).
    { intros i Hi. cbn [take].
      rewrite (run_cons_ok (Call (DoPlay l loop)) _ _ _ E0). apply R7. cbn. lia. }
    cbn [seq fmap list_fmap].
    rewrite !Hpre by lia. cbn [Nat.even].
    f_equal; [|do 5 f_equal].
    + cbn [take run snd]. unfold phase_of.
      by rewrite (lookup_ge_None_2 (plays w) k) by (subst k; lia).
    + change (take 6 (Call (DoPlay l loop) :: blocked_then_allowed k 2 err))
        with (Call (DoPlay l loop) :: blocked_then_allowed k 2 err).
      rewrite (run_cons_ok (Call (DoPlay l loop)) _ _ _ E0).
      unfold phase_of. by rewrite R2.
Qed.

Lemma two_refusals_then_success_witness :
  store three_units !! 0 =
    Some (AudioPlayer.mk "A" false (HTMLAudioElement.Audio "a.mp3") (Some (OnEndTrigger "A")))
  /\ name NotAllowedError = "NotAllowedError"
  /\ let es := Call (DoPlay 0 false) :: blocked_then_allowed 0 2 NotAllowedError in
     let w' := snd (run es three_units) in
     fst (run es three_units) = []
     /\ phase_of w' 0 = Some Resolved
     /\ attempts 0 w' = attempts 0 three_units + 3
     /\ backoffs 0 w' = backoffs 0 three_units + 2
     /\ timeouts 0 w' = timeouts 0 three_units + 2
     /\ playing_at w' 0 = Some true.
Proof.
  assert (H1 : store three_units !! 0 =
    Some (AudioPlayer.mk "A" false (HTMLAudioElement.Audio "a.mp3") (Some (OnEndTrigger "A"))))
    by reflexivity.
  assert (H2 : name NotAllowedError = "NotAllowedError") by reflexivity.
  destruct (two_refusals_then_success three_units 0 _ false NotAllowedError H1 H2)
    as (_ & C2 & C3 & C4 & C5 & C6 & C7 & _).
  cbv zeta.
  split_and!; [exact H1 | exact H2 | exact C2 | exact C3 | exact C4 | exact C5
              | exact C6 | exact C7].
Defined.

(** ** The end callback *)

Section Callbacks.
Context (n : nat).
Abbreviation Called := (fun w => callbacks w = n).

Lemma called_effect e : is_callback e = false -> stable Called (emit e).
Proof.
  intros He w H. unfold callbacks in *. cbn -[count]. rewrite count_snoc, He. lia.
Qed.

Lemma called_quiet e : quiet e -> stable Called (emit e).
Proof. intros Hq. apply called_effect. by destruct e. Qed.

Lemma called_update l f : stable Called (update l f).
Proof. unfold update. stable_go. by apply stable_modify. Qed.

Lemma called_write c v : stable Called (write_cell c v).
Proof. by apply stable_modify. Qed.

Lemma called_play l loop : stable Called (play l loop).
Proof.
  unfold play, attemptPlay. stable_go.
  - by apply called_effect.
  - apply called_update.
  - by intros w H.
  - by apply called_effect.
  - intros w H. unfold set_phase, modify. cbn. by destruct (plays w !! _).
Qed.

Lemma called_invoke cb : stable Called (invoke cb).
Proof.
  apply (stable_invoke Called (fun _ => True));
    auto using called_update, called_quiet, called_play, called_write.
Qed.

Lemma called_do_call c : stable Called (do_call c).
Proof.
  apply (stable_do_call Called);
    auto using called_update, called_quiet, called_play.
Qed.

End Callbacks.

Lemma ended_listener_fires w l p cb :
  store w !! l = Some p ->
  AudioPlayer.playing p = true ->
  AudioPlayer.onEndCallback p = Some cb ->
  ended_listener l w =
    try_catch (emit (CallbackInvoked l) >> invoke cb)
      (fun error => emit (ConsoleError "Audio onEnd callback failed:" error))
      (set_store (<[l := AudioPlayer.set_playing false p]> (store w)) w).
Proof.
  intros Hl Hp Hcb. unfold ended_listener. unfold bind at 1.
  rewrite (deref_ok _ _ _ Hl), Hp. cbn [negb]. unfold bind at 1.
  rewrite (update_ok _ _ _ _ Hl). unfold bind at 1.
  rewrite (deref_ok _ _ (AudioPlayer.set_playing false p))
    by (cbn; by apply (lookup_insert_same _ _ _ _ Hl)).
  cbn [AudioPlayer.onEndCallback AudioPlayer.set_playing]. by rewrite Hcb.
Qed.

Lemma ended_listener_idle w l p :
  store w !! l = Some p ->
  AudioPlayer.playing p = false ->
  ended_listener l w = (Ret tt, w).
Proof.
  intros Hl Hp. unfold ended_listener. unfold bind at 1.
  by rewrite (deref_ok _ _ _ Hl), Hp.
Qed.

(** X21.  Take a player whose playing flag is set and that has an end
    callback registered.
    At a natural end the listener first sets the playing flag to false and
    then calls the callback, in a world that differs from the one before
    the event in that flag only; it calls it exactly once; whatever the
    callback does or throws, the listener returns to the event source
    without a fault, and what the callback throws is logged.  [stop()] and
    [pause()] return without calling any callback and without any other
    effect on the outside, and after [stop()] even a dispatched ['ended']
    event calls nothing.  When the registered callback throws, the error is
    logged, the flag is false, the callback is still registered, and a
    following [play()] runs without a fault and sets the flag again. *)
Theorem end_callback_contract
    (w : world) (l : loc) (p : AudioPlayer.t) (cb : callback) :
  store w !! l = Some p ->
  AudioPlayer.playing p = true ->
  AudioPlayer.onEndCallback p = Some cb ->
  let w0 := set_store (<[l := AudioPlayer.set_playing false p]> (store w)) w in
  step (Ended l) w =
    try_catch (emit (CallbackInvoked l) >> invoke cb)
      (fun error => emit (ConsoleError "Audio onEnd callback failed:" error)) w0
  /\ playing_at w0 l = Some false
  /\ step (Ended l) w =
       match invoke cb (set_trace (trace w ++ [CallbackInvoked l]) w0) with
       | (Ret _, w2) => (Ret tt, w2)
       | (Throw error, w2) =>
           (Ret tt,
            set_trace (trace w2 ++ [ConsoleError "Audio onEnd callback failed:" error]) w2)
       end
  /\ fst (step (Ended l) w) = Ret tt
  /\ callbacks (snd (step (Ended l) w)) = callbacks w + 1
  /\ step (Call (DoStop l)) w = (Ret tt, set_store (<[l := AudioPlayer.stop p]> (store w)) w)
  /\ step (Call (DoPause l)) w = (Ret tt, set_store (<[l := AudioPlayer.pause p]> (store w)) w)
  /\ trace (snd (step (Call (DoStop l)) w)) = trace w
  /\ trace (snd (step (Call (DoPause l)) w)) = trace w
  /\ run [Call (DoStop l); Ended l] w =
       ([], set_store (<[l := AudioPlayer.stop p]> (store w)) w)
  /\ forall (e : Error) (loop : bool),
       let thrower := OnEndUser [] (Some e) in
       let w1 := snd (run [CallRegisterOnEndCallback l thrower; Ended l] w) in
       fst (run [CallRegisterOnEndCallback l thrower; Ended l] w) = []
       /\ trace w1 =
            trace w ++ [CallbackInvoked l; ConsoleError "Audio onEnd callback failed:" e]
       /\ playing_at w1 l = Some false
       /\ callback_at w1 l = Some (Some thrower)
       /\ fst (step (Call (DoPlay l loop)) w1) = Ret tt
       /\ playing_at (snd (step (Call (DoPlay l loop)) w1)) l = Some true.
Proof.
  intros Hl Hp Hcb. cbn zeta.
  set (w0 := set_store (<[l := AudioPlayer.set_playing false p]> (store w)) w).
  assert (E : step (Ended l) w =
    try_catch (emit (CallbackInvoked l) >> invoke cb)
      (fun error => emit (ConsoleError "Audio onEnd callback failed:" error)) w0)
    by apply (ended_listener_fires w l p cb Hl Hp Hcb).
  assert (Hstop : step (Call (DoStop l)) w =
            (Ret tt, set_store (<[l := AudioPlayer.stop p]> (store w)) w))
    by apply (stop_ok w l p Hl).
  assert (Hpause : step (Call (DoPause l)) w =
            (Ret tt, set_store (<[l := AudioPlayer.pause p]> (store w)) w))
    by (cbn [step do_call]; by apply update_ok).
  (* the callback body and the handler leave the count of calls alone *)
  assert (Hbody : stable (fun v => callbacks v = callbacks w + 1)
            (try_catch (invoke cb)
               (fun error => emit (ConsoleError "Audio onEnd callback failed:" error)))).
  { apply stable_try_catch; [apply called_invoke | intros e; by apply called_quiet]. }
  set (w0' := set_trace (trace w0 ++ [CallbackInvoked l]) w0).
  assert (E' : step (Ended l) w =
    try_catch (invoke cb)
      (fun error => emit (ConsoleError "Audio onEnd callback failed:" error)) w0').
  { rewrite E. reflexivity. }
  assert (H0' : callbacks w0' = callbacks w + 1).
  { subst w0' w0. unfold callbacks. cbn -[count]. rewrite count_snoc. cbn. lia. }
  split_and!.
  - exact E.
  - subst w0. unfold playing_at. cbn. by rewrite (lookup_insert_same _ _ _ _ Hl).
  - rewrite E'. unfold try_catch. subst w0'.
    destruct (invoke cb _) as [[[]|e] w2]; reflexivity.
  - rewrite E. unfold try_catch.
    destruct ((emit (CallbackInvoked l) >> invoke cb) w0) as [[[]|e] w1]; done.
  - rewrite E'. apply (Hbody w0' H0').
  - exact Hstop.
  - exact Hpause.
  - by rewrite Hstop.
  - by rewrite Hpause.
  - rewrite (run_cons_ok (Call (DoStop l)) _ _ _ Hstop).
    erewrite (run_cons_ok (Ended l)); [reflexivity|].
    apply (ended_listener_idle _ l (AudioPlayer.stop p)); [|done].
    cbn. by apply (lookup_insert_same _ _ _ _ Hl).
  - intros e loop.
    set (q := AudioPlayer.registerOnEndCallback (OnEndUser [] (Some e)) p).
    assert (Er : step (CallRegisterOnEndCallback l (OnEndUser [] (Some e))) w =
              (Ret tt, set_store (<[l := q]> (store w)) w))
      by (cbn [step]; by apply update_ok).
    set (wr := set_store (<[l := q]> (store w)) w) in *.
    assert (Hlr : store wr !! l = Some q)
      by (subst wr; cbn; by apply (lookup_insert_same _ _ _ _ Hl)).
    assert (Ee : step (Ended l) wr =
      (Ret tt,
       set_trace (trace w ++ [CallbackInvoked l;
                              ConsoleError "Audio onEnd callback failed:" e])
         (set_store (<[l := AudioPlayer.set_playing false q]> (store wr)) wr))).
    { cbn [step]. rewrite (ended_listener_fires wr l q (OnEndUser [] (Some e)) Hlr Hp eq_refl).
      cbn. rewrite emit_eq. cbn. by rewrite <- app_assoc. }
    rewrite (run_cons_ok _ _ _ _ Er), (run_cons_ok _ _ _ _ Ee). cbn [run fst snd].
    set (w1 := set_trace _ _).
    assert (Hl1 : store w1 !! l = Some (AudioPlayer.set_playing false q)).
    { subst w1. cbn -[wr]. by apply (lookup_insert_same _ _ _ _ Hlr). }
    split_and!; try done.
    + unfold playing_at. by rewrite Hl1.
    + unfold callback_at. by rewrite Hl1.
    + cbn [step do_call]. unfold bind. by rewrite (play_ok w1 l _ loop Hl1).
    + cbn [step do_call]. unfold bind. rewrite (play_ok w1 l _ loop Hl1). cbn [snd].
      unfold playing_at. cbn -[w1]. by rewrite (lookup_insert_same _ _ _ _ Hl1).
Qed.

Lemma end_callback_contract_witness :
  store playing_first !! 0 =
    Some (AudioPlayer.play_head false
            (AudioPlayer.mk "A" false (HTMLAudioElement.Audio "a.mp3")
               (Some (OnEndTrigger "A"))))
  /\ AudioPlayer.playing
       (AudioPlayer.play_head false
          (AudioPlayer.mk "A" false (HTMLAudioElement.Audio "a.mp3")
             (Some (OnEndTrigger "A")))) = true
  /\ AudioPlayer.onEndCallback
       (AudioPlayer.play_head false
          (AudioPlayer.mk "A" false (HTMLAudioElement.Audio "a.mp3")
             (Some (OnEndTrigger "A")))) = Some (OnEndTrigger "A")
  /\ fst (step (Ended 0) playing_first) = Ret tt
  /\ callbacks (snd (step (Ended 0) playing_first)) = callbacks playing_first + 1
  /\ trace (snd (step (Call (DoStop 0)) playing_first)) = trace playing_first
  /\ trace (snd (step (Call (DoPause 0)) playing_first)) = trace playing_first.
Proof.
  assert (H1 : store playing_first !! 0 =
    Some (AudioPlayer.play_head false
            (AudioPlayer.mk "A" false (HTMLAudioElement.Audio "a.mp3")
               (Some (OnEndTrigger "A"))))) by reflexivity.
  destruct (end_callback_contract playing_first 0 _ (OnEndTrigger "A") H1 eq_refl eq_refl)
    as (_ & _ & _ & C3 & C4 & _ & _ & C7 & C8 & _).
  split_and!; [exact H1 | reflexivity | reflexivity | exact C3 | exact C4
              | exact C7 | exact C8].
Defined.

(** ** Destroyed players *)

Lemma insert_same_id {A} (xs : list A) i x : xs !! i = Some x -> <[i := x]> xs = xs.
Proof. apply list_insert_id. Qed.

Lemma set_store_id w : set_store (store w) w = w.
Proof. by destruct w. Qed.

Lemma update_noop w l p f :
  store w !! l = Some p -> f p = p -> update l f w = (Ret tt, w).
Proof.
  intros Hl Hf. rewrite (update_ok _ _ _ _ Hl), Hf, (insert_same_id _ _ _ Hl).
  by rewrite set_store_id.
Qed.

(** X22.  [destroy()] raises no fault and leaves the player with the
    playing flag false, no callback, volume 0, an empty source and a
    paused element at position 0; in the state it leaves, a second
    [destroy()], and likewise [stop()], [pause()] and [rewind()], raise no
    fault and change nothing at all, and [setVolume] with a finite value,
    [registerOnEndCallback] and [play] raise no fault either. *)
Theorem destroy_is_terminal
    (w : world) (l : loc) (p : AudioPlayer.t) (v : Q) (cb : callback) (loop : bool) :
  store w !! l = Some p ->
  let d := AudioPlayer.destroy p in
  let w1 := snd (step (Call (DoDestroy l)) w) in
  step (Call (DoDestroy l)) w = (Ret tt, set_store (<[l := d]> (store w)) w)
  /\ player_at w1 l = Some d
  /\ AudioPlayer.playing d = false
  /\ AudioPlayer.onEndCallback d = None
  /\ HTMLAudioElement.volume (AudioPlayer.audio d) = 0%Q
  /\ HTMLAudioElement.src (AudioPlayer.audio d) = ""
  /\ HTMLAudioElement.paused (AudioPlayer.audio d) = true
  /\ HTMLAudioElement.currentTime (AudioPlayer.audio d) = 0%Q
  /\ step (Call (DoDestroy l)) w1 = (Ret tt, w1)
  /\ step (Call (DoStop l)) w1 = (Ret tt, w1)
  /\ step (Call (DoPause l)) w1 = (Ret tt, w1)
  /\ step (Call (DoRewind l)) w1 = (Ret tt, w1)
  /\ fst (step (Call (DoSetVolume l (Finite v))) w1) = Ret tt
  /\ fst (step (CallRegisterOnEndCallback l cb) w1) = Ret tt
  /\ fst (step (Call (DoPlay l loop)) w1) = Ret tt.
Proof.
  intros Hl. cbn zeta.
  assert (E : step (Call (DoDestroy l)) w =
                (Ret tt, set_store (<[l := AudioPlayer.destroy p]> (store w)) w))
    by (cbn [step do_call]; by apply update_ok).
  rewrite E. cbn [snd].
  set (w1 := set_store _ w).
  assert (Hl1 : store w1 !! l = Some (AudioPlayer.destroy p))
    by (subst w1; cbn; by apply (lookup_insert_same _ _ _ _ Hl)).
  split_and!; try done.
  - cbn [step do_call]. by apply (update_noop _ _ _ _ Hl1).
  - cbn [step do_call]. by apply (update_noop _ _ _ _ Hl1).
  - cbn [step do_call]. by apply (update_noop _ _ _ _ Hl1).
  - cbn [step do_call]. by apply (update_noop _ _ _ _ Hl1).
  - cbn [step do_call]. unfold bind. rewrite (deref_ok _ _ _ Hl1), setVolume_finite.
    by rewrite (update_ok _ _ _ _ Hl1).
  - cbn [step]. by rewrite (update_ok _ _ _ _ Hl1).
  - cbn [step do_call]. unfold bind. by rewrite (play_ok _ _ _ loop Hl1).
Qed.

Lemma destroy_is_terminal_witness :
  store three_units !! 0 =
    Some (AudioPlayer.mk "A" false (HTMLAudioElement.Audio "a.mp3") (Some (OnEndTrigger "A")))
  /\ step (Call (DoDestroy 0)) destroyed_first = (Ret tt, destroyed_first)
  /\ step (Call (DoStop 0)) destroyed_first = (Ret tt, destroyed_first)
  /\ step (Call (DoPause 0)) destroyed_first = (Ret tt, destroyed_first)
  /\ step (Call (DoRewind 0)) destroyed_first = (Ret tt, destroyed_first)
  /\ fst (step (Call (DoSetVolume 0 (Finite (1 # 2)))) destroyed_first) = Ret tt
  /\ fst (step (CallRegisterOnEndCallback 0 (OnEndTrigger "A")) destroyed_first) = Ret tt
  /\ fst (step (Call (DoPlay 0 false)) destroyed_first) = Ret tt.
Proof.
  assert (H1 : store three_units !! 0 =
    Some (AudioPlayer.mk "A" false (HTMLAudioElement.Audio "a.mp3") (Some (OnEndTrigger "A"))))
    by reflexivity.
  destruct (destroy_is_terminal three_units 0 _ (1 # 2) (OnEndTrigger "A") false H1)
    as (_ & _ & _ & _ & _ & _ & _ & _ & C1 & C2 & C3 & C4 & C5 & C6 & C7).
  split_and!; [exact H1 | exact C1 | exact C2 | exact C3 | exact C4
              | exact C5 | exact C6 | exact C7].
Defined.

(** ** Starting the playlist *)

Lemma playNext_ok w c i l p :
  cells w !! c = Some i ->
  players w !! (if (length (players w) <=? i)%nat then 0 else i) = Some l ->
  store w !! l = Some p ->
  playNext c w =
    (Ret tt,
     {| store := <[l := AudioPlayer.play_head false
                           (AudioPlayer.registerOnEndCallback (OnEndAdvance c l) p)]> (store w);
        players := players w; sources := sources w; autoStart := autoStart w;
        inits := inits w; haptic_actionTriggers := haptic_actionTriggers w;
        haptic_actionEffects := haptic_actionEffects w;
        assets := assets w;
        cells := <[c := if (length (players w) <=? i)%nat then 0 else i]> (cells w);
        plays := plays w ++ [mkActivation l AwaitPlay];
        trace := trace w ++ [TriggerAction (started_action (AudioPlayer.id p));
                             PlayCalled l false; AudioPlay (length (plays w)) l] |}).
Proof.
  intros Hc Hi Hl. unfold playNext. unfold bind at 1. cbn [get].
  unfold bind at 1. unfold read_cell at 1. rewrite Hc.
  change (default 0 (Some i)) with i.
  set (q := AudioPlayer.registerOnEndCallback (OnEndAdvance c l) p).
  assert (Hrest : forall w1 : world,
    store w1 = store w -> plays w1 = plays w -> trace w1 = trace w ->
    players w1 = players w -> sources w1 = sources w -> autoStart w1 = autoStart w ->
    assets w1 = assets w -> inits w1 = inits w ->
    haptic_actionTriggers w1 = haptic_actionTriggers w ->
    haptic_actionEffects w1 = haptic_actionEffects w ->
    (update l (AudioPlayer.registerOnEndCallback (OnEndAdvance c l)) >>
     let* p0 := deref l in
     triggerAction (started_action (AudioPlayer.id p0)) >> play l false >> ret tt) w1 =
    (Ret tt,
     {| store := <[l := AudioPlayer.play_head false q]> (store w);
        players := players w; sources := sources w; autoStart := autoStart w;
        inits := inits w; haptic_actionTriggers := haptic_actionTriggers w;
        haptic_actionEffects := haptic_actionEffects w;
        assets := assets w; cells := cells w1;
        plays := plays w ++ [mkActivation l AwaitPlay];
        trace := trace w ++ [TriggerAction (started_action (AudioPlayer.id p));
                             PlayCalled l false; AudioPlay (length (plays w)) l] |})).
  { intros w1 Es Ep Et Epl Eso Eau Eas Ein Etr Eef. unfold bind at 1.
    rewrite (update_ok w1 l p) by (by rewrite Es).
    unfold bind at 1.
    rewrite (deref_ok _ l q) by (cbn; rewrite Es; by apply (lookup_insert_same _ _ _ _ Hl)).
    unfold bind at 1. unfold triggerAction. rewrite emit_eq. unfold bind at 1.
    rewrite (play_ok _ l q false)
      by (cbn; rewrite Es; by apply (lookup_insert_same _ _ _ _ Hl)).
    cbn. rewrite Es, Ep, Et, Epl, Eso, Eau, Eas, Ein, Etr, Eef, list_insert_insert_eq.
    by rewrite <- app_assoc. }
  destruct (length (players w) <=? i)%nat eqn:Ele.
  - unfold bind at 1. cbn [write_cell modify]. unfold bind at 1. unfold read_cell at 1.
    cbn [cells set_cells]. rewrite (lookup_insert_same _ _ _ _ Hc).
    change (default 0 (Some 0)) with 0. rewrite Hi. by rewrite Hrest.
  - unfold bind at 1. cbn [ret]. unfold bind at 1. unfold read_cell at 1.
    rewrite Hc. change (default 0 (Some i)) with i. rewrite Hi. rewrite Hrest by done.
    by rewrite (insert_same_id _ _ _ Hc).
Qed.

Lemma playAsPlaylist_ok w s ss l p :
  sources w = Some (s :: ss) ->
  players w !! 0 = Some l ->
  store w !! l = Some p ->
  step WidgetPlayAsPlaylist w =
    (Ret tt,
     {| store := <[l := AudioPlayer.play_head false
                           (AudioPlayer.registerOnEndCallback
                              (OnEndAdvance (length (cells w)) l) p)]> (store w);
        players := players w; sources := sources w; autoStart := autoStart w;
        inits := inits w; haptic_actionTriggers := haptic_actionTriggers w;
        haptic_actionEffects := haptic_actionEffects w;
        assets := assets w;
        cells := cells w ++ [0];
        plays := plays w ++ [mkActivation l AwaitPlay];
        trace := trace w ++ [AnalyticsDebug "playAsPlaylist";
                             TriggerAction (started_action (AudioPlayer.id p));
                             PlayCalled l false; AudioPlay (length (plays w)) l] |}).
Proof.
  intros Hs H0 Hl. cbn [step]. unfold AudioPlayerWidget.playAsPlaylist.
  unfold bind at 1. rewrite emit_eq. unfold bind at 1. cbn [get sources set_trace].
  rewrite Hs. unfold bind at 1. unfold new_cell at 1. cbn [cells set_trace].
  erewrite (playNext_ok _ (length (cells w)) 0 l p).
  - cbn. rewrite insert_snoc_length, Hs. destruct (length (players w) <=? 0)%nat;
      by rewrite <- app_assoc.
  - cbn. apply lookup_snoc_length.
  - cbn. by destruct (length (players w) <=? 0)%nat.
  - done.
Qed.

Lemma playAsPlaylist_no_players w s ss :
  sources w = Some (s :: ss) ->
  players w = [] ->
  step WidgetPlayAsPlaylist w =
    (Throw (TypeError "Cannot read properties of undefined (reading 'registerOnEndCallback')"),
     set_cells (cells w ++ [0]) (set_trace (trace w ++ [AnalyticsDebug "playAsPlaylist"]) w)).
Proof.
  intros Hs Hp. cbn [step]. unfold AudioPlayerWidget.playAsPlaylist.
  unfold bind at 1. rewrite emit_eq. unfold bind at 1. cbn [get sources set_trace].
  rewrite Hs. unfold bind at 1. unfold new_cell at 1. cbn [cells set_trace].
  unfold playNext. unfold bind at 1. cbn [get]. unfold bind at 1. unfold read_cell at 1.
  cbn [cells set_cells players set_trace]. rewrite lookup_snoc_length, Hp.
  cbn. by rewrite insert_snoc_length.
Qed.

Lemma playAsPlaylist_no_sources w :
  sources w = None \/ sources w = Some [] ->
  step WidgetPlayAsPlaylist w =
    (Ret tt, set_trace (trace w ++ [AnalyticsDebug "playAsPlaylist"]) w).
Proof.
  intros Hs. cbn [step]. unfold AudioPlayerWidget.playAsPlaylist.
  unfold bind at 1. rewrite emit_eq. unfold bind at 1. cbn [get sources set_trace].
  by destruct Hs as [-> | ->].
Qed.

(** C5, at the input where the code departs from it.  The settings dialog
    has added one source and no file is picked yet: [initialize] logs the
    invalid configuration and creates no player, so the collection of
    players is empty while [shared.sources] is not.  Starting the playlist
    passes the guard, reads [this.players[0]], and throws a [TypeError];
    with [autoStart] set, [initialize] itself ends in that fault. *)
Theorem playlist_start_without_players :
  let w := snd (run [WidgetInitialize] (boot [unpicked_source] false [])) in
  fst (run [WidgetInitialize] (boot [unpicked_source] false [])) = []
  /\ players w = []
  /\ trace w = [AnalyticsDebug "initialize";
                AnalyticsError "Invalid audio source configuration:" "A"]
  /\ step WidgetPlayAsPlaylist w =
       (Throw (TypeError
                 "Cannot read properties of undefined (reading 'registerOnEndCallback')"),
        set_cells [0] (set_trace (trace w ++ [AnalyticsDebug "playAsPlaylist"]) w))
  /\ fst (run [WidgetInitialize] (boot [unpicked_source] true [])) =
       [TypeError "Cannot read properties of undefined (reading 'registerOnEndCallback')"].
Proof. cbn zeta. split_and!; reflexivity. Qed.

(** ** Advancing the playlist *)

(** The natural end of the unit [l] under the cursor [i] of run [c], when
    the next unit is [l']. *)
Lemma ended_advance_ok w c l p i l' p' :
  store w !! l = Some p ->
  AudioPlayer.playing p = true ->
  AudioPlayer.onEndCallback p = Some (OnEndAdvance c l) ->
  cells w !! c = Some i ->
  players w !! (if (length (players w) <=? S i)%nat then 0 else S i) = Some l' ->
  <[l := AudioPlayer.set_playing false p]> (store w) !! l' = Some p' ->
  step (Ended l) w =
    (Ret tt,
     {| store := <[l' := AudioPlayer.play_head false
                            (AudioPlayer.registerOnEndCallback (OnEndAdvance c l') p')]>
                   (<[l := AudioPlayer.set_playing false p]> (store w));
        players := players w; sources := sources w; autoStart := autoStart w;
        inits := inits w; haptic_actionTriggers := haptic_actionTriggers w;
        haptic_actionEffects := haptic_actionEffects w;
        assets := assets w;
        cells := <[c := if (length (players w) <=? S i)%nat then 0 else S i]> (cells w);
        plays := plays w ++ [mkActivation l' AwaitPlay];
        trace := trace w ++ [CallbackInvoked l;
                             TriggerAction (ended_action (AudioPlayer.id p));
                             TriggerAction (started_action (AudioPlayer.id p'));
                             PlayCalled l' false; AudioPlay (length (plays w)) l'] |}).
Proof.
  intros Hl Hp Hcb Hc Hi Hl'. cbn [step].
  rewrite (ended_listener_fires w l p _ Hl Hp Hcb).
  set (w0 := set_store (<[l := AudioPlayer.set_playing false p]> (store w)) w).
  unfold try_catch. unfold bind at 1. rewrite emit_eq. cbn [invoke].
  unfold bind at 1.
  rewrite (deref_ok _ l (AudioPlayer.set_playing false p))
    by (cbn; by apply (lookup_insert_same _ _ _ _ Hl)).
  unfold bind at 1. unfold triggerAction at 1. rewrite emit_eq.
  unfold bind at 1. unfold read_cell at 1. cbn [cells set_trace set_store w0].
  rewrite Hc. change (default 0 (Some i)) with i.
  unfold bind at 1. cbn [write_cell modify].
  erewrite (playNext_ok _ c (S i) l' p').
  - cbn. rewrite list_insert_insert_eq. by rewrite <- !app_assoc.
  - cbn. by apply (lookup_insert_same _ _ _ _ Hc).
  - done.
  - done.
Qed.

Lemma next_index n j :
  0 < n ->
  (if (n <=? S (j mod n))%nat then 0 else S (j mod n)) = S j mod n.
Proof.
  intros Hn.
  assert (Hlt : j mod n < n) by (apply Nat.mod_upper_bound; lia).
  assert (Hj : j = n * (j / n) + j mod n) by (apply Nat.div_mod_eq).
  destruct (n <=? S (j mod n))%nat eqn:E.
  - apply Nat.leb_le in E.
    apply (Nat.mod_unique (S j) n (S (j / n)) 0); [lia|]. nia.
  - apply Nat.leb_gt in E.
    apply (Nat.mod_unique (S j) n (j / n) (S (j mod n))); [lia|]. nia.
Qed.

Lemma ids_insert (xs : list AudioPlayer.t) l q q' :
  xs !! l = Some q ->
  AudioPlayer.id q' = AudioPlayer.id q ->
  AudioPlayer.id <$> <[l := q']> xs = AudioPlayer.id <$> xs.
Proof.
  intros Hl Hid. rewrite list_fmap_insert, Hid.
  apply list_insert_id. by rewrite list_lookup_fmap, Hl.
Qed.

Lemma unit_id_lookup (xs : list AudioPlayer.t) w l q :
  AudioPlayer.id <$> xs = AudioPlayer.id <$> store w ->
  xs !! l = Some q ->
  AudioPlayer.id q = unit_id w l.
Proof.
  intros Hids Hl. unfold unit_id.
  rewrite <- list_lookup_fmap, <- Hids, list_lookup_fmap, Hl. done.
Qed.

Lemma playlist_start w s ss :
  sources w = Some (s :: ss) ->
  players w <> [] ->
  valid_players w ->
  exists l,
    players w !! 0 = Some l
    /\ fst (step WidgetPlayAsPlaylist w) = Ret tt
    /\ trace (snd (step WidgetPlayAsPlaylist w)) =
         trace w ++ [AnalyticsDebug "playAsPlaylist";
                     TriggerAction (started_action (unit_id w l));
                     PlayCalled l false; AudioPlay (length (plays w)) l]
    /\ playlist_at w (length (cells w)) 0 (snd (step WidgetPlayAsPlaylist w)).
Proof.
  intros Hs Hne Hv.
  destruct (players w) as [|l ls] eqn:Hp; [done|].
  assert (H0 : players w !! 0 = Some l) by (by rewrite Hp).
  assert (Hlt : l < length (store w)) by (apply Hv; rewrite Hp; apply list_elem_of_here).
  destruct (lookup_lt_is_Some_2 _ _ Hlt) as [p Hl].
  exists l. rewrite (playAsPlaylist_ok w s ss l p Hs H0 Hl). cbn [fst snd trace].
  assert (Hid : AudioPlayer.id p = unit_id w l) by (by apply (unit_id_lookup (store w))).
  split_and!; try done.
  - by rewrite Hid.
  - unfold playlist_at. cbn [players store cells]. rewrite Hp. cbn [length].
    rewrite Nat.Div0.mod_0_l. split_and!.
    + done.
    + by apply (ids_insert _ _ p).
    + apply lookup_snoc_length.
    + eexists l, _.
      split_and!; [done | by apply (lookup_insert_same _ _ _ _ Hl) | done.. |].
      unfold last_play. cbn [plays]. rewrite length_app, Nat.add_1_r. cbn [pred length].
      apply lookup_snoc_length.
Qed.

Lemma playlist_step w c j wj :
  valid_players w ->
  players w <> [] ->
  playlist_at w c j wj ->
  exists l l' w',
    players w !! (j mod length (players w)) = Some l
    /\ players w !! (S j mod length (players w)) = Some l'
    /\ current c wj = Some l
    /\ playing_at wj l = Some true
    /\ callback_at wj l = Some (Some (OnEndAdvance c l))
    /\ run [PlaySettled (last_play wj) None; Ended l] wj = ([], w')
    /\ trace w' =
         trace wj ++ [CallbackInvoked l;
                      TriggerAction (ended_action (unit_id w l));
                      TriggerAction (started_action (unit_id w l'));
                      PlayCalled l' false; AudioPlay (length (plays wj)) l']
    /\ playlist_at w c (S j) w'.
Proof.
  intros Hv Hne (Hpl & Hids & Hc & l & q & Hj & Hl & Hplay & Hloop & Hcb & Hk).
  set (n := length (players w)) in *.
  assert (Hn : 0 < n) by (subst n; destruct (players w); [done | cbn; lia]).
  assert (Hnext : S j mod n < n) by (apply Nat.mod_upper_bound; lia).
  destruct (lookup_lt_is_Some_2 (players w) _ Hnext) as [l' Hl'].
  assert (Hlen : length (store wj) = length (store w)).
  { rewrite <- (length_fmap AudioPlayer.id (store wj)), Hids. apply length_fmap. }
  (* the pending attempt is let through *)
  pose proof (play_settled_fulfilled wj (last_play wj) l q Hk Hl) as E1.
  set (q1 := AudioPlayer.set_audio (HTMLAudioElement.started (AudioPlayer.audio q)) q) in *.
  set (w1 := set_plays _ (set_store (<[l := q1]> (store wj)) wj)) in E1.
  assert (Hl1 : store w1 !! l = Some q1)
    by (subst w1; cbn; by apply (lookup_insert_same _ _ _ _ Hl)).
  assert (Hplays1 : length (plays w1) = length (plays wj))
    by (subst w1; cbn; apply length_insert).
  (* the unit plays to its end *)
  set (st0 := <[l := AudioPlayer.set_playing false q1]> (store w1)).
  assert (Hids0 : AudioPlayer.id <$> st0 = AudioPlayer.id <$> store w).
  { subst st0 w1. cbn [store set_store set_plays].
    rewrite (ids_insert _ l q1 (AudioPlayer.set_playing false q1)
               (lookup_insert_same _ _ _ _ Hl) eq_refl).
    by rewrite (ids_insert _ l q q1 Hl eq_refl). }
  assert (Hlt' : l' < length st0).
  { subst st0 w1. cbn [store set_store set_plays]. rewrite !length_insert, Hlen.
    apply Hv. apply list_elem_of_lookup. by exists (S j mod n). }
  destruct (lookup_lt_is_Some_2 _ _ Hlt') as [p' Hp'].
  assert (Hidx : (if (length (players w1) <=? S (j mod n))%nat then 0 else S (j mod n))
                 = S j mod n).
  { subst w1. cbn [players set_store set_plays]. rewrite Hpl. fold n. by apply next_index. }
  pose proof (ended_advance_ok w1 c l q1 (j mod n) l' p' Hl1 Hplay Hcb Hc) as E2.
  rewrite Hidx in E2. change (players w1) with (players wj) in E2. rewrite Hpl in E2.
  specialize (E2 Hl' Hp').
  eexists l, l', _.
  rewrite (run_cons_ok (PlaySettled (last_play wj) None) _ _ _ E1).
  rewrite (run_cons_ok (Ended l) _ _ _ E2). cbn [run].
  split_and!; try done.
  - unfold current. by rewrite Hc, Hpl.
  - unfold playing_at. by rewrite Hl, <- Hplay.
  - unfold callback_at. by rewrite Hl, <- Hcb.
  - cbn [trace]. rewrite Hplays1.
    assert (Hids1 : AudioPlayer.id <$> store w1 = AudioPlayer.id <$> store w).
    { subst w1. cbn [store set_store set_plays]. by rewrite (ids_insert _ l q q1 Hl eq_refl). }
    by rewrite (unit_id_lookup (store w1) w l q1 Hids1 Hl1),
               (unit_id_lookup st0 w l' p' Hids0 Hp').
  - unfold playlist_at. cbn [players store cells plays]. fold n. split_and!.
    + done.
    + fold st0. by rewrite (ids_insert _ _ p').
    + by apply (lookup_insert_same _ _ _ _ Hc).
    + eexists l', _. split_and!;
        [done | fold st0; by apply (lookup_insert_same _ _ _ _ Hp') | done.. |].
      unfold last_play. cbn [plays]. rewrite length_app, Nat.add_1_r. cbn [pred length].
      apply lookup_snoc_length.
Qed.

Lemma drive_playlist_at w s ss j :
  sources w = Some (s :: ss) ->
  players w <> [] ->
  valid_players w ->
  playlist_at w (length (cells w)) j
    (drive (length (cells w)) j (snd (step WidgetPlayAsPlaylist w))).
Proof.
  intros Hs Hne Hv. induction j as [|j IH]; cbn [drive].
  - by destruct (playlist_start w s ss Hs Hne Hv) as (l & _ & _ & _ & H).
  - destruct (playlist_step w _ j _ Hv Hne IH)
      as (l & l' & w' & _ & _ & Hcur & _ & _ & Hrun & _ & H).
    by rewrite Hcur, Hrun.
Qed.



(** The cyclic order on the three sample units: A, B, C, A, B. *)
Example three_units_order :
  notifications (drive 0 4 (snd (step WidgetPlayAsPlaylist three_units))) =
    ["widget-audio-player-audio-started-A"; "widget-audio-player-audio-ended-A";
     "widget-audio-player-audio-started-B"; "widget-audio-player-audio-ended-B";
     "widget-audio-player-audio-started-C"; "widget-audio-player-audio-ended-C";
     "widget-audio-player-audio-started-A"; "widget-audio-player-audio-ended-A";
     "widget-audio-player-audio-started-B"].
Proof. reflexivity. Qed.

(** ** One end event, one advancement *)

Section Cursor.
Context (c : nat) (cs : list nat).
Abbreviation Kept := (one_changed c cs).

Lemma kept_emit e : stable Kept (emit e).
Proof. by intros w H. Qed.

Lemma kept_update l g : stable Kept (update l g).
Proof. unfold update. stable_go. by apply stable_modify. Qed.

Lemma kept_write v : stable Kept (write_cell c v).
Proof.
  intros w [x Hx]. exists v. cbn. by rewrite Hx, list_insert_insert_eq.
Qed.

Lemma kept_play l loop : stable Kept (play l loop).
Proof.
  unfold play, attemptPlay. stable_go.
  - apply kept_emit.
  - apply kept_update.
  - by intros w H.
  - apply kept_emit.
  - intros w H. unfold set_phase, modify. cbn. by destruct (plays w !! _).
Qed.

Lemma kept_invoke cb : run_of (Some cb) = c -> stable Kept (invoke cb).
Proof.
  intros Hc. apply (stable_invoke Kept (fun c' => c' = c)).
  - apply kept_update.
  - intros e _. apply kept_emit.
  - apply kept_play.
  - intros c' v ->. apply kept_write.
  - intros c' l ->. exact Hc.
Qed.

End Cursor.

Lemma one_changed_refl c w : one_changed c (cells w) w.
Proof.
  destruct (cells w !! c) as [x|] eqn:E.
  - exists x. symmetry. by apply list_insert_id.
  - exists 0. symmetry. apply list_insert_ge. by apply lookup_ge_None_1.
Qed.

Lemma ended_listener_cases w l :
  ended_listener l w = (Throw (TypeError "dangling reference"), w)
  \/ ended_listener l w = (Ret tt, w)
  \/ (exists p, store w !! l = Some p
        /\ ended_listener l w =
             (Ret tt, set_store (<[l := AudioPlayer.set_playing false p]> (store w)) w))
  \/ (exists p cb, store w !! l = Some p
        /\ AudioPlayer.onEndCallback p = Some cb
        /\ ended_listener l w =
             try_catch (invoke cb)
               (fun error => emit (ConsoleError "Audio onEnd callback failed:" error))
               (set_trace (trace w ++ [CallbackInvoked l])
                  (set_store (<[l := AudioPlayer.set_playing false p]> (store w)) w))).
Proof.
  destruct (store w !! l) as [p|] eqn:Hl.
  - destruct (AudioPlayer.playing p) eqn:Hp.
    + destruct (AudioPlayer.onEndCallback p) as [cb|] eqn:Hcb.
      * right; right; right. exists p, cb. split_and!; [done..|].
        by rewrite (ended_listener_fires w l p cb Hl Hp Hcb).
      * right; right; left. exists p. split; [done|].
        unfold ended_listener. unfold bind at 1.
        rewrite (deref_ok _ _ _ Hl), Hp. cbn [negb]. unfold bind at 1.
        rewrite (update_ok _ _ _ _ Hl). unfold bind at 1.
        rewrite (deref_ok _ _ (AudioPlayer.set_playing false p))
          by (cbn; by apply (lookup_insert_same _ _ _ _ Hl)).
        cbn [AudioPlayer.onEndCallback AudioPlayer.set_playing]. by rewrite Hcb.
    + right; left. by apply (ended_listener_idle w l p).
  - left. unfold ended_listener, bind, deref. by rewrite Hl.
Qed.

Lemma one_end_one_advance w l :
  callbacks (snd (step (Ended l) w)) <= callbacks w + 1
  /\ exists c v, cells (snd (step (Ended l) w)) = <[c := v]> (cells w).
Proof.
  cbn [step].
  destruct (ended_listener_cases w l)
    as [E | [E | [(p & Hl & E) | (p & cb & Hl & Hcb & E)]]]; rewrite E; cbn [snd].
  - split; [lia | exists 0; apply one_changed_refl].
  - split; [lia | exists 0; apply one_changed_refl].
  - split; [unfold callbacks; cbn -[count]; lia | exists 0; apply (one_changed_refl 0 w)].
  - set (w1 := set_trace _ _).
    assert (H1 : callbacks w1 = callbacks w + 1).
    { subst w1. unfold callbacks. cbn -[count]. rewrite count_snoc. cbn. lia. }
    split.
    + assert (Hst : stable (fun v => callbacks v = callbacks w + 1)
                (try_catch (invoke cb)
                   (fun error => emit (ConsoleError "Audio onEnd callback failed:" error)))).
      { apply stable_try_catch; [apply called_invoke | intros e; by apply called_quiet]. }
      rewrite (Hst w1 H1). lia.
    + exists (run_of (Some cb)).
      assert (Hst : stable (one_changed (run_of (Some cb)) (cells w))
                (try_catch (invoke cb)
                   (fun error => emit (ConsoleError "Audio onEnd callback failed:" error)))).
      { apply stable_try_catch; [by apply kept_invoke | intros e; apply kept_emit]. }
      apply (Hst w1). apply (one_changed_refl _ w).
Qed.

Lemma ended_of_advance w c l p :
  store w !! l = Some p ->
  AudioPlayer.playing p = true ->
  AudioPlayer.onEndCallback p = Some (OnEndAdvance c l) ->
  callbacks (snd (step (Ended l) w)) = callbacks w + 1
  /\ exists v, cells (snd (step (Ended l) w)) = <[c := v]> (cells w).
Proof.
  intros Hl Hp Hcb. cbn [step].
  rewrite (ended_listener_fires w l p _ Hl Hp Hcb).
  set (w0 := set_store _ w).
  change (try_catch (emit (CallbackInvoked l) >> invoke (OnEndAdvance c l))
            (fun error => emit (ConsoleError "Audio onEnd callback failed:" error)) w0)
    with (try_catch (invoke (OnEndAdvance c l))
            (fun error => emit (ConsoleError "Audio onEnd callback failed:" error))
            (set_trace (trace w0 ++ [CallbackInvoked l]) w0)).
  set (w1 := set_trace _ w0).
  split.
  - assert (Hst : stable (fun v => callbacks v = callbacks w + 1)
              (try_catch (invoke (OnEndAdvance c l))
                 (fun error => emit (ConsoleError "Audio onEnd callback failed:" error)))).
    { apply stable_try_catch; [apply called_invoke | intros e; by apply called_quiet]. }
    apply (Hst w1). subst w1 w0. unfold callbacks. cbn -[count]. rewrite count_snoc. cbn. lia.
  - assert (Hst : stable (one_changed c (cells w))
              (try_catch (invoke (OnEndAdvance c l))
                 (fun error => emit (ConsoleError "Audio onEnd callback failed:" error)))).
    { apply stable_try_catch; [by apply kept_invoke | intros e; apply kept_emit]. }
    apply (Hst w1). apply (one_changed_refl _ w).
Qed.

(** C8.  The callback slot of a player holds one callback, the last one
    registered.  Starting the playlist, in whatever state the widget is
    (a playlist may be running), arms on the first unit the advancement
    handler of a fresh run, in place of what was armed there, and touches
    no cursor of an earlier run.  When that unit then ends, one callback
    is called and the cursor of the fresh run alone moves, to the next
    unit.  And at every ['ended'] event, in every world, at most one
    callback is called and at most one cursor changes. *)
Theorem restart_rearms_single_slot
    (w v : world) (s : AudioSource.t) (ss : list AudioSource.t)
    (l0 : loc) (p0 : AudioPlayer.t) (cb1 cb2 : callback) (l : loc) :
  sources w = Some (s :: ss) ->
  players w !! 0 = Some l0 ->
  store w !! l0 = Some p0 ->
  valid_players w ->
  let c := length (cells w) in
  let w' := snd (step WidgetPlayAsPlaylist w) in
  AudioPlayer.registerOnEndCallback cb2 (AudioPlayer.registerOnEndCallback cb1 p0)
    = AudioPlayer.registerOnEndCallback cb2 p0
  /\ AudioPlayer.onEndCallback
       (AudioPlayer.registerOnEndCallback cb2 (AudioPlayer.registerOnEndCallback cb1 p0))
     = Some cb2
  /\ fst (step WidgetPlayAsPlaylist w) = Ret tt
  /\ cells w' = cells w ++ [0]
  /\ callback_at w' l0 = Some (Some (OnEndAdvance c l0))
  /\ fst (step (Ended l0) w') = Ret tt
  /\ callbacks (snd (step (Ended l0) w')) = callbacks w' + 1
  /\ cells (snd (step (Ended l0) w')) = cells w ++ [1 mod length (players w)]
  /\ callbacks (snd (step (Ended l) v)) <= callbacks v + 1
  /\ exists c0 x, cells (snd (step (Ended l) v)) = <[c0 := x]> (cells v).
Proof.
  intros Hs H0 Hl0 Hv. cbn zeta.
  set (n := length (players w)).
  assert (Hn : 0 < n) by (subst n; destruct (players w); [done | cbn; lia]).
  pose proof (playAsPlaylist_ok w s ss l0 p0 Hs H0 Hl0) as E.
  rewrite E. cbn [fst snd].
  set (q0 := AudioPlayer.play_head false
               (AudioPlayer.registerOnEndCallback (OnEndAdvance (length (cells w)) l0) p0)).
  set (w' := mkWorld _ _ _ _ _ _ _ _ _ _ _).
  assert (Hl' : store w' !! l0 = Some q0)
    by (subst w'; cbn; by apply (lookup_insert_same _ _ _ _ Hl0)).
  assert (Hc' : cells w' !! length (cells w) = Some 0)
    by (subst w'; cbn; apply lookup_snoc_length).
  (* the unit after the first one, and the player behind it *)
  assert (Hidx : (if (length (players w') <=? 1)%nat then 0 else 1) = 1 mod n).
  { pose proof (next_index n 0 Hn) as Hi. by rewrite Nat.Div0.mod_0_l in Hi. }
  assert (Hnext : 1 mod n < n) by (apply Nat.mod_upper_bound; lia).
  destruct (lookup_lt_is_Some_2 (players w) _ Hnext) as [l1 Hl1].
  assert (Hlt1 : l1 < length (<[l0 := AudioPlayer.set_playing false q0]> (store w'))).
  { subst w'. cbn [store]. rewrite !length_insert. apply Hv.
    apply list_elem_of_lookup. by exists (1 mod n). }
  destruct (lookup_lt_is_Some_2 _ _ Hlt1) as [p1 Hp1].
  pose proof (ended_advance_ok w' (length (cells w)) l0 q0 0 l1 p1 Hl' eq_refl eq_refl Hc')
    as E2.
  rewrite Hidx in E2. specialize (E2 Hl1 Hp1).
  destruct (ended_of_advance w' (length (cells w)) l0 _ Hl' eq_refl eq_refl) as (Hcalls & Hkept).
  destruct (one_end_one_advance v l) as (Hle & Hone).
  split_and!; try done.
  - unfold callback_at. by rewrite Hl'.
  - by rewrite E2.
  - rewrite E2. cbn [snd cells]. subst w'. cbn [cells]. apply insert_snoc_length.
Qed.

Lemma restart_rearms_single_slot_witness :
  sources mid_playlist = Some (url_source "A" "a.mp3" ::
                               [url_source "B" "b.mp3"; url_source "C" "c.mp3"])
  /\ players mid_playlist !! 0 = Some 0
  /\ store mid_playlist !! 0 =
       Some (AudioPlayer.mk "A" false (HTMLAudioElement.mk "a.mp3" 1 false false 0)
               (Some (OnEndAdvance 0 0)))
  /\ valid_players mid_playlist
  /\ let w' := snd (step WidgetPlayAsPlaylist mid_playlist) in
     fst (step WidgetPlayAsPlaylist mid_playlist) = Ret tt
     /\ cells w' = cells mid_playlist ++ [0]
     /\ callback_at w' 0 = Some (Some (OnEndAdvance 1 0))
     /\ fst (step (Ended 0) w') = Ret tt
     /\ callbacks (snd (step (Ended 0) w')) = callbacks w' + 1
     /\ cells (snd (step (Ended 0) w')) = cells mid_playlist ++ [1].
Proof.
  assert (H1 : sources mid_playlist = Some (url_source "A" "a.mp3" ::
                 [url_source "B" "b.mp3"; url_source "C" "c.mp3"])) by reflexivity.
  assert (H2 : players mid_playlist !! 0 = Some 0) by reflexivity.
  assert (H3 : store mid_playlist !! 0 =
       Some (AudioPlayer.mk "A" false (HTMLAudioElement.mk "a.mp3" 1 false false 0)
               (Some (OnEndAdvance 0 0)))) by reflexivity.
  assert (H4 : valid_players mid_playlist).
  { intros l Hl. vm_compute in Hl.
    repeat (apply elem_of_cons in Hl as [-> | Hl]);
      [vm_compute; lia .. | by apply elem_of_nil in Hl]. }
  destruct (restart_rearms_single_slot mid_playlist mid_playlist _ _ 0 _
              (OnEndTrigger "A") (OnEndAdvance 1 0) 0 H1 H2 H3 H4)
    as (_ & _ & C3 & C4 & C5 & C6 & C7 & C8 & _).
  cbv zeta.
  split_and!; [exact H1 | exact H2 | exact H3 | exact H4 | exact C3 | exact C4
              | exact C5 | exact C6 | exact C7 | exact C8].
Defined.

(** The playlist is started again while its first run stands at B.  Two
    runs are then under way, with the cursors 1 and 0, and A and B both
    play.  If A ends first, its end moves the second run alone, to B, whose
    slot now holds the handler of the second run; the end of B moves the
    second run alone again, and the first run, whose handler was replaced,
    never advances.  If B ends first, its end moves the first run alone, to
    C, and the end of A then moves the second run alone, to B.  Either way
    each end calls one callback and moves one cursor. *)
Example restart_mid_playlist :
  cells (snd (run [WidgetPlayAsPlaylist] mid_playlist)) = [1; 0]
  /\ cells (snd (run [WidgetPlayAsPlaylist; Ended 0] mid_playlist)) = [1; 1]
  /\ callback_at (snd (run [WidgetPlayAsPlaylist; Ended 0] mid_playlist)) 1
     = Some (Some (OnEndAdvance 1 1))
  /\ cells (snd (run [WidgetPlayAsPlaylist; Ended 0; Ended 1] mid_playlist)) = [1; 2]
  /\ callbacks (snd (run [WidgetPlayAsPlaylist; Ended 0; Ended 1] mid_playlist))
     = callbacks mid_playlist + 2
  /\ cells (snd (run [WidgetPlayAsPlaylist; Ended 1] mid_playlist)) = [2; 0]
  /\ cells (snd (run [WidgetPlayAsPlaylist; Ended 1; Ended 0] mid_playlist)) = [2; 1]
  /\ callbacks (snd (run [WidgetPlayAsPlaylist; Ended 1; Ended 0] mid_playlist))
     = callbacks mid_playlist + 2.
Proof. split_and!; reflexivity. Qed.

(* ================================================================== *)
(** * Further properties of the code *)

(** ** Sample worlds *)

(** The references of a sample world are valid: they are listed and
    compared with the size of the store. *)
Ltac sample_valid :=
  let l := fresh "l" in
  let Hl := fresh "Hl" in
  intros l Hl; vm_compute in Hl;
  repeat (apply elem_of_cons in Hl as [-> | Hl]);
  [vm_compute; lia .. | by apply elem_of_nil in Hl].
(** ** Loops over the players *)

Lemma update_alter w l f :
  l < length (store w) ->
  update l f w = (Ret tt, set_store (alter f l (store w)) w).
Proof.
  intros Hl. destruct (lookup_lt_is_Some_2 _ _ Hl) as [p Hp].
  rewrite (update_ok _ _ _ _ Hp). do 2 f_equal.
  apply list_eq. intros i. destruct (decide (i = l)) as [->|Hne].
  - rewrite list_lookup_alter_eq, Hp. cbn. by apply (lookup_insert_same _ _ _ _ Hp).
  - by rewrite list_lookup_alter_ne, list_lookup_insert_ne.
Qed.

Lemma update_all_cons f l ls st :
  update_all f (l :: ls) st = update_all f ls (alter f l st).
Proof. reflexivity. Qed.

Lemma length_update_all f ls st : length (update_all f ls st) = length st.
Proof.
  revert st. induction ls as [|l ls IH]; intros st; [done|].
  by rewrite update_all_cons, IH, length_alter.
Qed.

Lemma for_each_update f ls w :
  (forall l, l ∈ ls -> l < length (store w)) ->
  for_each ls (fun l => update l f) w = (Ret tt, set_store (update_all f ls (store w)) w).
Proof.
  revert w. induction ls as [|l ls IH]; intros w Hv.
  - cbn. by rewrite set_store_id.
  - cbn [for_each]. rewrite update_all_cons. unfold bind.
    rewrite update_alter by (apply Hv; apply list_elem_of_here).
    rewrite IH.
    + done.
    + intros l' Hl'. cbn. rewrite length_alter. apply Hv. by apply list_elem_of_further.
Qed.

Lemma lookup_update_all_notin f ls st l :
  l ∉ ls -> update_all f ls st !! l = st !! l.
Proof.
  revert st. induction ls as [|l' ls IH]; intros st Hl; [done|].
  apply not_elem_of_cons in Hl as [Hne Hl].
  rewrite update_all_cons, IH by done. by rewrite list_lookup_alter_ne.
Qed.

Lemma lookup_update_all_in f ls st l :
  (forall p, f (f p) = f p) ->
  l ∈ ls -> update_all f ls st !! l = f <$> st !! l.
Proof.
  intros Hf. revert st. induction ls as [|l' ls IH]; intros st Hl.
  - by apply elem_of_nil in Hl.
  - rewrite update_all_cons. destruct (decide (l ∈ ls)) as [Hin|Hnin].
    + rewrite IH by done. destruct (decide (l' = l)) as [->|Hne].
      * rewrite list_lookup_alter_eq. destruct (st !! l); cbn; [by rewrite Hf | done].
      * by rewrite list_lookup_alter_ne.
    + apply elem_of_cons in Hl as [->|Hl]; [|done].
      rewrite (lookup_update_all_notin f ls _ l') by done.
      by rewrite list_lookup_alter_eq.
Qed.

Lemma stop_idempotent p : AudioPlayer.stop (AudioPlayer.stop p) = AudioPlayer.stop p.
Proof. reflexivity. Qed.

Lemma destroy_idempotent p : AudioPlayer.destroy (AudioPlayer.destroy p) = AudioPlayer.destroy p.
Proof. reflexivity. Qed.

Lemma lookup_update_all f ls st l :
  (forall p, f (f p) = f p) ->
  update_all f ls st !! l = if bool_decide (l ∈ ls) then f <$> st !! l else st !! l.
Proof.
  intros Hf. case_bool_decide.
  - by apply lookup_update_all_in.
  - by apply lookup_update_all_notin.
Qed.

Lemma update_all_idempotent f ls st :
  (forall p, f (f p) = f p) ->
  update_all f ls (update_all f ls st) = update_all f ls st.
Proof.
  intros Hf. apply list_eq. intros l. rewrite !lookup_update_all by done.
  case_bool_decide; [|done]. destruct (st !! l); cbn; [by rewrite Hf | done].
Qed.

Lemma stopAll_ok w :
  valid_players w ->
  step WidgetStopAll w =
    (Ret tt, set_store (update_all AudioPlayer.stop (players w) (store w)) w).
Proof.
  intros Hv. cbn [step]. unfold AudioPlayerWidget.stopAll, bind. cbn [get].
  by apply for_each_update.
Qed.

(** X1.  The action effect 'Stop all audio' raises no fault and has no effect on
    the outside; afterwards every managed player is as [stop()] leaves it
    (not playing, paused, at position 0), every other player is untouched,
    and the effect run a second time changes nothing. *)
Theorem stop_all_stops_every_player (w : world) :
  valid_players w ->
  let w' := snd (step WidgetStopAll w) in
  fst (step WidgetStopAll w) = Ret tt
  /\ (forall l, player_at w' l =
        if bool_decide (l ∈ players w) then AudioPlayer.stop <$> player_at w l
        else player_at w l)
  /\ Forall (fun l => playing_at w' l = Some false) (players w)
  /\ trace w' = trace w
  /\ players w' = players w
  /\ plays w' = plays w
  /\ cells w' = cells w
  /\ step WidgetStopAll w' = (Ret tt, w').
Proof.
  intros Hv. cbn zeta. rewrite (stopAll_ok w Hv). cbn [fst snd].
  split_and!; try done.
  - intros l. unfold player_at. cbn [store set_store].
    by apply lookup_update_all.
  - apply Forall_forall. intros l Hl. unfold playing_at. cbn [store set_store].
    rewrite lookup_update_all_in by done.
    destruct (lookup_lt_is_Some_2 _ _ (Hv l Hl)) as [p ->]. done.
  - rewrite stopAll_ok.
    + cbn [players store set_store]. by rewrite update_all_idempotent.
    + intros l Hl. cbn. rewrite length_update_all. by apply Hv.
Qed.

Lemma destroyPlayers_ok w :
  valid_players w ->
  step WidgetDestroy w =
    (Ret tt,
     set_players [] (set_store (update_all AudioPlayer.destroy (players w) (store w)) w)).
Proof.
  intros Hv. cbn [step]. unfold AudioPlayerWidget.destroyPlayers. unfold bind at 1.
  cbn [get]. unfold bind. by rewrite for_each_update.
Qed.

(** X2.  Destroying the widget raises no fault; every player it managed is as
    [destroy()] leaves it, every other player is untouched, and the widget
    manages no player any more: [play(id)] and [stop(id)] then only log
    that no player was found, whatever the identifier. *)
Theorem widget_destroy_releases_players (w : world) (id : string) (loop : bool) :
  valid_players w ->
  let w' := snd (step WidgetDestroy w) in
  fst (step WidgetDestroy w) = Ret tt
  /\ players w' = []
  /\ (forall l, player_at w' l =
        if bool_decide (l ∈ players w) then AudioPlayer.destroy <$> player_at w l
        else player_at w l)
  /\ Forall (fun l => playing_at w' l = Some false /\ callback_at w' l = Some None
                      /\ volume_at w' l = Some 0%Q) (players w)
  /\ trace w' = trace w
  /\ step (WidgetPlay id loop) w' =
       (Ret tt, set_trace (trace w' ++ [AnalyticsDebug "play";
                                        AnalyticsError "No audio player found with ID" id]) w')
  /\ step (WidgetStop id) w' =
       (Ret tt, set_trace (trace w' ++ [AnalyticsDebug "stop";
                                        AnalyticsError "No audio player found with ID" id]) w').
Proof.
  intros Hv. cbn zeta. rewrite (destroyPlayers_ok w Hv). cbn [fst snd].
  set (w' := set_players [] _).
  assert (Hun : unmanaged id w') by (intros l p Hl; by apply elem_of_nil in Hl).
  split_and!; try done.
  - intros l. unfold player_at. cbn [store set_store set_players w'].
    by apply lookup_update_all.
  - apply Forall_forall. intros l Hl.
    unfold playing_at, callback_at, volume_at. cbn [store set_store set_players w'].
    rewrite lookup_update_all_in by done.
    destruct (lookup_lt_is_Some_2 _ _ (Hv l Hl)) as [p ->]. done.
  - unfold step, AudioPlayerWidget.play, bind. rewrite emit_eq.
    rewrite find_player_unmanaged by done. rewrite emit_eq. cbn.
    by rewrite <- app_assoc.
  - unfold step, AudioPlayerWidget.stop, bind. rewrite emit_eq.
    rewrite find_player_unmanaged by done. rewrite emit_eq. cbn.
    by rewrite <- app_assoc.
Qed.

Lemma stop_all_stops_every_player_witness :
  valid_players playing_first
  /\ fst (step WidgetStopAll playing_first) = Ret tt
  /\ playing_at playing_first 0 = Some true
  /\ Forall (fun l => playing_at (snd (step WidgetStopAll playing_first)) l = Some false)
       (players playing_first)
  /\ trace (snd (step WidgetStopAll playing_first)) = trace playing_first.
Proof.
  assert (H : valid_players playing_first) by sample_valid.
  destruct (stop_all_stops_every_player playing_first H) as (C1 & _ & C3 & C4 & _).
  split_and!; [exact H | exact C1 | reflexivity | exact C3 | exact C4].
Defined.

Lemma widget_destroy_releases_players_witness :
  valid_players playing_first
  /\ fst (step WidgetDestroy playing_first) = Ret tt
  /\ players (snd (step WidgetDestroy playing_first)) = []
  /\ Forall (fun l => playing_at (snd (step WidgetDestroy playing_first)) l = Some false
                      /\ callback_at (snd (step WidgetDestroy playing_first)) l = Some None
                      /\ volume_at (snd (step WidgetDestroy playing_first)) l = Some 0%Q)
       (players playing_first).
Proof.
  assert (H : valid_players playing_first) by sample_valid.
  destruct (widget_destroy_releases_players playing_first "A" false H)
    as (C1 & C2 & _ & C4 & _).
  split_and!; [exact H | exact C1 | exact C2 | exact C4].
Defined.

(** ** Addressing a player by its identifier *)

Lemma find_player_first id w l :
  first_with id w l -> find_player id w = (Ret (Some l), w).
Proof.
  intros (ps1 & ps2 & Hps & Hnot & Hid). unfold find_player, bind, get, ret.
  rewrite Hps. do 2 f_equal. clear Hps.
  induction ps1 as [|l' ps1 IH]; cbn.
  - destruct (store w !! l) as [p|]; [|done]. injection Hid as <-.
    by rewrite String.eqb_refl.
  - apply Forall_cons in Hnot as [Hne Hnot]. unfold unit_id in Hne.
    destruct (store w !! l') as [p'|]; cbn in *; [|by apply IH].
    apply String.eqb_neq in Hne. rewrite Hne. by apply IH.
Qed.

Lemma find_player_cases id w :
  find_player id w = (Ret None, w)
  \/ exists l p,
       find_player id w = (Ret (Some l), w)
       /\ l ∈ players w /\ store w !! l = Some p /\ AudioPlayer.id p = id.
Proof.
  unfold find_player, bind, get, ret.
  destruct (List.find _ (players w)) as [l|] eqn:E; [right | by left].
  apply List.find_some in E as [Hin Hp].
  destruct (store w !! l) as [p|] eqn:Hl; [|done].
  exists l, p. split_and!; try done.
  - by apply list_elem_of_In.
  - by apply String.eqb_eq.
Qed.

Lemma widget_stop_found w id l p :
  find_player id w = (Ret (Some l), w) ->
  store w !! l = Some p ->
  step (WidgetStop id) w =
    (Ret tt, set_trace (trace w ++ [AnalyticsDebug "stop"])
               (set_store (<[l := AudioPlayer.stop p]> (store w)) w)).
Proof.
  intros Hf Hl. unfold step, AudioPlayerWidget.stop, bind. rewrite emit_eq.
  unfold find_player, bind, get, ret in Hf |- *. cbn [players store set_trace].
  injection Hf as ->. by rewrite (update_ok _ l p).
Qed.

Lemma widget_play_found w id loop l p :
  find_player id w = (Ret (Some l), w) ->
  store w !! l = Some p ->
  step (WidgetPlay id loop) w =
    (Ret tt,
     {| store := <[l := AudioPlayer.play_head loop
                           (if AudioPlayer.playing p then AudioPlayer.rewind p else p)]>
                   (store w);
        players := players w; sources := sources w; autoStart := autoStart w;
        inits := inits w; haptic_actionTriggers := haptic_actionTriggers w;
        haptic_actionEffects := haptic_actionEffects w;
        assets := assets w; cells := cells w;
        plays := plays w ++ [mkActivation l AwaitPlay];
        trace := trace w ++ [AnalyticsDebug "play"; PlayCalled l loop;
                             AudioPlay (length (plays w)) l] |}).
Proof.
  intros Hf Hl. unfold step, AudioPlayerWidget.play. unfold bind at 1. rewrite emit_eq.
  unfold bind at 1.
  unfold find_player, bind, get, ret in Hf |- *. cbn [players store set_trace].
  injection Hf as ->.
  rewrite (deref_ok _ l p) by done.
  destruct (AudioPlayer.playing p) eqn:Hp.
  - rewrite (update_ok _ l p) by done.
    rewrite (play_ok _ l (AudioPlayer.rewind p) loop)
      by (cbn; by apply (lookup_insert_same _ _ _ _ Hl)).
    cbn. by rewrite list_insert_insert_eq, <- app_assoc.
  - rewrite (play_ok _ l p loop) by done. cbn. by rewrite <- app_assoc.
Qed.

(** X3.  [stop(id)] of the widget, when a managed player carries the
    identifier: no fault; the first such player is stopped; nothing else
    changes, not even a later player with the same identifier; the debug
    line is the only effect. *)
Theorem widget_stop_first_match (w : world) (id : string) (l : loc) (p : AudioPlayer.t) :
  first_with id w l ->
  store w !! l = Some p ->
  let w' := snd (step (WidgetStop id) w) in
  step (WidgetStop id) w =
    (Ret tt, set_trace (trace w ++ [AnalyticsDebug "stop"])
               (set_store (<[l := AudioPlayer.stop p]> (store w)) w))
  /\ (forall l', player_at w' l' =
        if bool_decide (l' = l) then Some (AudioPlayer.stop p) else player_at w l')
  /\ playing_at w' l = Some false
  /\ plays w' = plays w
  /\ callbacks w' = callbacks w.
Proof.
  intros Hf Hl. cbn zeta.
  pose proof (widget_stop_found w id l p (find_player_first id w l Hf) Hl) as E.
  rewrite E. cbn [snd]. split_and!; try done.
  - intros l'. unfold player_at. cbn [store set_store set_trace].
    case_bool_decide as Hd.
    + subst l'. by apply (lookup_insert_same _ _ _ _ Hl).
    + by rewrite list_lookup_insert_ne.
  - unfold playing_at. cbn [store set_store set_trace].
    by rewrite (lookup_insert_same _ _ _ _ Hl).
  - unfold callbacks. cbn -[count]. rewrite count_snoc. cbn. lia.
Qed.

(** X4.  [play(id, loop)] of the widget, when a managed player carries the
    identifier: no fault; the first such player is rewound to the start if
    its playing flag was set and left at its position otherwise, then
    played: flag set, [loop] as asked, one new activation with one
    attempt.  No other player changes and no callback is called. *)
Theorem widget_play_first_match
    (w : world) (id : string) (loop : bool) (l : loc) (p : AudioPlayer.t) :
  first_with id w l ->
  store w !! l = Some p ->
  let w' := snd (step (WidgetPlay id loop) w) in
  let p' := AudioPlayer.play_head loop
              (if AudioPlayer.playing p then AudioPlayer.rewind p else p) in
  fst (step (WidgetPlay id loop) w) = Ret tt
  /\ (forall l', player_at w' l' = if bool_decide (l' = l) then Some p' else player_at w l')
  /\ AudioPlayer.playing p' = true
  /\ HTMLAudioElement.loop (AudioPlayer.audio p') = loop
  /\ HTMLAudioElement.currentTime (AudioPlayer.audio p') =
       (if AudioPlayer.playing p then 0%Q
        else HTMLAudioElement.currentTime (AudioPlayer.audio p))
  /\ plays w' = plays w ++ [mkActivation l AwaitPlay]
  /\ trace w' = trace w ++ [AnalyticsDebug "play"; PlayCalled l loop;
                            AudioPlay (length (plays w)) l].
Proof.
  intros Hf Hl. cbn zeta.
  pose proof (widget_play_found w id loop l p (find_player_first id w l Hf) Hl) as E.
  rewrite E. cbn [fst snd]. split_and!; try done.
  - intros l'. unfold player_at. cbn [store]. case_bool_decide as Hd.
    + subst l'. by apply (lookup_insert_same _ _ _ _ Hl).
    + by rewrite list_lookup_insert_ne.
  - by destruct (AudioPlayer.playing p).
Qed.

Lemma widget_stop_first_match_witness :
  first_with "A" playing_first 0
  /\ store playing_first !! 0 =
       Some (AudioPlayer.play_head false
               (AudioPlayer.mk "A" false (HTMLAudioElement.Audio "a.mp3")
                  (Some (OnEndTrigger "A"))))
  /\ playing_at (snd (step (WidgetStop "A") playing_first)) 0 = Some false
  /\ plays (snd (step (WidgetStop "A") playing_first)) = plays playing_first.
Proof.
  assert (H1 : first_with "A" playing_first 0).
  { exists [], [1; 2]. split_and!; [reflexivity | apply Forall_nil_2 | reflexivity]. }
  assert (H2 : store playing_first !! 0 =
       Some (AudioPlayer.play_head false
               (AudioPlayer.mk "A" false (HTMLAudioElement.Audio "a.mp3")
                  (Some (OnEndTrigger "A"))))) by reflexivity.
  destruct (widget_stop_first_match playing_first "A" 0 _ H1 H2) as (_ & _ & C3 & C4 & _).
  split_and!; [exact H1 | exact H2 | exact C3 | exact C4].
Defined.

Lemma widget_play_first_match_witness :
  first_with "B" three_units 1
  /\ store three_units !! 1 =
       Some (AudioPlayer.mk "B" false (HTMLAudioElement.Audio "b.mp3")
               (Some (OnEndTrigger "B")))
  /\ fst (step (WidgetPlay "B" true) three_units) = Ret tt
  /\ plays (snd (step (WidgetPlay "B" true) three_units))
     = plays three_units ++ [mkActivation 1 AwaitPlay]
  /\ trace (snd (step (WidgetPlay "B" true) three_units))
     = trace three_units ++ [AnalyticsDebug "play"; PlayCalled 1 true;
                             AudioPlay (length (plays three_units)) 1].
Proof.
  assert (H1 : first_with "B" three_units 1).
  { exists [0], [2]. split_and!; [reflexivity | | reflexivity].
    apply Forall_cons_2; [|apply Forall_nil_2]. intros H. vm_compute in H. discriminate. }
  assert (H2 : store three_units !! 1 =
       Some (AudioPlayer.mk "B" false (HTMLAudioElement.Audio "b.mp3")
               (Some (OnEndTrigger "B")))) by reflexivity.
  destruct (widget_play_first_match three_units "B" true 1 _ H1 H2)
    as (C1 & _ & _ & _ & _ & C6 & C7).
  split_and!; [exact H1 | exact H2 | exact C1 | exact C6 | exact C7].
Defined.

(** ** References stay valid *)

Section WellFormed.
Context (n : nat).
Abbreviation Sound := (fun v => well_formed v /\ n <= length (store v)).

Lemma sound_emit e : stable Sound (emit e).
Proof. by intros w H. Qed.

Lemma sound_update l f : stable Sound (update l f).
Proof.
  unfold update. stable_go. apply stable_modify.
  intros w ((Hv & Ha) & Hn). split; [split|].
  - intros l' Hl'. cbn. rewrite length_insert. by apply Hv.
  - intros k b Hk. cbn. rewrite length_insert. by apply (Ha k).
  - cbn. by rewrite length_insert.
Qed.

Lemma sound_write c v : stable Sound (write_cell c v).
Proof. by apply stable_modify. Qed.

Lemma sound_set_phase k ph : stable Sound (set_phase k ph).
Proof.
  intros w ((Hv & Ha) & Hn). unfold set_phase, modify. cbn.
  destruct (plays w !! k) as [a|] eqn:Hk; [|done].
  split; [split|]; try done.
  intros k' b Hk'. cbn in *. destruct (decide (k' = k)) as [->|Hne].
  - rewrite (lookup_insert_same _ _ _ _ Hk) in Hk'. injection Hk' as <-. cbn. by apply (Ha k).
  - rewrite list_lookup_insert_ne in Hk' by done. by apply (Ha k').
Qed.

Lemma sound_attempt k l : stable Sound (attemptPlay k l).
Proof. unfold attemptPlay. stable_go; [apply sound_emit | apply sound_set_phase]. Qed.

Lemma sound_play l loop : stable Sound (play l loop).
Proof.
  intros w H. unfold play, bind. rewrite emit_eq.
  assert (H0 : Sound (set_trace (trace w ++ [PlayCalled l loop]) w)) by done.
  revert H0. generalize (set_trace (trace w ++ [PlayCalled l loop]) w). clear w H.
  intros w H. destruct (store w !! l) as [p|] eqn:Hl.
  - rewrite (update_ok _ _ _ _ Hl). unfold spawn.
    set (w1 := set_plays _ _).
    assert (H1 : Sound w1).
    { destruct H as ((Hv & Ha) & Hn). subst w1. split; [split|].
      - intros l' Hl'. cbn. rewrite length_insert. by apply Hv.
      - intros k b Hk. cbn in *. rewrite length_insert.
        apply lookup_app_Some in Hk as [Hk | [_ Hk]]; [by apply (Ha k)|].
        apply list_lookup_singleton_Some in Hk as [_ <-]. cbn.
        by apply lookup_lt_Some in Hl.
      - cbn. by rewrite length_insert. }
    pose proof (sound_attempt (length (plays (set_store (<[l:=AudioPlayer.play_head loop p]> (store w)) w))) l w1 H1) as H2.
    destruct (attemptPlay _ _ w1) as [[[]|e] w2]; done.
  - unfold update, bind, deref. by rewrite Hl.
Qed.

Lemma sound_do_call c : stable Sound (do_call c).
Proof.
  apply (stable_do_call Sound); auto using sound_update, sound_play.
  all: intros e _; apply sound_emit.
Qed.

Lemma sound_playNext c : stable Sound (playNext c).
Proof.
  apply (stable_playNext Sound (fun _ => True));
    auto using sound_update, sound_play, sound_write.
  all: intros e _; apply sound_emit.
Qed.

Lemma sound_ended_listener l : stable Sound (ended_listener l).
Proof.
  apply (stable_ended_listener Sound (fun _ => True));
    auto using sound_update, sound_play, sound_write, sound_emit.
  all: intros e _; apply sound_emit.
Qed.

Ltac sound_leaf :=
  match goal with
  | |- stable _ (update _ _) => apply sound_update
  | |- stable _ (write_cell _ _) => apply sound_write
  | |- stable _ (set_phase _ _) => apply sound_set_phase
  | |- stable _ (attemptPlay _ _) => apply sound_attempt
  | |- stable _ (emit _) => apply sound_emit
  | |- stable _ (play _ _) => apply sound_play
  | |- stable _ (playNext _) => apply sound_playNext
  | |- stable _ (find_player _) => by intros w H
  | |- stable _ (new_cell _) => by intros w H
  | |- stable _ (activation_of _) => by intros w H
  end.

Lemma sound_frame w w' :
  store w' = store w -> players w' = players w -> plays w' = plays w ->
  trace w' = trace w -> Sound w -> Sound w'.
Proof.
  intros Hs Hp Hk _. unfold well_formed, valid_players. by rewrite Hs, Hp, Hk.
Qed.

Lemma sound_no_players : stable Sound (modify (set_players [])).
Proof.
  apply stable_modify. intros w ((Hv & Ha) & Hn). split; [split|]; try done.
  intros l Hl. by apply elem_of_nil in Hl.
Qed.

Lemma sound_new_player s url : stable Sound (AudioPlayerWidget.new_player s url).
Proof.
  unfold AudioPlayerWidget.new_player.
  destruct (AudioPlayer.constructor url _) as [p|e];
    [|apply stable_bind; [apply sound_emit | intros _; apply stable_ret]].
  intros w ((Hv & Ha) & Hn). unfold bind, alloc, modify. cbn.
  split; [split|].
  - intros l Hl. cbn in *. rewrite length_app. cbn.
    apply elem_of_app in Hl as [Hl | Hl]; [specialize (Hv l Hl); lia|].
    apply list_elem_of_singleton in Hl as ->. lia.
  - intros k b Hk. cbn in *. rewrite length_app. cbn.
    specialize (Ha k b Hk). lia.
  - cbn. rewrite length_app. lia.
Qed.

Lemma sound_play_settled k r : stable Sound (play_settled k r).
Proof. unfold play_settled. stable_go; sound_leaf. Qed.

Lemma sound_timer_fired k : stable Sound (timer_fired k).
Proof. unfold timer_fired. stable_go; sound_leaf. Qed.

Lemma sound_run es w : Sound w -> Sound (snd (run es w)).
Proof.
  apply stable_run;
    [apply sound_frame | apply sound_update | intros e _; apply sound_emit
    | intros l; apply sound_emit | apply sound_play | apply sound_new_player
    | apply sound_no_players | apply sound_play_settled | apply sound_timer_fired].
Qed.

End WellFormed.

Lemma boot_well_formed srcs auto files : well_formed (boot srcs auto files).
Proof.
  split.
  - intros l Hl. by apply elem_of_nil in Hl.
  - intros k a Hk. done.
Qed.

(** X5.  Whatever events occur, every reference the widget holds in
    [this.players], and the player of every activation of [play()], stays
    a reference to a constructed player, and no player is ever dropped
    from the store; this holds from the freshly loaded widget on. *)
Theorem references_stay_valid
    (w : world) (es : list event)
    (srcs : list AudioSource.t) (auto : bool) (files : list (string * string)) :
  well_formed w ->
  well_formed (snd (run es w))
  /\ length (store w) <= length (store (snd (run es w)))
  /\ well_formed (snd (run es (boot srcs auto files))).
Proof.
  intros H.
  destruct (sound_run (length (store w)) es w (conj H (le_n _))) as [H1 H2].
  destruct (sound_run 0 es (boot srcs auto files)
              (conj (boot_well_formed srcs auto files) (Nat.le_0_l _))) as [H3 _].
  done.
Qed.

(** X6.  In a well-formed world no platform callback raises a fault: neither
    the settling of [audio.play()], fulfilled or rejected with any error,
    nor the retry timer, nor the ['ended'] event of a constructed player,
    whatever callback is registered on it. *)
Theorem platform_callbacks_never_fault
    (w : world) (k : nat) (r : option Error) (l : loc) :
  well_formed w ->
  l < length (store w) ->
  fst (step (PlaySettled k r) w) = Ret tt
  /\ fst (step (TimerFired k) w) = Ret tt
  /\ fst (step (Ended l) w) = Ret tt.
Proof.
  intros [Hv Ha] Hl. split_and!.
  - cbn [step]. destruct (plays w !! k) as [[l' ph]|] eqn:Hk.
    + destruct (lookup_lt_is_Some_2 _ _ (Ha k _ Hk)) as [p Hp]. cbn in Hp.
      destruct ph;
        try (rewrite play_settled_idle; [done | intros l''; rewrite Hk; congruence]).
      destruct r as [err|].
      * destruct (String.eqb (name err) "NotAllowedError") eqn:He.
        -- apply String.eqb_eq in He. by rewrite (play_settled_blocked w k l' err Hk He).
        -- apply String.eqb_neq in He. by rewrite (play_settled_failed w k l' p err Hk Hp He).
      * by rewrite (play_settled_fulfilled w k l' p Hk Hp).
    + rewrite play_settled_idle; [done | intros l''; by rewrite Hk].
  - cbn [step]. destruct (plays w !! k) as [[l' ph]|] eqn:Hk.
    + destruct (lookup_lt_is_Some_2 _ _ (Ha k _ Hk)) as [p Hp]. cbn in Hp.
      destruct ph;
        try (rewrite timer_fired_idle; [done | intros l''; rewrite Hk; congruence]).
      destruct (AudioPlayer.playing p) eqn:Hpl.
      * by rewrite (timer_fired_live w k l' p Hk Hp Hpl).
      * by rewrite (timer_fired_stopped w k l' p Hk Hp Hpl).
    + rewrite timer_fired_idle; [done | intros l''; by rewrite Hk].
  - cbn [step]. destruct (lookup_lt_is_Some_2 _ _ Hl) as [p Hp].
    destruct (AudioPlayer.playing p) eqn:Hpl.
    + destruct (AudioPlayer.onEndCallback p) as [cb|] eqn:Hcb.
      * rewrite (ended_listener_fires w l p cb Hp Hpl Hcb). unfold try_catch.
        by destruct ((emit (CallbackInvoked l) >> invoke cb) _) as [[[]|e] w2].
      * unfold ended_listener. unfold bind at 1.
        rewrite (deref_ok _ _ _ Hp), Hpl. cbn [negb]. unfold bind at 1.
        rewrite (update_ok _ _ _ _ Hp). unfold bind at 1.
        rewrite (deref_ok _ _ (AudioPlayer.set_playing false p))
          by (cbn; by apply (lookup_insert_same _ _ _ _ Hp)).
        cbn [AudioPlayer.onEndCallback AudioPlayer.set_playing]. by rewrite Hcb.
    + by rewrite (ended_listener_idle w l p Hp Hpl).
Qed.

(** X7.  With valid references in [this.players], the widget's own entry points
    never raise a fault: [play(id, loop)] and [stop(id)] for any
    identifier, known or not, 'Stop all audio', and the release of the
    players in [destroy()]. *)
Theorem widget_entry_points_never_fault (w : world) (id : string) (loop : bool) :
  valid_players w ->
  fst (step (WidgetPlay id loop) w) = Ret tt
  /\ fst (step (WidgetStop id) w) = Ret tt
  /\ fst (step WidgetStopAll w) = Ret tt
  /\ fst (step WidgetDestroy w) = Ret tt.
Proof.
  intros Hv. split_and!.
  - destruct (find_player_cases id w) as [E | (l & p & E & _ & Hl & _)].
    + unfold step, AudioPlayerWidget.play, bind. rewrite emit_eq.
      unfold find_player, bind, get, ret in E |- *. cbn [players store set_trace].
      by injection E as ->.
    + by rewrite (widget_play_found w id loop l p E Hl).
  - destruct (find_player_cases id w) as [E | (l & p & E & _ & Hl & _)].
    + unfold step, AudioPlayerWidget.stop, bind. rewrite emit_eq.
      unfold find_player, bind, get, ret in E |- *. cbn [players store set_trace].
      by injection E as ->.
    + by rewrite (widget_stop_found w id l p E Hl).
  - by rewrite (stopAll_ok w Hv).
  - by rewrite (destroyPlayers_ok w Hv).
Qed.

Lemma references_stay_valid_witness :
  well_formed retrying
  /\ well_formed (snd (run [TimerFired 0; WidgetInitialize; WidgetPlayAsPlaylist] retrying))
  /\ length (store retrying)
     <= length (store (snd (run [TimerFired 0; WidgetInitialize; WidgetPlayAsPlaylist] retrying))).
Proof.
  assert (H : well_formed retrying).
  { split; [sample_valid|]. intros k a Hk.
    destruct k as [|k]; vm_compute in Hk; [|destruct k; discriminate].
    injection Hk as <-. vm_compute. lia. }
  destruct (references_stay_valid retrying
              [TimerFired 0; WidgetInitialize; WidgetPlayAsPlaylist] [] false [] H)
    as (C1 & C2 & _).
  split_and!; [exact H | exact C1 | exact C2].
Defined.

Lemma platform_callbacks_never_fault_witness :
  well_formed retrying
  /\ 0 < length (store retrying)
  /\ fst (step (PlaySettled 0 (Some NotSupportedError)) retrying) = Ret tt
  /\ fst (step (TimerFired 0) retrying) = Ret tt
  /\ fst (step (Ended 0) retrying) = Ret tt.
Proof.
  assert (H : well_formed retrying).
  { split; [sample_valid|]. intros k a Hk.
    destruct k as [|k]; vm_compute in Hk; [|destruct k; discriminate].
    injection Hk as <-. vm_compute. lia. }
  assert (H0 : 0 < length (store retrying)) by (vm_compute; lia).
  destruct (platform_callbacks_never_fault retrying 0 (Some NotSupportedError) 0 H H0)
    as (C1 & C2 & C3).
  split_and!; [exact H | exact H0 | exact C1 | exact C2 | exact C3].
Defined.

Lemma widget_entry_points_never_fault_witness :
  valid_players three_units
  /\ fst (step (WidgetPlay "C" true) three_units) = Ret tt
  /\ fst (step (WidgetStop "Z") three_units) = Ret tt
  /\ fst (step WidgetStopAll three_units) = Ret tt
  /\ fst (step WidgetDestroy three_units) = Ret tt.
Proof.
  assert (H : valid_players three_units) by sample_valid.
  destruct (widget_entry_points_never_fault three_units "C" true H) as (C1 & _ & C3 & C4).
  destruct (widget_entry_points_never_fault three_units "Z" true H) as (_ & C2 & _).
  split_and!; [exact H | exact C1 | exact C2 | exact C3 | exact C4].
Defined.

(** ** The clamp on every number *)

Lemma clamp_finite_cases q :
  AudioPlayer.clampVolume (Finite q) = Finite 0 /\ (q <= 0)%Q
  \/ AudioPlayer.clampVolume (Finite q) = Finite 1 /\ (1 <= q)%Q
  \/ AudioPlayer.clampVolume (Finite q) = Finite q /\ (0 < q)%Q /\ (q < 1)%Q.
Proof.
  unfold AudioPlayer.clampVolume, Math_max, Math_min.
  destruct (0 ?= q)%Q eqn:E0.
  - left. apply Qeq_alt in E0. split; [reflexivity|]. rewrite <- E0. apply Qle_refl.
  - apply Qlt_alt in E0. destruct (1 ?= q)%Q eqn:E1.
    + right; left. apply Qeq_alt in E1. split; [reflexivity|]. rewrite <- E1. apply Qle_refl.
    + right; left. apply Qlt_alt in E1. split; [reflexivity|]. by apply Qlt_le_weak.
    + right; right. apply Qgt_alt in E1. by split_and!.
  - left. apply Qgt_alt in E0. split; [reflexivity|]. by apply Qlt_le_weak.
Qed.

(** X8.  [clampVolume] on every JavaScript number: clamping twice is
    clamping once; plus and minus infinity clamp to 1 and 0; NaN is not
    clamped but handed on; and on finite values the clamp is monotone with
    its values in [0, 1]. *)
Theorem clampVolume_algebra (v : number) (p q : Q) :
  (p <= q)%Q ->
  AudioPlayer.clampVolume (AudioPlayer.clampVolume v) = AudioPlayer.clampVolume v
  /\ AudioPlayer.clampVolume Infinity = Finite 1
  /\ AudioPlayer.clampVolume NegInfinity = Finite 0
  /\ AudioPlayer.clampVolume NaN = NaN
  /\ exists cp cq,
       AudioPlayer.clampVolume (Finite p) = Finite cp
       /\ AudioPlayer.clampVolume (Finite q) = Finite cq
       /\ (cp <= cq)%Q /\ (0 <= cp)%Q /\ (cq <= 1)%Q.
Proof.
  intros Hpq. split_and!; try reflexivity.
  - destruct v as [| |x|]; try reflexivity.
    destruct (clamp_finite_cases x) as [[-> _] | [[-> _] | [-> [H0 H1]]]]; try reflexivity.
    destruct (clamp_finite_cases x) as [[_ H] | [[_ H] | [-> _]]]; [| |done].
    + exfalso. by apply (Qlt_irrefl 0), (Qlt_le_trans _ x).
    + exfalso. by apply (Qlt_irrefl 1), (Qle_lt_trans _ x).
  - destruct (clamp_finite_cases p) as [[-> Hp] | [[-> Hp] | [-> [Hp0 Hp1]]]];
    destruct (clamp_finite_cases q) as [[-> Hq] | [[-> Hq] | [-> [Hq0 Hq1]]]];
      eexists _, _; (split; [reflexivity|]); (split; [reflexivity|]);
      split_and!; try done; try (by apply Qlt_le_weak).
    + exfalso. apply (Qlt_irrefl 0). apply (Qlt_le_trans _ 1); [done|].
      by apply (Qle_trans _ p), (Qle_trans _ q).
    + exfalso. apply (Qlt_irrefl q). apply (Qlt_le_trans _ 1); [done|].
      by apply (Qle_trans _ p).
    + exfalso. apply (Qlt_irrefl 0). apply (Qlt_le_trans _ p); [done|].
      by apply (Qle_trans _ q).
Qed.

Lemma clampVolume_algebra_witness :
  (1 # 4 <= 3 # 2)%Q
  /\ AudioPlayer.clampVolume (AudioPlayer.clampVolume (Finite (3 # 2)))
     = AudioPlayer.clampVolume (Finite (3 # 2))
  /\ exists cp cq,
       AudioPlayer.clampVolume (Finite (1 # 4)) = Finite cp
       /\ AudioPlayer.clampVolume (Finite (3 # 2)) = Finite cq
       /\ (cp <= cq)%Q /\ (0 <= cp)%Q /\ (cq <= 1)%Q.
Proof.
  assert (H : (1 # 4 <= 3 # 2)%Q) by (vm_compute; discriminate).
  destruct (clampVolume_algebra (Finite (3 # 2)) (1 # 4) (3 # 2) H) as (C1 & _ & _ & _ & C5).
  split_and!; [exact H | exact C1 | exact C5].
Defined.

(** ** Retry chains of any length, and what ends them *)

Lemma length_blocked_then_allowed k n err :
  length (blocked_then_allowed k n err) = S (2 * n).
Proof. induction n as [|n IH]; cbn [blocked_then_allowed length]; [done | rewrite IH; lia]. Qed.

Lemma even_double n : Nat.even (2 * n) = true.
Proof. rewrite Nat.even_mul. done. Qed.

(** X9.  The number of retries has no bound: when the platform refuses
    the first [n] attempts of a [play()] with NotAllowedError and lets the
    next one through, for any [n], no fault is raised, the promise resolves
    after [n + 1] attempts and [n] timers, all of 250 ms, with the playing
    flag set throughout; and after the [n] refusals and timers alone the
    activation has not given up: it awaits its next attempt. *)
Theorem retries_are_unbounded
    (w : world) (l : loc) (p : AudioPlayer.t) (loop : bool) (err : Error) (n : nat) :
  store w !! l = Some p ->
  name err = "NotAllowedError" ->
  let k := length (plays w) in
  let es := Call (DoPlay l loop) :: blocked_then_allowed k n err in
  let w' := snd (run es w) in
  fst (run es w) = []
  /\ phase_of w' k = Some Resolved
  /\ attempts k w' = attempts k w + S n
  /\ timeouts k w' = timeouts k w + n
  /\ backoffs k w' = backoffs k w + n
  /\ playing_at w' l = Some true
  /\ (forall i, playing_at (snd (run (take (S i) es) w)) l = Some true)
  /\ phase_of (snd (run (take (S (2 * n)) es) w)) k = Some AwaitPlay.
Proof.
  intros Hl He. cbn zeta.
  assert (E0 : step (Call (DoPlay l loop)) w =
    (Ret tt,
     {| store := <[l := AudioPlayer.play_head loop p]> (store w);
        players := players w; sources := sources w; autoStart := autoStart w;
        inits := inits w; haptic_actionTriggers := haptic_actionTriggers w;
        haptic_actionEffects := haptic_actionEffects w;
        assets := assets w; cells := cells w;
        plays := plays w ++ [mkActivation l AwaitPlay];
        trace := trace w ++ [PlayCalled l loop; AudioPlay (length (plays w)) l] |})).
  { cbn [step do_call]. unfold bind. by rewrite (play_ok w l p loop Hl). }
  set (w0 := mkWorld _ _ _ _ _ _ _ _ _ _ _) in E0.
  set (k := length (plays w)).
  assert (Hk0 : plays w0 !! k = Some (mkActivation l AwaitPlay)).
  { subst w0 k. cbn. apply lookup_snoc_length. }
  assert (Hl0 : store w0 !! l = Some (AudioPlayer.play_head loop p)).
  { subst w0. cbn. by apply (lookup_insert_same _ _ _ _ Hl). }
  destruct (retry_chain k l err He n w0 _ Hk0 Hl0 eq_refl)
    as (R1 & R2 & R3 & R4 & R5 & R6 & R7).
  assert (Ha : attempts k w0 = attempts k w + 1).
  { subst w0. unfold attempts. cbn -[count]. rewrite count_app. cbn.
    fold k. rewrite Nat.eqb_refl. cbn. lia. }
  assert (Ht : timeouts k w0 = timeouts k w).
  { subst w0. unfold timeouts. cbn -[count]. rewrite count_app. cbn. lia. }
  assert (Hb : backoffs k w0 = backoffs k w).
  { subst w0. unfold backoffs. cbn -[count]. rewrite count_app. cbn. lia. }
  rewrite (run_cons_ok (Call (DoPlay l loop)) _ _ _ E0).
  split_and!; try done; try lia.
  - unfold phase_of. by rewrite R2.
  - specialize (R6 (length (blocked_then_allowed k n err))).
    by rewrite firstn_all in R6.
  - intros i. cbn [take].
    rewrite (run_cons_ok (Call (DoPlay l loop)) _ _ _ E0). apply R6.
  - cbn [take]. rewrite (run_cons_ok (Call (DoPlay l loop)) _ _ _ E0).
    rewrite R7 by (rewrite length_blocked_then_allowed; lia).
    by rewrite even_double.
Qed.

Lemma retries_are_unbounded_witness :
  store three_units !! 0 =
    Some (AudioPlayer.mk "A" false (HTMLAudioElement.Audio "a.mp3") (Some (OnEndTrigger "A")))
  /\ name NotAllowedError = "NotAllowedError"
  /\ let es := Call (DoPlay 0 true) :: blocked_then_allowed 0 5 NotAllowedError in
     let w' := snd (run es three_units) in
     fst (run es three_units) = []
     /\ phase_of w' 0 = Some Resolved
     /\ attempts 0 w' = attempts 0 three_units + 6
     /\ timeouts 0 w' = timeouts 0 three_units + 5
     /\ phase_of (snd (run (take 11 es) three_units)) 0 = Some AwaitPlay.
Proof.
  assert (H1 : store three_units !! 0 =
    Some (AudioPlayer.mk "A" false (HTMLAudioElement.Audio "a.mp3") (Some (OnEndTrigger "A"))))
    by reflexivity.
  assert (H2 : name NotAllowedError = "NotAllowedError") by reflexivity.
  destruct (retries_are_unbounded three_units 0 _ true NotAllowedError 5 H1 H2)
    as (C1 & C2 & C3 & C4 & _ & _ & _ & C8).
  cbv zeta.
  split_and!; [exact H1 | exact H2 | exact C1 | exact C2 | exact C3 | exact C4 | exact C8].
Defined.

(** Once the playing flag of its player is clear, a retry chain ends with
    what the platform still delivers to it. *)
Lemma cleared_chain w k l q ph err :
  plays w !! k = Some (mkActivation l ph) ->
  ph = AwaitPlay \/ ph = AwaitTimer ->
  store w !! l = Some q ->
  AudioPlayer.playing q = false ->
  name err = "NotAllowedError" ->
  exists w2,
    run (remaining k ph err) w = ([], w2)
    /\ settled k l (attempts k w) (timeouts k w + remaining_backoffs ph) w2
    /\ backoffs k w2 = backoffs k w + remaining_backoffs ph
    /\ store w2 = store w.
Proof.
  intros Hk Hph Hl Hq He. destruct Hph as [-> | ->]; cbn [remaining remaining_backoffs].
  - rewrite (run_cons_ok (PlaySettled k (Some err)) _ _ _
               (play_settled_blocked w k l err Hk He)).
    erewrite (run_cons_ok (TimerFired k));
      [|eapply (timer_fired_stopped _ k l q)].
    + eexists. split; [reflexivity|]. unfold settled, attempts, timeouts, backoffs.
      cbn -[count]. rewrite !count_app. cbn. rewrite Nat.eqb_refl. cbn.
      split_and!; try done.
      rewrite list_insert_insert_eq. by apply (lookup_insert_same _ _ _ _ Hk).
    + cbn. by apply (lookup_insert_same _ _ _ _ Hk).
    + done.
    + done.
  - rewrite (run_cons_ok (TimerFired k) _ _ _
               (timer_fired_stopped w k l q Hk Hl Hq)).
    eexists. split; [reflexivity|]. unfold settled, attempts, timeouts, backoffs.
    cbn -[count]. split_and!; try done; try lia.
    by apply (lookup_insert_same _ _ _ _ Hk).
Qed.

(** What a step that leaves the activations alone, adds only quiet effects
    and clears the flag of [l] does to a retry chain on [l]. *)
Lemma reset_then_chain e w w1 k l q ph err :
  step e w = (Ret tt, w1) ->
  plays w1 = plays w ->
  attempts k w1 = attempts k w ->
  timeouts k w1 = timeouts k w ->
  store w1 !! l = Some q ->
  AudioPlayer.playing q = false ->
  plays w !! k = Some (mkActivation l ph) ->
  ph = AwaitPlay \/ ph = AwaitTimer ->
  name err = "NotAllowedError" ->
  fst (run (e :: remaining k ph err) w) = []
  /\ phase_of (snd (run (e :: remaining k ph err) w)) k = Some Resolved
  /\ attempts k (snd (run (e :: remaining k ph err) w)) = attempts k w
  /\ timeouts k (snd (run (e :: remaining k ph err) w)) = timeouts k w + remaining_backoffs ph
  /\ playing_at (snd (run (e :: remaining k ph err) w)) l = Some false.
Proof.
  intros E Hpl Ha Ht Hl Hq Hk Hph He.
  rewrite (run_cons_ok e _ _ _ E). rewrite <- Hpl in Hk.
  destruct (cleared_chain w1 k l q ph err Hk Hph Hl Hq He)
    as (w2 & -> & (H1 & H2 & H3) & _ & Hst).
  cbn [fst snd]. unfold phase_of, playing_at. rewrite H1, Hst, Hl. cbn. rewrite Hq.
  split_and!; try done; congruence.
Qed.

(** X10.  Not only [stop()] ends a retry chain.  Activation [k] of [play()]
    on the managed player [l] is in flight and the platform refuses its
    attempts.  After [destroy()] on the player, [stop(id)] of the widget
    with the player's identifier, 'Stop all audio', or the destruction of
    the widget, what the platform still delivers runs without a fault, the
    activation resolves without a further attempt and with at most the one
    timer of the attempt that was pending, and the playing flag is
    clear. *)
Theorem every_reset_ends_retry_chain
    (w : world) (k : nat) (l : loc) (p : AudioPlayer.t) (ph : phase) (err : Error)
    (id : string) :
  valid_players w ->
  first_with id w l ->
  plays w !! k = Some (mkActivation l ph) ->
  ph = AwaitPlay \/ ph = AwaitTimer ->
  store w !! l = Some p ->
  name err = "NotAllowedError" ->
  Forall (fun e =>
      fst (run (e :: remaining k ph err) w) = []
      /\ phase_of (snd (run (e :: remaining k ph err) w)) k = Some Resolved
      /\ attempts k (snd (run (e :: remaining k ph err) w)) = attempts k w
      /\ timeouts k (snd (run (e :: remaining k ph err) w))
         = timeouts k w + remaining_backoffs ph
      /\ playing_at (snd (run (e :: remaining k ph err) w)) l = Some false)
    [Call (DoDestroy l); WidgetStop id; WidgetStopAll; WidgetDestroy].
Proof.
  intros Hv Hf Hk Hph Hl He.
  assert (Hin : l ∈ players w).
  { destruct Hf as (ps1 & ps2 & -> & _). apply elem_of_app. right. apply list_elem_of_here. }
  repeat apply Forall_cons_2; [| | | | apply Forall_nil_2].
  - apply (reset_then_chain _ w (set_store (<[l := AudioPlayer.destroy p]> (store w)) w)
             k l (AudioPlayer.destroy p)); try done.
    + cbn [step do_call]. by apply update_ok.
    + cbn. by apply (lookup_insert_same _ _ _ _ Hl).
  - apply (reset_then_chain _ w
             (set_trace (trace w ++ [AnalyticsDebug "stop"])
                (set_store (<[l := AudioPlayer.stop p]> (store w)) w))
             k l (AudioPlayer.stop p)); try done.
    + by apply (widget_stop_found w id l p (find_player_first id w l Hf) Hl).
    + unfold attempts. cbn -[count]. rewrite count_snoc. cbn. lia.
    + unfold timeouts. cbn -[count]. rewrite count_snoc. cbn. lia.
    + cbn. by apply (lookup_insert_same _ _ _ _ Hl).
  - apply (reset_then_chain _ w
             (set_store (update_all AudioPlayer.stop (players w) (store w)) w)
             k l (AudioPlayer.stop p)); try done.
    + by apply stopAll_ok.
    + cbn. rewrite lookup_update_all_in by done. by rewrite Hl.
  - apply (reset_then_chain _ w
             (set_players [] (set_store (update_all AudioPlayer.destroy (players w) (store w)) w))
             k l (AudioPlayer.destroy p)); try done.
    + by apply destroyPlayers_ok.
    + cbn. rewrite lookup_update_all_in by done. by rewrite Hl.
Qed.

(** X11.  Nothing but the playing flag is looked at by the retry: with the
    timer of activation [k] running and the flag of its player set,
    [pause()], [rewind()], [setVolume(v)] or a new end callback leave the
    chain alive.  The timer then makes the next attempt, and when the
    platform lets that attempt through the promise resolves and the
    element plays, a [pause()] made in between notwithstanding. *)
Theorem only_the_flag_ends_a_chain
    (w : world) (k : nat) (l : loc) (p : AudioPlayer.t) (v : Q) (cb : callback) :
  plays w !! k = Some (mkActivation l AwaitTimer) ->
  store w !! l = Some p ->
  AudioPlayer.playing p = true ->
  Forall (fun e =>
      fst (run [e; TimerFired k; PlaySettled k None] w) = []
      /\ phase_of (snd (run [e; TimerFired k] w)) k = Some AwaitPlay
      /\ attempts k (snd (run [e; TimerFired k] w)) = attempts k w + 1
      /\ phase_of (snd (run [e; TimerFired k; PlaySettled k None] w)) k = Some Resolved
      /\ playing_at (snd (run [e; TimerFired k; PlaySettled k None] w)) l = Some true
      /\ (fun q => HTMLAudioElement.paused (AudioPlayer.audio q))
           <$> player_at (snd (run [e; TimerFired k; PlaySettled k None] w)) l = Some false)
    [Call (DoPause l); Call (DoRewind l); Call (DoSetVolume l (Finite v));
     CallRegisterOnEndCallback l cb].
Proof.
  intros Hk Hl Hp.
  assert (Hgen : forall e q,
    step e w = (Ret tt, set_store (<[l := q]> (store w)) w) ->
    AudioPlayer.playing q = true ->
    fst (run [e; TimerFired k; PlaySettled k None] w) = []
    /\ phase_of (snd (run [e; TimerFired k] w)) k = Some AwaitPlay
    /\ attempts k (snd (run [e; TimerFired k] w)) = attempts k w + 1
    /\ phase_of (snd (run [e; TimerFired k; PlaySettled k None] w)) k = Some Resolved
    /\ playing_at (snd (run [e; TimerFired k; PlaySettled k None] w)) l = Some true
    /\ (fun q => HTMLAudioElement.paused (AudioPlayer.audio q))
         <$> player_at (snd (run [e; TimerFired k; PlaySettled k None] w)) l = Some false).
  { intros e q E Hq.
    rewrite !(run_cons_ok e _ _ _ E).
    set (w1 := set_store (<[l := q]> (store w)) w).
    assert (Hl1 : store w1 !! l = Some q) by (cbn; by apply (lookup_insert_same _ _ _ _ Hl)).
    assert (Hk1 : plays w1 !! k = Some (mkActivation l AwaitTimer)) by done.
    pose proof (timer_fired_live w1 k l q Hk1 Hl1 Hq) as E2.
    rewrite !(run_cons_ok (TimerFired k) _ _ _ E2).
    set (w2 := set_plays _ _) in *.
    assert (Hl2 : store w2 !! l = Some q) by done.
    assert (Hk2 : plays w2 !! k = Some (mkActivation l AwaitPlay)).
    { cbn. by apply (lookup_insert_same _ _ _ _ Hk). }
    rewrite !(run_cons_ok (PlaySettled k None) _ _ _
                (play_settled_fulfilled w2 k l q Hk2 Hl2)).
    cbn [run fst snd]. unfold phase_of, playing_at, player_at, attempts.
    rewrite Hk2. cbn -[count]. rewrite count_snoc. cbn. rewrite Nat.eqb_refl.
    rewrite list_insert_insert_eq, (lookup_insert_same _ _ _ _ Hk).
    rewrite list_insert_insert_eq, (lookup_insert_same _ _ _ _ Hl). cbn.
    by rewrite Hq. }
  repeat apply Forall_cons_2; [| | | | apply Forall_nil_2].
  - apply (Hgen _ (AudioPlayer.pause p)); [|done].
    cbn [step do_call]. by apply update_ok.
  - apply (Hgen _ (AudioPlayer.rewind p)); [|done].
    cbn [step do_call]. by apply update_ok.
  - eapply (Hgen _ _).
    + cbn [step do_call]. unfold bind. rewrite (deref_ok _ _ _ Hl).
      rewrite setVolume_finite. by apply update_ok.
    + done.
  - apply (Hgen _ (AudioPlayer.registerOnEndCallback cb p)); [|done].
    cbn [step]. by apply update_ok.
Qed.

Lemma every_reset_ends_retry_chain_witness :
  valid_players retrying
  /\ first_with "A" retrying 0
  /\ plays retrying !! 0 = Some (mkActivation 0 AwaitTimer)
  /\ (AwaitTimer = AwaitPlay \/ AwaitTimer = AwaitTimer)
  /\ store retrying !! 0 =
       Some (AudioPlayer.play_head false
               (AudioPlayer.mk "A" false (HTMLAudioElement.Audio "a.mp3")
                  (Some (OnEndTrigger "A"))))
  /\ name NotAllowedError = "NotAllowedError"
  /\ Forall (fun e =>
       fst (run (e :: remaining 0 AwaitTimer NotAllowedError) retrying) = []
       /\ phase_of (snd (run (e :: remaining 0 AwaitTimer NotAllowedError) retrying)) 0
          = Some Resolved
       /\ attempts 0 (snd (run (e :: remaining 0 AwaitTimer NotAllowedError) retrying))
          = attempts 0 retrying
       /\ timeouts 0 (snd (run (e :: remaining 0 AwaitTimer NotAllowedError) retrying))
          = timeouts 0 retrying + remaining_backoffs AwaitTimer
       /\ playing_at (snd (run (e :: remaining 0 AwaitTimer NotAllowedError) retrying)) 0
          = Some false)
     [Call (DoDestroy 0); WidgetStop "A"; WidgetStopAll; WidgetDestroy].
Proof.
  assert (H1 : valid_players retrying) by sample_valid.
  assert (H2 : first_with "A" retrying 0).
  { exists [], [1; 2]. split_and!; [reflexivity | apply Forall_nil_2 | reflexivity]. }
  assert (H3 : plays retrying !! 0 = Some (mkActivation 0 AwaitTimer)) by reflexivity.
  assert (H4 : AwaitTimer = AwaitPlay \/ AwaitTimer = AwaitTimer) by (right; reflexivity).
  assert (H5 : store retrying !! 0 =
       Some (AudioPlayer.play_head false
               (AudioPlayer.mk "A" false (HTMLAudioElement.Audio "a.mp3")
                  (Some (OnEndTrigger "A"))))) by reflexivity.
  assert (H6 : name NotAllowedError = "NotAllowedError") by reflexivity.
  pose proof (every_reset_ends_retry_chain retrying 0 0 _ AwaitTimer NotAllowedError "A"
                H1 H2 H3 H4 H5 H6) as C.
  split_and!; [exact H1 | exact H2 | exact H3 | exact H4 | exact H5 | exact H6 | exact C].
Defined.

Lemma only_the_flag_ends_a_chain_witness :
  plays retrying !! 0 = Some (mkActivation 0 AwaitTimer)
  /\ store retrying !! 0 =
       Some (AudioPlayer.play_head false
               (AudioPlayer.mk "A" false (HTMLAudioElement.Audio "a.mp3")
                  (Some (OnEndTrigger "A"))))
  /\ playing_at retrying 0 = Some true
  /\ Forall (fun e =>
       fst (run [e; TimerFired 0; PlaySettled 0 None] retrying) = []
       /\ phase_of (snd (run [e; TimerFired 0] retrying)) 0 = Some AwaitPlay
       /\ attempts 0 (snd (run [e; TimerFired 0] retrying)) = attempts 0 retrying + 1
       /\ phase_of (snd (run [e; TimerFired 0; PlaySettled 0 None] retrying)) 0 = Some Resolved
       /\ playing_at (snd (run [e; TimerFired 0; PlaySettled 0 None] retrying)) 0 = Some true
       /\ (fun q => HTMLAudioElement.paused (AudioPlayer.audio q))
            <$> player_at (snd (run [e; TimerFired 0; PlaySettled 0 None] retrying)) 0
          = Some false)
     [Call (DoPause 0); Call (DoRewind 0); Call (DoSetVolume 0 (Finite (1 # 2)));
      CallRegisterOnEndCallback 0 (OnEndUser [] None)].
Proof.
  assert (H1 : plays retrying !! 0 = Some (mkActivation 0 AwaitTimer)) by reflexivity.
  assert (H2 : store retrying !! 0 =
       Some (AudioPlayer.play_head false
               (AudioPlayer.mk "A" false (HTMLAudioElement.Audio "a.mp3")
                  (Some (OnEndTrigger "A"))))) by reflexivity.
  pose proof (only_the_flag_ends_a_chain retrying 0 0 _ (1 # 2) (OnEndUser [] None)
                H1 H2 eq_refl) as C.
  split_and!; [exact H1 | exact H2 | reflexivity | exact C].
Defined.

(** ** What [initialize] builds *)

Lemma truthy_Some x f : AudioPlayerWidget.truthy x = Some f -> x = Some f.
Proof. destruct x as [[|c s]|]; cbn; congruence. Qed.

Lemma running_ret a (m : M unit) w w1 :
  m w = (Ret tt, w1) -> running a m w = (Ret tt, w1).
Proof. intros H. unfold running, try_catch. by rewrite H. Qed.

Lemma running_bind {A} a (m : M A) (f : A -> M unit) w x w1 :
  m w = (Ret x, w1) -> running a (bind m f) w = running a (f x) w1.
Proof. intros H. unfold running, try_catch, bind. by rewrite H. Qed.

Lemma run_cons_then e es w : run (e :: es) w = then_run (step e w) es.
Proof.
  unfold then_run. cbn [run]. destruct (step e w) as [[[]|err] w1]; cbn [fst snd].
  - by destruct (run es w1).
  - done.
Qed.

Lemma then_run_ret w e es : then_run (Ret tt, w) (e :: es) = then_run (step e w) es.
Proof.
  unfold then_run at 1. cbn [fst snd]. rewrite run_cons_then. by destruct (then_run _ _).
Qed.

Lemma set_init_back w a st :
  inits w !! a = Some InitRunning ->
  set_inits (<[a := InitRunning]> (<[a := st]> (inits w))) w = w.
Proof.
  intros Ha. rewrite list_insert_insert_eq, (list_insert_id _ _ _ Ha). by destruct w.
Qed.

Lemma built_player_shape files s p :
  built_player files s = Some p ->
  AudioPlayer.id p = AudioSource.id s
  /\ AudioPlayer.playing p = false
  /\ AudioPlayer.onEndCallback p = Some (OnEndTrigger (AudioSource.id s))
  /\ HTMLAudioElement.paused (AudioPlayer.audio p) = true
  /\ (0 <= HTMLAudioElement.volume (AudioPlayer.audio p) <= 1)%Q
  /\ Some (HTMLAudioElement.src (AudioPlayer.audio p)) = source_url files s.
Proof.
  unfold built_player. destruct (source_url files s) as [url|]; [|done].
  unfold AudioPlayer.constructor, HTMLAudioElement.set_volume.
  destruct (AudioPlayer.clampVolume _) as [| |q|]; try done.
  destruct (Qle_bool 0 q) eqn:E0; [|done]. destruct (Qle_bool q 1) eqn:E1; [|done].
  cbn. intros [= <-]. cbn. apply Qle_bool_iff in E0, E1. done.
Qed.

(** The player is constructed and pushed, or the constructor throws. *)
Lemma new_player_cases s url w :
  match AudioPlayer.constructor url (default (Finite 1) (AudioSource.volume s)) with
  | Ret p =>
      AudioPlayerWidget.new_player s url w =
        (Ret (Some (length (store w))),
         set_players (players w ++ [length (store w)])
           (set_store (store w ++ [AudioPlayer.set_id (AudioSource.id s) p]) w))
  | Throw _ =>
      AudioPlayerWidget.new_player s url w =
        (Ret None,
         set_trace (trace w ++ [AnalyticsError "Error initializing audio player for source:"
                                  (AudioSource.id s)]) w)
  end.
Proof.
  unfold AudioPlayerWidget.new_player.
  destruct (AudioPlayer.constructor url _) as [p|e].
  - reflexivity.
  - unfold bind. by rewrite emit_eq.
Qed.

(** The callback is registered on the player just pushed. *)
Lemma register_pushed w p cb :
  update (length (store w)) (AudioPlayer.registerOnEndCallback cb)
    (set_players (players w ++ [length (store w)]) (set_store (store w ++ [p]) w)) =
  (Ret tt,
   set_players (players w ++ [length (store w)])
     (set_store (store w ++ [AudioPlayer.registerOnEndCallback cb p]) w)).
Proof.
  rewrite (update_ok _ _ p) by (cbn; apply lookup_snoc_length).
  cbn. by rewrite insert_snoc_length.
Qed.

(** Resuming a suspended activation puts it back where it was running. *)
Lemma file_url_resume a s rest ts es w r :
  inits w !! a = Some InitRunning ->
  step (FileUrlSettled a r) (set_inits (<[a := AwaitFileUrl s rest ts es]> (inits w)) w) =
  running a
    match r with
    | Some error =>
        emit (AnalyticsError "Error initializing audio player for source:"
                (AudioSource.id s)) >>
        AudioPlayerWidget.init_loop a rest ts es
    | None =>
        match AudioPlayerWidget.truthy
                (snd <$> List.find (fun kv => String.eqb (fst kv)
                                                (default "" (AudioSource.fileId s)))
                           (assets w)) with
        | None =>
            emit (AnalyticsError "Failed to get URL for file asset with ID"
                    (default "" (AudioSource.fileId s))) >>
            AudioPlayerWidget.init_loop a rest ts es
        | Some url =>
            let* player := AudioPlayerWidget.new_player s url in
            match player with
            | None => AudioPlayerWidget.init_loop a rest ts es
            | Some l => set_init a (AwaitFileNode s l rest ts es)
            end
        end
    end w.
Proof.
  intros Ha. cbn [step]. unfold AudioPlayerWidget.file_url_settled. unfold bind at 1.
  cbn [get inits set_inits].
  rewrite list_lookup_insert_eq by (by apply lookup_lt_Some in Ha).
  unfold bind at 1. cbn [set_init modify inits set_inits assets]. f_equal.
  etransitivity; [|apply (set_init_back w a (AwaitFileUrl s rest ts es) Ha)]. reflexivity.
Qed.

Lemma file_node_resume a s l rest ts es w r :
  inits w !! a = Some InitRunning ->
  step (FileNodeSettled a r) (set_inits (<[a := AwaitFileNode s l rest ts es]> (inits w)) w) =
  running a
    match r with
    | Throw error => throw error
    | Ret node_name =>
        AudioPlayerWidget.add_actions s l
          (default "unknown" (AudioPlayerWidget.truthy node_name))
          (AudioPlayerWidget.init_loop a rest) ts es
    end w.
Proof.
  intros Ha. cbn [step]. unfold AudioPlayerWidget.file_node_settled. unfold bind at 1.
  cbn [get inits set_inits].
  rewrite list_lookup_insert_eq by (by apply lookup_lt_Some in Ha).
  unfold bind at 1. cbn [set_init modify inits set_inits]. f_equal.
  etransitivity; [|apply (set_init_back w a (AwaitFileNode s l rest ts es) Ha)]. reflexivity.
Qed.

(** One turn of the loop of [initialize], its lookups answered at once. *)
Lemma init_loop_turn a names s rest w ts es :
  inits w !! a = Some InitRunning ->
  exists w1 ts1 es1,
    then_run (running a (AudioPlayerWidget.init_loop a (s :: rest) ts es) w)
      (lookups a (assets w) names (s :: rest))
    = then_run (running a (AudioPlayerWidget.init_loop a rest ts1 es1) w1)
        (lookups a (assets w) names rest)
    /\ match built_player (assets w) s with
       | Some p =>
           w1 = set_players (players w ++ [length (store w)]) (set_store (store w ++ [p]) w)
           /\ ts1 = AudioPlayerWidget.push_triggers s
                      (AudioPlayerWidget.short_name (source_name names s)) ts
           /\ es1 = AudioPlayerWidget.push_effects s
                      (AudioPlayerWidget.short_name (source_name names s)) es
       | None =>
           (exists what about, w1 = set_trace (trace w ++ [AnalyticsError what about]) w)
           /\ ts1 = ts /\ es1 = es
       end.
Proof.
  intros Ha. cbn [AudioPlayerWidget.init_loop lookups].
  unfold built_player, source_url, source_name.
  assert (Hurl : forall u,
    AudioSource.type s = Url -> AudioPlayerWidget.truthy (AudioSource.url s) = Some u ->
    exists w1 ts1 es1,
      then_run
        (running a
           (let* player := AudioPlayerWidget.new_player s u in
            match player with
            | Some l =>
                AudioPlayerWidget.add_actions s l u (AudioPlayerWidget.init_loop a rest) ts es
            | None => AudioPlayerWidget.init_loop a rest ts es
            end) w) (lookups a (assets w) names rest)
      = then_run (running a (AudioPlayerWidget.init_loop a rest ts1 es1) w1)
          (lookups a (assets w) names rest)
      /\ match
           match AudioPlayer.constructor u (default (Finite 1) (AudioSource.volume s)) with
           | Ret p =>
               Some (AudioPlayer.registerOnEndCallback (OnEndTrigger (AudioSource.id s))
                       (AudioPlayer.set_id (AudioSource.id s) p))
           | Throw _ => None
           end
         with
         | Some p =>
             w1 = set_players (players w ++ [length (store w)]) (set_store (store w ++ [p]) w)
             /\ ts1 = AudioPlayerWidget.push_triggers s
                        (AudioPlayerWidget.short_name (default "" (AudioSource.url s))) ts
             /\ es1 = AudioPlayerWidget.push_effects s
                        (AudioPlayerWidget.short_name (default "" (AudioSource.url s))) es
         | None =>
             (exists what about, w1 = set_trace (trace w ++ [AnalyticsError what about]) w)
             /\ ts1 = ts /\ es1 = es
         end).
  { intros u Ety Eu. apply truthy_Some in Eu as Eu'. rewrite Eu'. cbn [default].
    pose proof (new_player_cases s u w) as Hn.
    destruct (AudioPlayer.constructor u _) as [p|e].
    - eexists _, _, _. split; [|done].
      rewrite (running_bind a _ _ w _ _ Hn). unfold AudioPlayerWidget.add_actions.
      by rewrite (running_bind a _ _ _ tt _ (register_pushed w _ _)).
    - eexists _, _, _. split; [|split; [by eexists _, _ | done]].
      by rewrite (running_bind a _ _ w _ _ Hn). }
  destruct (AudioSource.type s) eqn:Ety;
    destruct (AudioPlayerWidget.truthy (AudioSource.fileId s)) as [f|] eqn:Ef;
    destruct (AudioPlayerWidget.truthy (AudioSource.url s)) as [u|] eqn:Eu.
  all: cbn [app].
  all: try (eexists _, _, _; split;
            [rewrite (running_bind a _ _ w tt _ (emit_eq _ w)); reflexivity
            | split; [by eexists _, _ | done]]).
  all: try (by apply Hurl).
  all: apply truthy_Some in Ef as Ef'.
  all: rewrite (running_ret a (set_init a _) w _ eq_refl), then_run_ret.
  all: rewrite (file_url_resume _ _ _ _ _ _ _ Ha).
  all: rewrite Ef'; cbn [default].
  all: destruct (AudioPlayerWidget.truthy (snd <$> List.find _ (assets w))) as [url|] eqn:Elook.
  all: try (eexists _, _, _; split;
            [rewrite (running_bind a _ _ w tt _ (emit_eq _ w)); reflexivity
            | split; [by eexists _, _ | done]]).
  all: pose proof (new_player_cases s url w) as Hn.
  all: destruct (AudioPlayer.constructor url _) as [p|e].
  all: try (eexists _, _, _; split;
            [rewrite (running_bind a _ _ w _ _ Hn); reflexivity
            | split; [by eexists _, _ | done]]).
  all: rewrite (running_bind a _ _ w _ _ Hn).
  all: rewrite (running_ret a (set_init a _) _ _ eq_refl).
  all: cbn [app]; rewrite then_run_ret.
  all: rewrite (file_node_resume a s _ rest ts es
                  (set_players (players w ++ [length (store w)])
                     (set_store (store w ++ [AudioPlayer.set_id (AudioSource.id s) p]) w)) _ Ha).
  all: unfold AudioPlayerWidget.add_actions.
  all: rewrite (running_bind a _ _ _ tt _ (register_pushed w _ _)).
  all: by eexists _, _, _.
Qed.

(** The loop of [initialize] over [srcs], every lookup answered at once. *)
Lemma init_loop_uninterrupted a names srcs : forall w ts es,
  inits w !! a = Some InitRunning ->
  exists t,
    then_run (running a (AudioPlayerWidget.init_loop a srcs ts es) w)
      (lookups a (assets w) names srcs)
    = then_run
        (running a
           (AudioPlayerWidget.init_finish a
              (pushed_triggers (assets w) names srcs ts)
              (pushed_effects (assets w) names srcs es))
           {| store := store w ++ omap (built_player (assets w)) srcs;
              players := players w
                         ++ seq (length (store w))
                              (length (omap (built_player (assets w)) srcs));
              sources := sources w; autoStart := autoStart w; assets := assets w;
              cells := cells w; plays := plays w; inits := inits w;
              haptic_actionTriggers := haptic_actionTriggers w;
              haptic_actionEffects := haptic_actionEffects w;
              trace := trace w ++ t |}) []
    /\ Forall (fun e => is_error e = true) t
    /\ length t + length (omap (built_player (assets w)) srcs) = length srcs.
Proof.
  induction srcs as [|s srcs IH]; intros w ts es Ha.
  - exists []. cbn [lookups omap list_omap length seq pushed_triggers pushed_effects foldl
                    AudioPlayerWidget.init_loop].
    rewrite !app_nil_r. split_and!; [|done|done]. by destruct w.
  - destruct (init_loop_turn a names s srcs w ts es Ha) as (w1 & ts1 & es1 & E & Hcase).
    rewrite E. clear E.
    cbn [omap list_omap pushed_triggers pushed_effects foldl].
    destruct (built_player (assets w) s) as [p|] eqn:Hb.
    + destruct Hcase as (-> & -> & ->).
      destruct (IH (set_players (players w ++ [length (store w)])
                      (set_store (store w ++ [p]) w))
                  (AudioPlayerWidget.push_triggers s
                     (AudioPlayerWidget.short_name (source_name names s)) ts)
                  (AudioPlayerWidget.push_effects s
                     (AudioPlayerWidget.short_name (source_name names s)) es) Ha)
        as (t & E2 & Ht & Hlen).
      cbn [assets store players sources autoStart cells plays inits trace
           haptic_actionTriggers haptic_actionEffects set_players set_store] in E2, Hlen.
      exists t. split_and!; [|done|cbn [length]; lia].
      etransitivity; [exact E2|].
      cbn [length seq]. by rewrite <- !app_assoc, length_app, Nat.add_1_r.
    + destruct Hcase as ((what & about & ->) & -> & ->).
      destruct (IH (set_trace (trace w ++ [AnalyticsError what about]) w) ts es Ha)
        as (t & E2 & Ht & Hlen).
      cbn [assets store players sources autoStart cells plays inits trace
           haptic_actionTriggers haptic_actionEffects set_trace] in E2, Hlen.
      exists (AnalyticsError what about :: t). split_and!.
      * etransitivity; [exact E2|]. by rewrite <- app_assoc.
      * by apply Forall_cons_2.
      * cbn [length]. lia.
Qed.

(** [initialize] from its call to the end of its loop, when every lookup
    it makes is answered before anything else happens. *)
Lemma initialize_uninterrupted names w srcs :
  valid_players w ->
  sources w = Some srcs ->
  exists t,
    run (WidgetInitialize :: lookups (length (inits w)) (assets w) names srcs) w
    = then_run
        (running (length (inits w))
           (AudioPlayerWidget.init_finish (length (inits w))
              (pushed_triggers (assets w) names srcs [])
              (pushed_effects (assets w) names srcs AudioPlayerWidget.global_effects))
           {| store := update_all AudioPlayer.destroy (players w) (store w)
                       ++ omap (built_player (assets w)) srcs;
              players := seq (length (store w))
                           (length (omap (built_player (assets w)) srcs));
              sources := sources w; autoStart := autoStart w; assets := assets w;
              cells := cells w; plays := plays w; inits := inits w ++ [InitRunning];
              haptic_actionTriggers := haptic_actionTriggers w;
              haptic_actionEffects := haptic_actionEffects w;
              trace := trace w ++ AnalyticsDebug "initialize" :: t |}) []
    /\ Forall (fun e => is_error e = true) t
    /\ length t + length (omap (built_player (assets w)) srcs) = length srcs.
Proof.
  intros Hv Hs. set (a := length (inits w)).
  set (w0 := set_inits (inits w ++ [InitRunning]) w).
  assert (Hv0 : valid_players (set_trace (trace w0 ++ [AnalyticsDebug "initialize"]) w0))
    by done.
  pose proof (destroyPlayers_ok _ Hv0) as Ed. cbn [step] in Ed.
  set (wd := set_players [] _) in Ed.
  assert (Ha : inits wd !! a = Some InitRunning) by apply lookup_snoc_length.
  destruct (init_loop_uninterrupted a names srcs wd [] AudioPlayerWidget.global_effects Ha)
    as (t & E & Ht & Hlen).
  exists t. split_and!; [|done|done].
  rewrite run_cons_then. cbn [step]. unfold AudioPlayerWidget.initialize.
  unfold bind at 1. cbn [spawn_init]. fold a w0.
  rewrite (running_bind a _ _ w0 tt _ (emit_eq _ w0)).
  rewrite (running_bind a _ _ _ tt _ Ed).
  rewrite (running_bind a get _ wd wd wd eq_refl).
  change (sources wd) with (sources w). rewrite Hs.
  etransitivity; [exact E|].
  subst wd w0. cbn [assets store players sources autoStart cells plays inits trace
    haptic_actionTriggers haptic_actionEffects set_players set_store set_trace set_inits].
  rewrite length_update_all, <- app_assoc, ?Hs. reflexivity.
Qed.

(** The end of [initialize] without [autoStart]. *)
Lemma init_finish_plain a ts es w :
  autoStart w = false ->
  running a (AudioPlayerWidget.init_finish a ts es) w =
    (Ret tt,
     {| store := store w; players := players w; sources := sources w;
        autoStart := autoStart w; assets := assets w; cells := cells w; plays := plays w;
        inits := <[a := InitResolved]> (inits w);
        haptic_actionTriggers := ts; haptic_actionEffects := es; trace := trace w |}).
Proof.
  intros Hauto. destruct w. cbn in Hauto. subst. reflexivity.
Qed.

(** The end of [initialize] with [autoStart]: the playlist is started in
    the world that has the new tables. *)
Lemma init_finish_autostart a ts es w :
  autoStart w = true ->
  running a (AudioPlayerWidget.init_finish a ts es) w =
    match step WidgetPlayAsPlaylist
            (set_haptic_actionEffects es (set_haptic_actionTriggers ts w)) with
    | (Ret _, w1) => (Ret tt, set_inits (<[a := InitResolved]> (inits w1)) w1)
    | (Throw e, w1) => (Throw e, set_inits (<[a := InitRejected e]> (inits w1)) w1)
    end.
Proof.
  intros Hauto. destruct w. cbn in Hauto. subst. cbn [step].
  unfold running, try_catch, AudioPlayerWidget.init_finish, bind, modify, get.
  cbn [autoStart set_haptic_actionEffects set_haptic_actionTriggers].
  destruct (AudioPlayerWidget.playAsPlaylist _) as [[[]|e] w1]; reflexivity.
Qed.

(** The identifiers of the triggers the loop pushes: the end and the
    start of every source for which a player is built. *)
Lemma pushed_triggers_ids files names srcs : forall ts,
  ActionTrigger.id <$> pushed_triggers files names srcs ts =
    (ActionTrigger.id <$> ts)
    ++ flat_map (fun p => [ended_action (AudioPlayer.id p); started_action (AudioPlayer.id p)])
         (omap (built_player files) srcs).
Proof.
  unfold pushed_triggers.
  induction srcs as [|s srcs IH]; intros ts; cbn [foldl omap list_omap flat_map].
  - by rewrite app_nil_r.
  - destruct (built_player files s) as [p|] eqn:Hb; [|apply IH].
    rewrite IH. unfold AudioPlayerWidget.push_triggers. rewrite fmap_app, <- app_assoc.
    cbn [fmap list_fmap ActionTrigger.id flat_map app].
    by destruct (built_player_shape _ _ _ Hb) as (-> & _).
Qed.

(** The identifiers of the effects the loop pushes. *)
Lemma pushed_effects_ids files names srcs : forall es,
  ActionEffect.id <$> pushed_effects files names srcs es =
    (ActionEffect.id <$> es)
    ++ flat_map (fun p => ["widget-audio-player-play-audio-" ++ AudioPlayer.id p;
                           "widget-audio-player-stop-audio-" ++ AudioPlayer.id p;
                           "widget-audio-player-play-audio-loop-" ++ AudioPlayer.id p]%string)
         (omap (built_player files) srcs).
Proof.
  unfold pushed_effects.
  induction srcs as [|s srcs IH]; intros es; cbn [foldl omap list_omap flat_map].
  - by rewrite app_nil_r.
  - destruct (built_player files s) as [p|] eqn:Hb; [|apply IH].
    rewrite IH. unfold AudioPlayerWidget.push_effects. rewrite fmap_app, <- app_assoc.
    cbn [fmap list_fmap ActionEffect.id flat_map app].
    by destruct (built_player_shape _ _ _ Hb) as (-> & _).
Qed.

Lemma errors_notify_nothing t :
  Forall (fun e => is_error e = true) t ->
  omap (fun e => match e with TriggerAction a => Some a | _ => None end) t = [].
Proof.
  induction 1 as [|e t He _ IH]; [done|]. cbn. rewrite IH. by destruct e.
Qed.

Lemma errors_attempt_nothing k t :
  Forall (fun e => is_error e = true) t -> count (is_attempt k) t = 0.
Proof.
  induction 1 as [|e t He _ IH]; [done|]. unfold count in *. cbn.
  destruct e; try done.
Qed.

Lemma then_run_nil r :
  then_run r [] = (match fst r with Throw e => [e] | Ret _ => [] end, snd r).
Proof. reflexivity. Qed.

Lemma made_lookup (old made : list AudioPlayer.t) (n : nat) :
  length old = n ->
  ((fun l => (old ++ made) !! l) <$> seq n (length made)) = Some <$> made.
Proof.
  intros Hold. apply list_eq. intros i. rewrite !list_lookup_fmap.
  destruct (decide (i < length made)) as [Hi|Hi].
  - rewrite lookup_seq_lt by done. cbn.
    rewrite lookup_app_r by lia. rewrite Hold.
    replace (n + i - n) with i by lia.
    by destruct (lookup_lt_is_Some_2 made i Hi) as [p ->].
  - rewrite lookup_seq_ge by lia. rewrite (lookup_ge_None_2 made) by lia. done.
Qed.

Lemma made_ids files srcs :
  AudioPlayer.id <$> omap (built_player files) srcs
  = AudioSource.id <$> List.filter (fun s => bool_decide (is_Some (built_player files s))) srcs.
Proof.
  induction srcs as [|s srcs IH]; [done|].
  cbn [omap list_omap List.filter].
  destruct (built_player files s) as [p|] eqn:Hb.
  - rewrite bool_decide_eq_true_2 by done. cbn [fmap list_fmap]. rewrite <- IH.
    f_equal. by destruct (built_player_shape _ _ _ Hb) as (-> & _).
  - rewrite bool_decide_eq_false_2 by (by intros [? ?]). done.
Qed.

(** X12.  [initialize] without [autoStart], when nothing else happens
    while it is suspended: every lookup it awaits ([getFileUrl], then
    [getFileNode] when a player was constructed) is answered, with what
    the board has, before another event is taken.  Then no fault is
    raised; every player managed before is destroyed and dropped; the new
    players are, in the order of the sources, one for each source that
    names a URL or a known file and whose volume the audio element
    accepts, each carrying the identifier of its source, not playing,
    paused, with a volume in [0, 1] and with the callback that reports
    the end of that source; each source that is skipped leaves one error
    line, and nothing else is sent out; no activation of [play] and no
    playlist run is touched; the activation of [initialize] has resolved;
    and the host has the tables the loop has filled: for each new player,
    in order, the trigger of its end and the trigger of its start, and
    after the two general effects its three effects. *)
Theorem initialize_rebuilds_players
    (w : world) (srcs : list AudioSource.t) (names : string -> option string) :
  valid_players w ->
  sources w = Some srcs ->
  autoStart w = false ->
  let made := omap (built_player (assets w)) srcs in
  let es := WidgetInitialize :: lookups (length (inits w)) (assets w) names srcs in
  let w' := snd (run es w) in
  fst (run es w) = []
  /\ store w' = update_all AudioPlayer.destroy (players w) (store w) ++ made
  /\ players w' = seq (length (store w)) (length made)
  /\ ((fun l => store w' !! l) <$> players w') = Some <$> made
  /\ Forall (fun l => playing_at w' l = Some false /\ callback_at w' l = Some None)
       (players w)
  /\ Forall (fun p => AudioPlayer.playing p = false
                      /\ AudioPlayer.onEndCallback p = Some (OnEndTrigger (AudioPlayer.id p))
                      /\ HTMLAudioElement.paused (AudioPlayer.audio p) = true
                      /\ (0 <= HTMLAudioElement.volume (AudioPlayer.audio p) <= 1)%Q) made
  /\ AudioPlayer.id <$> made
     = AudioSource.id <$> List.filter (fun s => bool_decide (is_Some (built_player (assets w) s))) srcs
  /\ (exists t, trace w' = trace w ++ AnalyticsDebug "initialize" :: t
                /\ Forall (fun e => is_error e = true) t
                /\ length t + length made = length srcs)
  /\ plays w' = plays w
  /\ cells w' = cells w
  /\ valid_players w'
  /\ inits w' = inits w ++ [InitResolved]
  /\ haptic_actionTriggers w' = pushed_triggers (assets w) names srcs []
  /\ ActionTrigger.id <$> haptic_actionTriggers w'
     = flat_map (fun p => [ended_action (AudioPlayer.id p); started_action (AudioPlayer.id p)])
         made
  /\ haptic_actionEffects w'
     = pushed_effects (assets w) names srcs AudioPlayerWidget.global_effects
  /\ ActionEffect.id <$> haptic_actionEffects w'
     = ["widget-audio-player-stop-all-audio"; "widget-audio-player-play-all-audio-as-playlist"]
       ++ flat_map (fun p => ["widget-audio-player-play-audio-" ++ AudioPlayer.id p;
                              "widget-audio-player-stop-audio-" ++ AudioPlayer.id p;
                              "widget-audio-player-play-audio-loop-" ++ AudioPlayer.id p]%string)
            made.
Proof.
  intros Hv Hs Ha. cbn zeta.
  destruct (initialize_uninterrupted names w srcs Hv Hs) as (t & E & Ht & Hlen).
  rewrite E, init_finish_plain by done. clear E.
  rewrite then_run_nil.
  cbn [fst snd store players plays cells trace inits haptic_actionTriggers
       haptic_actionEffects].
  set (made := omap (built_player (assets w)) srcs) in *.
  set (old := update_all AudioPlayer.destroy (players w) (store w)).
  assert (Hold : length old = length (store w)) by apply length_update_all.
  split_and!; try done.
  - by apply made_lookup.
  - apply Forall_forall. intros l Hl. unfold playing_at, callback_at. cbn [store].
    specialize (Hv l Hl). rewrite lookup_app_l by lia. subst old.
    rewrite lookup_update_all_in by done.
    destruct (lookup_lt_is_Some_2 _ _ Hv) as [p ->]. done.
  - apply Forall_forall. intros p Hp. subst made.
    apply list_elem_of_omap in Hp as (s & _ & Hb).
    destruct (built_player_shape _ _ _ Hb) as (H1 & H2 & H3 & H4 & H5 & _).
    rewrite H1. done.
  - apply made_ids.
  - by exists t.
  - intros l Hl. cbn in *. apply elem_of_seq in Hl. rewrite length_app, Hold. lia.
  - apply insert_snoc_length.
  - apply (pushed_triggers_ids _ _ _ []).
  - apply (pushed_effects_ids _ _ _ AudioPlayerWidget.global_effects).
Qed.

(** X13.  [initialize] with [autoStart] set, when at least one source
    yields a player and nothing else happens while [initialize] is
    suspended: every lookup it awaits is answered, with what the board
    has, before another event is taken.  Then no fault is raised; the
    players are rebuilt as without [autoStart]; the tables are handed to
    the host; and the playlist is started on the first of the new
    players, in a run of its own: that player gets the advancement
    handler of the run in place of its end-reporting callback, its start
    is notified, with a trigger that is in the table just installed, and
    it is played without looping; no other notification is sent. *)
Theorem initialize_autostart_begins_playlist
    (w : world) (srcs : list AudioSource.t) (names : string -> option string)
    (p : AudioPlayer.t) (rest : list AudioPlayer.t) :
  valid_players w ->
  sources w = Some srcs ->
  autoStart w = true ->
  omap (built_player (assets w)) srcs = p :: rest ->
  let l := length (store w) in
  let c := length (cells w) in
  let es := WidgetInitialize :: lookups (length (inits w)) (assets w) names srcs in
  let w' := snd (run es w) in
  fst (run es w) = []
  /\ players w' = seq l (S (length rest))
  /\ store w' = update_all AudioPlayer.destroy (players w) (store w)
                ++ AudioPlayer.play_head false
                     (AudioPlayer.registerOnEndCallback (OnEndAdvance c l) p) :: rest
  /\ playing_at w' l = Some true
  /\ callback_at w' l = Some (Some (OnEndAdvance c l))
  /\ cells w' = cells w ++ [0]
  /\ current c w' = Some l
  /\ plays w' = plays w ++ [mkActivation l AwaitPlay]
  /\ notifications w' = notifications w ++ [started_action (AudioPlayer.id p)]
  /\ attempts (length (plays w)) w' = attempts (length (plays w)) w + 1
  /\ inits w' = inits w ++ [InitResolved]
  /\ haptic_actionTriggers w' = pushed_triggers (assets w) names srcs []
  /\ started_action (AudioPlayer.id p) ∈ ActionTrigger.id <$> haptic_actionTriggers w'
  /\ haptic_actionEffects w'
     = pushed_effects (assets w) names srcs AudioPlayerWidget.global_effects.
Proof.
  intros Hv Hs Ha Hm. cbn zeta.
  destruct (initialize_uninterrupted names w srcs Hv Hs) as (t & E & Ht & Hlen).
  rewrite E, init_finish_autostart by done. clear E. rewrite Hm in *.
  destruct srcs as [|s ss]; [done|].
  set (old := update_all AudioPlayer.destroy (players w) (store w)).
  assert (Hold : length old = length (store w)) by apply length_update_all.
  rewrite (playAsPlaylist_ok _ s ss (length (store w)) p); cycle 1.
  - done.
  - done.
  - cbn [store set_haptic_actionEffects set_haptic_actionTriggers].
    rewrite lookup_app_r by (fold old; lia). fold old. rewrite Hold.
    by rewrite Nat.sub_diag.
  - rewrite then_run_nil.
    cbn [fst snd store players cells plays trace inits haptic_actionTriggers
         haptic_actionEffects set_haptic_actionEffects set_haptic_actionTriggers set_inits].
    assert (Hins : <[length (store w) :=
               AudioPlayer.play_head false
                 (AudioPlayer.registerOnEndCallback
                    (OnEndAdvance (length (cells w)) (length (store w))) p)]>
             (old ++ p :: rest)
           = old ++ AudioPlayer.play_head false
                      (AudioPlayer.registerOnEndCallback
                         (OnEndAdvance (length (cells w)) (length (store w))) p) :: rest).
    { rewrite insert_app_r_alt by lia. by rewrite Hold, Nat.sub_diag. }
    fold old. rewrite Hins.
    split_and!; try done.
    + unfold playing_at. cbn [store set_inits]. rewrite lookup_app_r by lia.
      by rewrite Hold, Nat.sub_diag.
    + unfold callback_at. cbn [store set_inits]. rewrite lookup_app_r by lia.
      by rewrite Hold, Nat.sub_diag.
    + unfold current. cbn [cells players set_inits]. by rewrite lookup_snoc_length.
    + unfold notifications. cbn [trace set_inits].
      change (trace w ++ AnalyticsDebug "initialize" :: t)
        with (trace w ++ [AnalyticsDebug "initialize"] ++ t).
      rewrite !omap_app, (errors_notify_nothing t Ht). cbn. by rewrite app_nil_r.
    + unfold attempts. cbn [trace set_inits].
      change (trace w ++ AnalyticsDebug "initialize" :: t)
        with (trace w ++ [AnalyticsDebug "initialize"] ++ t).
      rewrite !count_app, (errors_attempt_nothing _ t Ht). cbn.
      rewrite Nat.eqb_refl. cbn. lia.
    + apply insert_snoc_length.
    + rewrite (pushed_triggers_ids _ _ _ []), Hm. cbn. apply list_elem_of_further, list_elem_of_here.
Qed.

(** X14.  [initialize] with [autoStart] set over a non-empty list of
    sources none of which yields a player: a file not yet picked, an
    unknown file, an empty URL, or a volume the audio element refuses;
    the lookups [initialize] awaits for sources with a file are answered
    at once.  The old players are destroyed and dropped, each source
    leaves its error line, the guard of [playAsPlaylist] lets the start
    through since there are sources, and [this.players[0]] is
    [undefined]: [initialize] ends in a TypeError, which nothing catches,
    with a playlist cursor allocated and nothing played or notified. *)
Theorem autostart_without_player_faults
    (w : world) (s : AudioSource.t) (ss : list AudioSource.t)
    (names : string -> option string) :
  valid_players w ->
  sources w = Some (s :: ss) ->
  autoStart w = true ->
  omap (built_player (assets w)) (s :: ss) = [] ->
  let es := WidgetInitialize :: lookups (length (inits w)) (assets w) names (s :: ss) in
  let w' := snd (run es w) in
  fst (run es w) =
    [TypeError "Cannot read properties of undefined (reading 'registerOnEndCallback')"]
  /\ players w' = []
  /\ store w' = update_all AudioPlayer.destroy (players w) (store w)
  /\ cells w' = cells w ++ [0]
  /\ plays w' = plays w
  /\ notifications w' = notifications w
  /\ count is_error (trace w') = count is_error (trace w) + S (length ss)
  /\ inits w' = inits w ++ [InitRejected
       (TypeError "Cannot read properties of undefined (reading 'registerOnEndCallback')")]
  /\ haptic_actionTriggers w' = []
  /\ haptic_actionEffects w' = AudioPlayerWidget.global_effects.
Proof.
  intros Hv Hs Ha Hm. cbn zeta.
  destruct (initialize_uninterrupted names w (s :: ss) Hv Hs) as (t & E & Ht & Hlen).
  rewrite E, init_finish_autostart by done. clear E. rewrite Hm in *.
  rewrite (playAsPlaylist_no_players _ s ss) by done.
  rewrite then_run_nil.
  cbn [fst snd store players cells plays trace inits haptic_actionTriggers
       haptic_actionEffects set_haptic_actionEffects set_haptic_actionTriggers set_inits
       set_cells set_trace length] in *.
  rewrite app_nil_r. split_and!; try done.
  - unfold notifications. cbn [trace set_cells set_trace set_inits].
    change (trace w ++ AnalyticsDebug "initialize" :: t)
      with (trace w ++ [AnalyticsDebug "initialize"] ++ t).
    rewrite !omap_app, (errors_notify_nothing t Ht). cbn. by rewrite !app_nil_r.
  - change (trace w ++ AnalyticsDebug "initialize" :: t)
      with (trace w ++ [AnalyticsDebug "initialize"] ++ t).
    rewrite !count_app. cbn.
    assert (Hc : count is_error t = length t).
    { clear -Ht. induction Ht as [|e t He _ IH]; [done|].
      unfold count in *. cbn. rewrite He. cbn. by rewrite IH. }
    rewrite Hc. lia.
  - apply insert_snoc_length.
  - assert (Hids := pushed_triggers_ids (assets w) names (s :: ss) []).
    rewrite Hm in Hids. cbn in Hids. by apply fmap_nil_inv in Hids.
  - clear -Hm. unfold pushed_effects. revert Hm. generalize (s :: ss). intros srcs.
    generalize AudioPlayerWidget.global_effects.
    induction srcs as [|s0 srcs IH]; intros es Hm; [done|].
    cbn [omap list_omap foldl] in *. destruct (built_player (assets w) s0); [done|].
    by apply IH.
Qed.

Lemma initialize_rebuilds_players_witness :
  valid_players (boot [file_source "F" "f1"; url_source "B" "b.mp3"] false [("f1", "blob:f1")])
  /\ sources (boot [file_source "F" "f1"; url_source "B" "b.mp3"] false [("f1", "blob:f1")])
     = Some [file_source "F" "f1"; url_source "B" "b.mp3"]
  /\ autoStart (boot [file_source "F" "f1"; url_source "B" "b.mp3"] false [("f1", "blob:f1")])
     = false
  /\ fst (run [WidgetInitialize; FileUrlSettled 0 None;
               FileNodeSettled 0 (Ret (Some "a-recording-with-a-very-long-name.mp3"))]
            (boot [file_source "F" "f1"; url_source "B" "b.mp3"] false [("f1", "blob:f1")]))
     = []
  /\ players
       (snd (run [WidgetInitialize; FileUrlSettled 0 None;
                  FileNodeSettled 0 (Ret (Some "a-recording-with-a-very-long-name.mp3"))]
               (boot [file_source "F" "f1"; url_source "B" "b.mp3"] false [("f1", "blob:f1")])))
     = [0; 1]
  /\ haptic_actionTriggers
       (snd (run [WidgetInitialize; FileUrlSettled 0 None;
                  FileNodeSettled 0 (Ret (Some "a-recording-with-a-very-long-name.mp3"))]
               (boot [file_source "F" "f1"; url_source "B" "b.mp3"] false [("f1", "blob:f1")])))
     = [ActionTrigger.mk "widget-audio-player-audio-ended-F"
          "Audio ends: a-recording-with-a-very-lon...";
        ActionTrigger.mk "widget-audio-player-audio-started-F"
          "Audio starts: a-recording-with-a-very-lon...";
        ActionTrigger.mk "widget-audio-player-audio-ended-B" "Audio ends: b.mp3";
        ActionTrigger.mk "widget-audio-player-audio-started-B" "Audio starts: b.mp3"]
  /\ inits
       (snd (run [WidgetInitialize; FileUrlSettled 0 None;
                  FileNodeSettled 0 (Ret (Some "a-recording-with-a-very-long-name.mp3"))]
               (boot [file_source "F" "f1"; url_source "B" "b.mp3"] false [("f1", "blob:f1")])))
     = [InitResolved].
Proof.
  assert (H1 : valid_players
                 (boot [file_source "F" "f1"; url_source "B" "b.mp3"] false [("f1", "blob:f1")]))
    by (intros l Hl; by apply elem_of_nil in Hl).
  assert (H2 : sources (boot [file_source "F" "f1"; url_source "B" "b.mp3"] false
                          [("f1", "blob:f1")])
               = Some [file_source "F" "f1"; url_source "B" "b.mp3"]) by reflexivity.
  assert (H3 : autoStart (boot [file_source "F" "f1"; url_source "B" "b.mp3"] false
                            [("f1", "blob:f1")]) = false) by reflexivity.
  destruct (initialize_rebuilds_players _ _
              (fun _ => Some "a-recording-with-a-very-long-name.mp3") H1 H2 H3)
    as (C1 & _ & C3 & _ & _ & _ & _ & _ & _ & _ & _ & C12 & C13 & _).
  split_and!; [exact H1 | exact H2 | exact H3 | exact C1 | exact C3 | exact C13 | exact C12].
Defined.

Lemma initialize_autostart_begins_playlist_witness :
  valid_players (boot three_sources true [])
  /\ sources (boot three_sources true []) = Some three_sources
  /\ autoStart (boot three_sources true []) = true
  /\ omap (built_player (assets (boot three_sources true []))) three_sources
     = AudioPlayer.mk "A" false (HTMLAudioElement.Audio "a.mp3") (Some (OnEndTrigger "A"))
       :: [AudioPlayer.mk "B" false (HTMLAudioElement.Audio "b.mp3") (Some (OnEndTrigger "B"));
           AudioPlayer.mk "C" false (HTMLAudioElement.Audio "c.mp3") (Some (OnEndTrigger "C"))]
  /\ fst (run [WidgetInitialize] (boot three_sources true [])) = []
  /\ players (snd (run [WidgetInitialize] (boot three_sources true []))) = [0; 1; 2]
  /\ playing_at (snd (run [WidgetInitialize] (boot three_sources true []))) 0 = Some true
  /\ current 0 (snd (run [WidgetInitialize] (boot three_sources true []))) = Some 0
  /\ notifications (snd (run [WidgetInitialize] (boot three_sources true [])))
     = ["widget-audio-player-audio-started-A"].
Proof.
  assert (H1 : valid_players (boot three_sources true []))
    by (intros l Hl; by apply elem_of_nil in Hl).
  assert (H2 : sources (boot three_sources true []) = Some three_sources) by reflexivity.
  assert (H3 : autoStart (boot three_sources true []) = true) by reflexivity.
  assert (H4 : omap (built_player (assets (boot three_sources true []))) three_sources
     = AudioPlayer.mk "A" false (HTMLAudioElement.Audio "a.mp3") (Some (OnEndTrigger "A"))
       :: [AudioPlayer.mk "B" false (HTMLAudioElement.Audio "b.mp3") (Some (OnEndTrigger "B"));
           AudioPlayer.mk "C" false (HTMLAudioElement.Audio "c.mp3") (Some (OnEndTrigger "C"))])
    by reflexivity.
  destruct (initialize_autostart_begins_playlist (boot three_sources true []) three_sources
              (fun _ => None) _ _ H1 H2 H3 H4)
    as (C1 & C2 & _ & C4 & _ & _ & C7 & _ & C9 & _).
  split_and!; [exact H1 | exact H2 | exact H3 | exact H4 | exact C1 | exact C2 | exact C4
              | exact C7 | exact C9].
Defined.

Lemma autostart_without_player_faults_witness :
  valid_players (boot [unpicked_source; file_source "F" "f1"] true [])
  /\ sources (boot [unpicked_source; file_source "F" "f1"] true [])
     = Some [unpicked_source; file_source "F" "f1"]
  /\ autoStart (boot [unpicked_source; file_source "F" "f1"] true []) = true
  /\ omap (built_player (assets (boot [unpicked_source; file_source "F" "f1"] true [])))
       [unpicked_source; file_source "F" "f1"] = []
  /\ fst (run [WidgetInitialize; FileUrlSettled 0 None]
            (boot [unpicked_source; file_source "F" "f1"] true [])) =
       [TypeError "Cannot read properties of undefined (reading 'registerOnEndCallback')"]
  /\ players (snd (run [WidgetInitialize; FileUrlSettled 0 None]
                     (boot [unpicked_source; file_source "F" "f1"] true [])))
     = [].
Proof.
  assert (H1 : valid_players (boot [unpicked_source; file_source "F" "f1"] true []))
    by (intros l Hl; by apply elem_of_nil in Hl).
  assert (H2 : sources (boot [unpicked_source; file_source "F" "f1"] true [])
               = Some [unpicked_source; file_source "F" "f1"]) by reflexivity.
  assert (H3 : autoStart (boot [unpicked_source; file_source "F" "f1"] true []) = true)
    by reflexivity.
  assert (H4 : omap (built_player (assets (boot [unpicked_source; file_source "F" "f1"] true [])))
                 [unpicked_source; file_source "F" "f1"] = []) by reflexivity.
  destruct (autostart_without_player_faults _ unpicked_source [file_source "F" "f1"]
              (fun _ => None) H1 H2 H3 H4)
    as (C1 & C2 & _).
  split_and!; [exact H1 | exact H2 | exact H3 | exact H4 | exact C1 | exact C2].
Defined.
(** ** The advancement handler after its unit has ended *)

Lemma first_with_ids id w w1 l :
  players w1 = players w ->
  AudioPlayer.id <$> store w1 = AudioPlayer.id <$> store w ->
  first_with id w l -> first_with id w1 l.
Proof.
  intros Hpl Hids (ps1 & ps2 & Hps & Hnot & Hid).
  assert (Hu : forall l', AudioPlayer.id <$> store w1 !! l' = AudioPlayer.id <$> store w !! l').
  { intros l'. by rewrite <- !list_lookup_fmap, Hids. }
  exists ps1, ps2. split_and!.
  - by rewrite Hpl.
  - eapply Forall_impl; [exact Hnot|]. intros l' H. unfold unit_id in *. by rewrite Hu.
  - by rewrite Hu.
Qed.

(** The store after one step of the playlist: the unit that has ended
    has lost its flag, the next one is played. *)
Lemma playlist_step_store w c j wj :
  valid_players w ->
  players w <> [] ->
  playlist_at w c j wj ->
  exists l l' q p',
    players w !! (j mod length (players w)) = Some l
    /\ players w !! (S j mod length (players w)) = Some l'
    /\ store wj !! l = Some q
    /\ store (snd (run [PlaySettled (last_play wj) None; Ended l] wj)) =
         <[l' := AudioPlayer.play_head false
                   (AudioPlayer.registerOnEndCallback (OnEndAdvance c l') p')]>
           (<[l := AudioPlayer.set_playing false
                     (AudioPlayer.set_audio
                        (HTMLAudioElement.started (AudioPlayer.audio q)) q)]> (store wj)).
Proof.
  intros Hv Hne (Hpl & Hids & Hc & l & q & Hj & Hl & Hplay & Hloop & Hcb & Hk).
  set (n := length (players w)) in *.
  assert (Hn : 0 < n) by (subst n; destruct (players w); [done | cbn; lia]).
  assert (Hnext : S j mod n < n) by (apply Nat.mod_upper_bound; lia).
  destruct (lookup_lt_is_Some_2 (players w) _ Hnext) as [l' Hl'].
  assert (Hlen : length (store wj) = length (store w)).
  { rewrite <- (length_fmap AudioPlayer.id (store wj)), Hids. apply length_fmap. }
  pose proof (play_settled_fulfilled wj (last_play wj) l q Hk Hl) as E1.
  set (q1 := AudioPlayer.set_audio (HTMLAudioElement.started (AudioPlayer.audio q)) q) in *.
  set (w1 := set_plays _ (set_store (<[l := q1]> (store wj)) wj)) in E1.
  assert (Hl1 : store w1 !! l = Some q1)
    by (subst w1; cbn; by apply (lookup_insert_same _ _ _ _ Hl)).
  set (st0 := <[l := AudioPlayer.set_playing false q1]> (store w1)).
  assert (Hlt' : l' < length st0).
  { subst st0 w1. cbn [store set_store set_plays]. rewrite !length_insert, Hlen.
    apply Hv. apply list_elem_of_lookup. by exists (S j mod n). }
  destruct (lookup_lt_is_Some_2 _ _ Hlt') as [p' Hp'].
  assert (Hidx : (if (length (players w1) <=? S (j mod n))%nat then 0 else S (j mod n))
                 = S j mod n).
  { subst w1. cbn [players set_store set_plays]. rewrite Hpl. fold n. by apply next_index. }
  pose proof (ended_advance_ok w1 c l q1 (j mod n) l' p' Hl1 Hplay Hcb Hc) as E2.
  rewrite Hidx in E2. change (players w1) with (players wj) in E2. rewrite Hpl in E2.
  specialize (E2 Hl' Hp').
  exists l, l', q, p'.
  rewrite (run_cons_ok (PlaySettled (last_play wj) None) _ _ _ E1).
  rewrite (run_cons_ok (Ended l) _ _ _ E2). cbn [run snd store].
  split_and!; try done.
  subst w1. cbn [store set_store set_plays]. by rewrite list_insert_insert_eq.
Qed.

(** The unit that has just ended keeps the handler of the run. *)
Lemma playlist_step_prev w c j wj :
  valid_players w ->
  players w <> [] ->
  playlist_at w c j wj ->
  exists l q',
    players w !! (j mod length (players w)) = Some l
    /\ store (snd (run [PlaySettled (last_play wj) None; Ended l] wj)) !! l = Some q'
    /\ AudioPlayer.onEndCallback q' = Some (OnEndAdvance c l).
Proof.
  intros Hv Hne Hat.
  destruct (playlist_step_store w c j wj Hv Hne Hat) as (l & l' & q & p' & Hl & _ & Hq & Hst).
  destruct Hat as (_ & _ & _ & l0 & q0 & Hl0 & Hq0 & _ & _ & Hcb & _).
  rewrite Hl in Hl0. injection Hl0 as <-. rewrite Hq in Hq0. injection Hq0 as <-.
  exists l. rewrite Hst. destruct (decide (l' = l)) as [->|Hne'].
  - eexists. split; [done|]. split.
    + apply list_lookup_insert_eq. rewrite length_insert. by apply lookup_lt_Some in Hq.
    + done.
  - eexists. split; [done|]. split.
    + rewrite list_lookup_insert_ne by done. by apply (lookup_insert_same _ _ _ _ Hq).
    + done.
Qed.

(** X16.  The advancement handler is not disarmed when it has run: a unit
    the playlist has played keeps the handler of the run in its callback
    slot.  So when the [j]-th unit has ended and the run stands at the
    next one, a [play(id)] of the widget on the unit that has ended,
    followed by its natural end, moves the cursor of the run once more,
    to the unit after the next, and starts that unit, although the unit
    under the cursor has not ended. *)
Theorem advancement_handler_stays_armed
    (w : world) (s : AudioSource.t) (ss : list AudioSource.t) (j : nat)
    (id : string) (l : loc) :
  sources w = Some (s :: ss) ->
  valid_players w ->
  players w !! (j mod length (players w)) = Some l ->
  first_with id w l ->
  let c := length (cells w) in
  let n := length (players w) in
  let w1 := drive c (S j) (snd (step WidgetPlayAsPlaylist w)) in
  let es := [WidgetPlay id false; PlaySettled (length (plays w1)) None; Ended l] in
  let w2 := snd (run es w1) in
  callback_at w1 l = Some (Some (OnEndAdvance c l))
  /\ cells w1 !! c = Some (S j mod n)
  /\ fst (run es w1) = []
  /\ cells w2 !! c = Some (S (S j) mod n)
  /\ current c w2 = players w !! (S (S j) mod n)
  /\ exists l2,
       current c w2 = Some l2
       /\ playing_at w2 l2 = Some true
       /\ callback_at w2 l2 = Some (Some (OnEndAdvance c l2))
       /\ notifications w2 =
            notifications w1 ++ [ended_action id; started_action (unit_id w l2)].
Proof.
  intros Hs Hv Hj Hf. cbn zeta.
  assert (Hne : players w <> []) by (intros E; by rewrite E in Hj).
  set (c := length (cells w)). set (n := length (players w)) in *.
  assert (Hn : 0 < n) by (subst n; destruct (players w); [done | cbn; lia]).
  pose proof (drive_playlist_at w s ss j Hs Hne Hv) as Hat. fold c in Hat.
  pose proof (drive_playlist_at w s ss (S j) Hs Hne Hv) as Hat1. fold c in Hat1.
  destruct (playlist_step_prev w c j _ Hv Hne Hat) as (l0 & q1 & Hl0 & Hq1 & Hcb1).
  fold n in Hl0. rewrite Hj in Hl0. injection Hl0 as <-.
  assert (Hcur : current c (drive c j (snd (step WidgetPlayAsPlaylist w))) = Some l).
  { destruct Hat as (Hpl & _ & Hc & _). unfold current. fold n in Hc. by rewrite Hc, Hpl. }
  assert (Hdrive : drive c (S j) (snd (step WidgetPlayAsPlaylist w))
                   = snd (run [PlaySettled (last_play (drive c j (snd (step WidgetPlayAsPlaylist w)))) None;
                               Ended l] (drive c j (snd (step WidgetPlayAsPlaylist w))))).
  { cbn [drive]. by rewrite Hcur. }
  rewrite <- Hdrive in Hq1. clear Hdrive Hcur Hat.
  set (w1 := drive c (S j) _) in *.
  destruct Hat1 as (Hpl & Hids & Hc & _). fold n in Hc.
  (* play(id) finds the unit that has ended *)
  pose proof (first_with_ids id w w1 l Hpl Hids Hf) as Hf1.
  pose proof (widget_play_found w1 id false l q1 (find_player_first id w1 l Hf1) Hq1) as E1.
  set (q2 := AudioPlayer.play_head false _) in E1.
  set (wa := mkWorld _ _ _ _ _ _ _ _ _ _ _) in E1.
  assert (Hqa : store wa !! l = Some q2)
    by (subst wa; cbn; by apply (lookup_insert_same _ _ _ _ Hq1)).
  assert (Hka : plays wa !! length (plays w1) = Some (mkActivation l AwaitPlay))
    by (subst wa; cbn; apply lookup_snoc_length).
  (* the platform lets it play *)
  pose proof (play_settled_fulfilled wa (length (plays w1)) l q2 Hka Hqa) as E2.
  set (q3 := AudioPlayer.set_audio _ q2) in E2.
  set (wb := set_plays _ _) in E2.
  assert (Hqb : store wb !! l = Some q3)
    by (subst wb; cbn; by apply (lookup_insert_same _ _ _ _ Hqa)).
  assert (Hcb3 : AudioPlayer.onEndCallback q3 = Some (OnEndAdvance c l)).
  { subst q3 q2. cbn. by destruct (AudioPlayer.playing q1). }
  assert (Hid3 : AudioPlayer.id q3 = id).
  { destruct Hf1 as (_ & _ & _ & _ & Hid). rewrite Hq1 in Hid. cbn in Hid.
    injection Hid as <-. subst q3 q2. cbn. by destruct (AudioPlayer.playing q1). }
  (* it plays to its end *)
  assert (Hlen : length (store w1) = length (store w)).
  { rewrite <- (length_fmap AudioPlayer.id (store w1)), Hids. apply length_fmap. }
  assert (Hnext : S (S j) mod n < n) by (apply Nat.mod_upper_bound; lia).
  destruct (lookup_lt_is_Some_2 (players w) _ Hnext) as [l2 Hl2].
  set (st0 := <[l := AudioPlayer.set_playing false q3]> (store wb)).
  assert (Hids0 : AudioPlayer.id <$> st0 = AudioPlayer.id <$> store w).
  { subst st0 wb wa. cbn [store set_store set_plays].
    rewrite (ids_insert _ l q3 (AudioPlayer.set_playing false q3)); cycle 1.
    { apply (lookup_insert_same _ _ _ q2). by apply (lookup_insert_same _ _ _ _ Hq1). }
    { done. }
    rewrite (ids_insert _ l q2 q3); cycle 1.
    { by apply (lookup_insert_same _ _ _ _ Hq1). }
    { done. }
    rewrite (ids_insert _ l q1 q2 Hq1); [done|].
    subst q2. cbn. by destruct (AudioPlayer.playing q1). }
  assert (Hlt2 : l2 < length st0).
  { subst st0 wb wa. cbn [store set_store set_plays]. rewrite !length_insert, Hlen.
    apply Hv. apply list_elem_of_lookup. by exists (S (S j) mod n). }
  destruct (lookup_lt_is_Some_2 _ _ Hlt2) as [p2 Hp2].
  assert (Hidx : (if (length (players wb) <=? S (S j mod n))%nat then 0 else S (S j mod n))
                 = S (S j) mod n).
  { subst wb wa. cbn [players set_store set_plays]. rewrite Hpl. fold n. by apply next_index. }
  pose proof (ended_advance_ok wb c l q3 (S j mod n) l2 p2 Hqb eq_refl Hcb3 Hc) as E3.
  rewrite Hidx in E3. change (players wb) with (players w1) in E3. rewrite Hpl in E3.
  specialize (E3 Hl2 Hp2).
  rewrite (run_cons_ok (WidgetPlay id false) _ _ _ E1).
  rewrite (run_cons_ok (PlaySettled (length (plays w1)) None) _ _ _ E2).
  rewrite (run_cons_ok (Ended l) _ _ _ E3). cbn [run fst snd].
  assert (Hc2 : <[c := S (S j) mod n]> (cells wb) !! c = Some (S (S j) mod n))
    by (by apply (lookup_insert_same _ _ _ _ Hc)).
  split_and!.
  - unfold callback_at. by rewrite Hq1, <- Hcb1.
  - done.
  - done.
  - done.
  - unfold current. cbn [cells players]. by rewrite Hc2.
  - exists l2. split_and!.
    + unfold current. cbn [cells players]. by rewrite Hc2.
    + unfold playing_at. cbn [store]. fold st0.
      by rewrite (lookup_insert_same _ _ _ _ Hp2).
    + unfold callback_at. cbn [store]. fold st0.
      by rewrite (lookup_insert_same _ _ _ _ Hp2).
    + unfold notifications. cbn [trace].
      rewrite Hid3, (unit_id_lookup st0 w l2 p2 Hids0 Hp2).
      change (trace wb)
        with (trace w1 ++ [AnalyticsDebug "play"; PlayCalled l false;
                           AudioPlay (length (plays w1)) l]).
      rewrite !omap_app. cbn. by rewrite app_nil_r.
Qed.

Lemma advancement_handler_stays_armed_witness :
  sources three_units = Some (url_source "A" "a.mp3" ::
                              [url_source "B" "b.mp3"; url_source "C" "c.mp3"])
  /\ valid_players three_units
  /\ players three_units !! (0 mod length (players three_units)) = Some 0
  /\ first_with "A" three_units 0
  /\ let w1 := drive 0 1 (snd (step WidgetPlayAsPlaylist three_units)) in
     let es := [WidgetPlay "A" false; PlaySettled (length (plays w1)) None; Ended 0] in
     current 0 w1 = Some 1
     /\ fst (run es w1) = []
     /\ current 0 (snd (run es w1)) = Some 2
     /\ playing_at (snd (run es w1)) 1 = Some true
     /\ playing_at (snd (run es w1)) 2 = Some true.
Proof.
  assert (H1 : sources three_units = Some (url_source "A" "a.mp3" ::
                 [url_source "B" "b.mp3"; url_source "C" "c.mp3"])) by reflexivity.
  assert (H2 : valid_players three_units) by sample_valid.
  assert (H3 : players three_units !! (0 mod length (players three_units)) = Some 0)
    by reflexivity.
  assert (H4 : first_with "A" three_units 0).
  { exists [], [1; 2]. split_and!; [reflexivity | apply Forall_nil_2 | reflexivity]. }
  destruct (advancement_handler_stays_armed three_units _ _ 0 "A" 0 H1 H2 H3 H4)
    as (_ & _ & C3 & _ & C5 & _).
  split_and!; [exact H1 | exact H2 | exact H3 | exact H4 |].
  cbv zeta. split_and!; [reflexivity | exact C3 | exact C5 | reflexivity | reflexivity].
Defined.

(** ** Volumes that are not finite *)

(** X17.  The clamp makes every number but NaN a volume the audio element
    accepts: [setVolume(v)] and the constructor then store a value of
    [0, 1] without a fault, 1 for plus infinity and 0 for minus infinity.
    NaN passes the clamp unchanged and the element refuses it: the
    constructor and [setVolume(NaN)] throw a TypeError, the player is left
    as it was, and [initialize] skips a source whose volume is NaN. *)
Theorem volume_faults_only_on_NaN
    (v : number) (p : AudioPlayer.t) (url : string) (w : world) (l : loc)
    (files : list (string * string)) (s : AudioSource.t) :
  store w !! l = Some p ->
  AudioSource.volume s = Some NaN ->
  match v with
  | NaN =>
      AudioPlayer.setVolume v p = Throw (TypeError "The provided double value is non-finite.")
      /\ AudioPlayer.constructor url v
         = Throw (TypeError "The provided double value is non-finite.")
      /\ step (Call (DoSetVolume l v)) w
         = (Throw (TypeError "The provided double value is non-finite."), w)
  | _ =>
      exists q,
        AudioPlayer.clampVolume v = Finite q
        /\ (0 <= q <= 1)%Q
        /\ stored_volume (AudioPlayer.setVolume v p) = Some q
        /\ stored_volume (AudioPlayer.constructor url v) = Some q
        /\ fst (step (Call (DoSetVolume l v)) w) = Ret tt
        /\ volume_at (snd (step (Call (DoSetVolume l v)) w)) l = Some q
  end
  /\ stored_volume (AudioPlayer.setVolume Infinity p) = Some 1%Q
  /\ stored_volume (AudioPlayer.setVolume NegInfinity p) = Some 0%Q
  /\ built_player files s = None.
Proof.
  intros Hl Hs.
  assert (Hok : forall q, (0 <= q <= 1)%Q ->
    forall a, HTMLAudioElement.set_volume (Finite q) a =
      Ret (HTMLAudioElement.mk (HTMLAudioElement.src a) q (HTMLAudioElement.loop a)
             (HTMLAudioElement.paused a) (HTMLAudioElement.currentTime a))).
  { intros q [H0 H1] a. unfold HTMLAudioElement.set_volume.
    apply Qle_bool_iff in H0, H1. by rewrite H0, H1. }
  assert (Hfin : forall u q, AudioPlayer.clampVolume u = Finite q -> (0 <= q <= 1)%Q ->
    exists q0,
      AudioPlayer.clampVolume u = Finite q0
      /\ (0 <= q0 <= 1)%Q
      /\ stored_volume (AudioPlayer.setVolume u p) = Some q0
      /\ stored_volume (AudioPlayer.constructor url u) = Some q0
      /\ fst (step (Call (DoSetVolume l u)) w) = Ret tt
      /\ volume_at (snd (step (Call (DoSetVolume l u)) w)) l = Some q0).
  { intros u q Hc Hq. exists q.
    assert (Hset : AudioPlayer.setVolume u p =
      Ret (AudioPlayer.set_audio
             (HTMLAudioElement.mk (HTMLAudioElement.src (AudioPlayer.audio p)) q
                (HTMLAudioElement.loop (AudioPlayer.audio p))
                (HTMLAudioElement.paused (AudioPlayer.audio p))
                (HTMLAudioElement.currentTime (AudioPlayer.audio p))) p)).
    { unfold AudioPlayer.setVolume. by rewrite Hc, (Hok q Hq). }
    split; [done|]. split; [done|]. split_and!.
    - by rewrite Hset.
    - unfold AudioPlayer.constructor. by rewrite Hc, (Hok q Hq).
    - cbn [step do_call]. unfold bind. rewrite (deref_ok _ _ _ Hl), Hset.
      by rewrite (update_ok _ _ _ _ Hl).
    - cbn [step do_call]. unfold bind. rewrite (deref_ok _ _ _ Hl), Hset.
      rewrite (update_ok _ _ _ _ Hl). unfold volume_at. cbn [snd store set_store].
      by rewrite (lookup_insert_same _ _ _ _ Hl). }
  assert (H01 : (0 <= 0 <= 1)%Q) by (split; discriminate).
  assert (H11 : (0 <= 1 <= 1)%Q) by (split; discriminate).
  split_and!.
  - destruct v as [| |x|].
    + split_and!; try done.
      cbn [step do_call]. unfold bind. by rewrite (deref_ok _ _ _ Hl).
    + by apply (Hfin NegInfinity 0%Q).
    + apply (Hfin (Finite x) (Qmin 1 (Qmax 0 x))).
      * apply clampVolume_finite.
      * apply clamp_in_range.
    + by apply (Hfin Infinity 1%Q).
  - by destruct (Hfin Infinity 1%Q eq_refl H11) as (q & [= <-] & _ & -> & _).
  - by destruct (Hfin NegInfinity 0%Q eq_refl H01) as (q & [= <-] & _ & -> & _).
  - unfold built_player. destruct (source_url files s); [|done]. by rewrite Hs.
Qed.

Lemma volume_faults_only_on_NaN_witness :
  store three_units !! 0 =
    Some (AudioPlayer.mk "A" false (HTMLAudioElement.Audio "a.mp3") (Some (OnEndTrigger "A")))
  /\ AudioSource.volume (AudioSource.mk Url "N" None (Some "n.mp3") (Some NaN)) = Some NaN
  /\ step (Call (DoSetVolume 0 NaN)) three_units
     = (Throw (TypeError "The provided double value is non-finite."), three_units)
  /\ built_player [] (AudioSource.mk Url "N" None (Some "n.mp3") (Some NaN)) = None.
Proof.
  assert (H1 : store three_units !! 0 =
    Some (AudioPlayer.mk "A" false (HTMLAudioElement.Audio "a.mp3") (Some (OnEndTrigger "A"))))
    by reflexivity.
  assert (H2 : AudioSource.volume (AudioSource.mk Url "N" None (Some "n.mp3") (Some NaN))
               = Some NaN) by reflexivity.
  destruct (volume_faults_only_on_NaN NaN _ "n.mp3" three_units 0 []
              (AudioSource.mk Url "N" None (Some "n.mp3") (Some NaN)) H1 H2)
    as ((_ & _ & C3) & _ & _ & C6).
  split_and!; [exact H1 | exact H2 | exact C3 | exact C6].
Defined.

(** ** A unit that fails to start *)

(** While no player has its flag set, the callbacks of the platform move
    no cursor and send no notification. *)
Section Silent.
Context (C : list nat) (P : list loc) (N : list string).
Abbreviation Silent :=
  (fun v => Forall (fun p => AudioPlayer.playing p = false) (store v)
            /\ cells v = C /\ players v = P /\ notifications v = N).









End Silent.



(** ** Every attempt but the first follows a timer *)

Section Paced.
Abbreviation Paced := (fun v => forall k, paced k v).

Lemma paced_same w w' :
  plays w' = plays w ->
  (forall k, attempts k w' = attempts k w) ->
  (forall k, timeouts k w' = timeouts k w) ->
  (forall k, backoffs k w' = backoffs k w) ->
  Paced w -> Paced w'.
Proof.
  intros Hp Ha Ht Hb H k. specialize (H k). unfold paced, phase_of in *.
  by rewrite Hp, Ha, Ht, Hb.
Qed.

Lemma paced_effect e :
  (forall k, is_attempt k e = false) -> (forall k, is_timeout k e = false) ->
  stable Paced (emit e).
Proof.
  intros Ha Ht w H. rewrite emit_eq. cbn [snd]. revert H. apply paced_same.
  - done.
  - intros k. unfold attempts. cbn -[count]. rewrite count_snoc, Ha. lia.
  - intros k. unfold timeouts. cbn -[count]. rewrite count_snoc, Ht. lia.
  - intros k. unfold backoffs. cbn -[count]. rewrite count_snoc.
    assert (Hb : is_backoff k e = false).
    { specialize (Ht k). destruct e; try done. cbn in *. by rewrite Ht. }
    rewrite Hb. lia.
Qed.

Lemma paced_quiet e : quiet e -> stable Paced (emit e).
Proof. intros Hq. apply paced_effect; intros k; by destruct e. Qed.

Lemma paced_callback l : stable Paced (emit (CallbackInvoked l)).
Proof. by apply paced_effect. Qed.

Lemma paced_update l f : stable Paced (update l f).
Proof. unfold update. stable_go. apply stable_modify. intros w. by apply paced_same. Qed.

Lemma paced_write c v : stable Paced (write_cell c v).
Proof. apply stable_modify. intros w. by apply paced_same. Qed.

Lemma paced_play l loop : stable Paced (play l loop).
Proof.
  intros w H. destruct (store w !! l) as [p|] eqn:Hl.
  - rewrite (play_ok w l p loop Hl). cbn [snd]. intros k.
    specialize (H k) as Hk. specialize (H (length (plays w))) as H0.
    unfold paced, phase_of, attempts, timeouts, backoffs in *. cbn -[count].
    rewrite !count_app. cbn.
    destruct (decide (k = length (plays w))) as [->|Hne].
    + rewrite lookup_snoc_length, Nat.eqb_refl. cbn.
      rewrite (lookup_ge_None_2 (plays w) (length (plays w))) in H0 by lia. cbn in H0. lia.
    + apply Nat.eqb_neq in Hne as Hne'. rewrite Nat.eqb_sym in Hne'. 
      rewrite Hne'. cbn. rewrite !Nat.add_0_r.
      destruct (decide (k < length (plays w))) as [Hlt|Hge].
      * by rewrite lookup_app_l.
      * rewrite lookup_ge_None_2 by (rewrite length_app; cbn; lia).
        by rewrite (lookup_ge_None_2 (plays w) k) in Hk by lia.
  - unfold play, bind. rewrite emit_eq. unfold update, bind, deref. cbn. rewrite Hl. cbn.
    by apply (paced_quiet (PlayCalled l loop) Logic.I w).
Qed.

(** An activation moves on: its phase changes to [ph] and its counts by
    [da] attempts and [dt] timers of 250 ms. *)
Lemma paced_move w w' k0 l0 ph0 ph da dt :
  plays w !! k0 = Some (mkActivation l0 ph0) ->
  plays w' = <[k0 := mkActivation l0 ph]> (plays w) ->
  (forall k, attempts k w' = attempts k w + (if decide (k = k0) then da else 0)) ->
  (forall k, timeouts k w' = timeouts k w + (if decide (k = k0) then dt else 0)) ->
  (forall k, backoffs k w' = backoffs k w + (if decide (k = k0) then dt else 0)) ->
  (paced k0 w -> paced k0 w') ->
  Paced w -> Paced w'.
Proof.
  intros Hk0 Hp Ha Ht Hb Hmove H k. destruct (decide (k = k0)) as [->|Hne].
  - apply Hmove, H.
  - specialize (H k). specialize (Ha k). specialize (Ht k). specialize (Hb k).
    rewrite decide_False in Ha, Ht, Hb by done.
    unfold paced, phase_of in *. rewrite Hp, list_lookup_insert_ne by done.
    by rewrite Ha, Ht, Hb, !Nat.add_0_r.
Qed.

Lemma paced_play_settled k0 r : stable Paced (play_settled k0 r).
Proof.
  intros w H.
  destruct (plays w !! k0) as [[l0 ph0]|] eqn:Hk;
    [|rewrite play_settled_idle; [done | intros l'; by rewrite Hk]].
  destruct ph0;
    try (rewrite play_settled_idle; [done | intros l'; rewrite Hk; congruence]).
  assert (Hph : phase_of w k0 = Some AwaitPlay) by (unfold phase_of; by rewrite Hk).
  destruct r as [err|].
  - destruct (String.eqb (name err) "NotAllowedError") eqn:He.
    + (* refused: the timer is set *)
      apply String.eqb_eq in He. rewrite (play_settled_blocked w k0 l0 err Hk He). cbn [snd].
      revert H. apply (paced_move w _ k0 l0 AwaitPlay AwaitTimer 0 1 Hk); try done.
      * intros k. unfold attempts. cbn -[count]. rewrite count_app. cbn.
        destruct (decide (k = k0)); lia.
      * intros k. unfold timeouts. cbn -[count]. rewrite count_app. cbn.
        destruct (decide (k = k0)) as [->|Hne].
        -- by rewrite Nat.eqb_refl.
        -- apply Nat.eqb_neq in Hne. rewrite Nat.eqb_sym in Hne. by rewrite Hne.
      * intros k. unfold backoffs. cbn -[count]. rewrite count_app. cbn.
        destruct (decide (k = k0)) as [->|Hne].
        -- by rewrite Nat.eqb_refl.
        -- apply Nat.eqb_neq in Hne. rewrite Nat.eqb_sym in Hne. by rewrite Hne.
      * unfold paced, phase_of, attempts, timeouts, backoffs. cbn -[count].
        rewrite Hk, (lookup_insert_same _ _ _ _ Hk), !count_app. cbn.
        rewrite Nat.eqb_refl. cbn. lia.
    + (* failed: the activation gives up *)
      apply String.eqb_neq in He. destruct (store w !! l0) as [p|] eqn:Hl.
      * rewrite (play_settled_failed w k0 l0 p err Hk Hl He). cbn [snd].
        revert H. apply (paced_move w _ k0 l0 AwaitPlay Resolved 0 0 Hk); try done.
        -- intros k. unfold attempts. cbn -[count]. rewrite count_app. cbn.
           destruct (decide (k = k0)); lia.
        -- intros k. unfold timeouts. cbn -[count]. rewrite count_app. cbn.
           destruct (decide (k = k0)); lia.
        -- intros k. unfold backoffs. cbn -[count]. rewrite count_app. cbn.
           destruct (decide (k = k0)); lia.
        -- unfold paced, phase_of, attempts, timeouts, backoffs. cbn -[count].
           rewrite Hk, (lookup_insert_same _ _ _ _ Hk), !count_app. cbn. lia.
      * unfold play_settled. rewrite bind_activation_of, Hk.
        apply String.eqb_neq in He. rewrite He. unfold bind. rewrite emit_eq.
        unfold update, bind, deref. cbn. rewrite Hl. cbn.
        by apply (paced_quiet (ConsoleError "Audio playback failed:" err) Logic.I w).
  - (* let through *)
    destruct (store w !! l0) as [p|] eqn:Hl.
    + rewrite (play_settled_fulfilled w k0 l0 p Hk Hl). cbn [snd].
      revert H. apply (paced_move w _ k0 l0 AwaitPlay Resolved 0 0 Hk); try done.
      * intros k. unfold attempts. cbn -[count]. destruct (decide (k = k0)); lia.
      * intros k. unfold timeouts. cbn -[count]. destruct (decide (k = k0)); lia.
      * intros k. unfold backoffs. cbn -[count]. destruct (decide (k = k0)); lia.
      * unfold paced, phase_of, attempts, timeouts, backoffs. cbn -[count].
        rewrite Hk, (lookup_insert_same _ _ _ _ Hk). cbn. lia.
    + unfold play_settled. rewrite bind_activation_of, Hk.
      unfold bind, update, bind, deref. by rewrite Hl.
Qed.

Lemma paced_timer_fired k0 : stable Paced (timer_fired k0).
Proof.
  intros w H.
  destruct (plays w !! k0) as [[l0 ph0]|] eqn:Hk;
    [|rewrite timer_fired_idle; [done | intros l'; by rewrite Hk]].
  destruct ph0;
    try (rewrite timer_fired_idle; [done | intros l'; rewrite Hk; congruence]).
  destruct (store w !! l0) as [p|] eqn:Hl.
  - destruct (AudioPlayer.playing p) eqn:Hp.
    + rewrite (timer_fired_live w k0 l0 p Hk Hl Hp). cbn [snd].
      revert H. apply (paced_move w _ k0 l0 AwaitTimer AwaitPlay 1 0 Hk); try done.
      * intros k. unfold attempts. cbn -[count]. rewrite count_app. cbn.
        destruct (decide (k = k0)) as [->|Hne].
        -- by rewrite Nat.eqb_refl.
        -- apply Nat.eqb_neq in Hne. rewrite Nat.eqb_sym in Hne. by rewrite Hne.
      * intros k. unfold timeouts. cbn -[count]. rewrite count_app. cbn.
        destruct (decide (k = k0)); lia.
      * intros k. unfold backoffs. cbn -[count]. rewrite count_app. cbn.
        destruct (decide (k = k0)); lia.
      * unfold paced, phase_of, attempts, timeouts, backoffs. cbn -[count].
        rewrite Hk, (lookup_insert_same _ _ _ _ Hk), !count_app. cbn.
        rewrite Nat.eqb_refl. cbn. lia.
    + rewrite (timer_fired_stopped w k0 l0 p Hk Hl Hp). cbn [snd].
      revert H. apply (paced_move w _ k0 l0 AwaitTimer Resolved 0 0 Hk); try done.
      * intros k. unfold attempts. cbn -[count]. destruct (decide (k = k0)); lia.
      * intros k. unfold timeouts. cbn -[count]. destruct (decide (k = k0)); lia.
      * intros k. unfold backoffs. cbn -[count]. destruct (decide (k = k0)); lia.
      * unfold paced, phase_of, attempts, timeouts, backoffs. cbn -[count].
        rewrite Hk, (lookup_insert_same _ _ _ _ Hk). cbn. lia.
  - unfold timer_fired. rewrite bind_activation_of, Hk.
    unfold bind, deref. by rewrite Hl.
Qed.

Lemma paced_frame w w' :
  store w' = store w -> players w' = players w -> plays w' = plays w ->
  trace w' = trace w -> Paced w -> Paced w'.
Proof.
  intros _ _ Hp Ht H k. specialize (H k).
  unfold paced, phase_of, attempts, timeouts, backoffs in *. by rewrite Hp, Ht.
Qed.

Lemma paced_new_player s url : stable Paced (AudioPlayerWidget.new_player s url).
Proof.
  unfold AudioPlayerWidget.new_player. stable_go.
  - intros w. by apply paced_same.
  - apply stable_modify. intros w. by apply paced_same.
  - by apply paced_quiet.
Qed.

Lemma paced_no_players : stable Paced (modify (set_players [])).
Proof. apply stable_modify. intros w. by apply paced_same. Qed.

Lemma paced_run es w : Paced w -> Paced (snd (run es w)).
Proof.
  apply stable_run;
    [apply paced_frame | apply paced_update | apply paced_quiet | apply paced_callback
    | apply paced_play | apply paced_new_player | apply paced_no_players
    | apply paced_play_settled | apply paced_timer_fired].
Qed.

End Paced.

(** X18.  From the freshly loaded widget on, whatever events occur and
    for every activation of [play()]: every timer it has set is one of
    250 ms; it never makes two attempts without a timer in between, so
    its attempts are at most its timers plus one; while it awaits an
    attempt it has made exactly one attempt more than it has set timers,
    and exactly as many while it awaits its timer; and its promise never
    rejects. *)
Theorem attempts_are_paced
    (srcs : list AudioSource.t) (auto : bool) (files : list (string * string))
    (es : list event) (k : nat) :
  paced k (snd (run es (boot srcs auto files)))
  /\ timeouts k (snd (run es (boot srcs auto files)))
     = backoffs k (snd (run es (boot srcs auto files)))
  /\ attempts k (snd (run es (boot srcs auto files)))
     <= backoffs k (snd (run es (boot srcs auto files))) + 1
  /\ Forall (fun ph => ph = AwaitPlay \/ ph = AwaitTimer \/ ph = Resolved)
       (option_list (phase_of (snd (run es (boot srcs auto files))) k)).
Proof.
  assert (H : paced k (snd (run es (boot srcs auto files)))).
  { apply paced_run. intros k'. unfold paced, phase_of. cbn. done. }
  split; [exact H|]. destruct H as [Ht H]. rewrite <- Ht. split; [done|].
  destruct (phase_of _ k) as [[| | |e]|]; cbn [option_list].
  - split; [lia|]. apply Forall_cons_2; [by left | apply Forall_nil_2].
  - split; [lia|]. apply Forall_cons_2; [right; by left | apply Forall_nil_2].
  - split; [lia|]. apply Forall_cons_2; [right; by right | apply Forall_nil_2].
  - done.
  - split; [lia|]. apply Forall_nil_2.
Qed.

(** ** Only triggers the host knows are fired *)

Lemma stable_bind_deref (Inv : world -> Prop) {B} l (f : AudioPlayer.t -> M B) :
  (forall w p, Inv w -> store w !! l = Some p -> Inv (snd (f p w))) ->
  stable Inv (bind (deref l) f).
Proof.
  intros Hf w H. unfold bind, deref. destruct (store w !! l) as [p|] eqn:Hl; [|done].
  by apply Hf.
Qed.

Lemma stable_bind_get (Inv : world -> Prop) {B} (f : world -> M B) :
  (forall w, Inv w -> Inv (snd (f w w))) -> stable Inv (bind get f).
Proof. intros Hf w H. by apply Hf. Qed.

(** Between two calls of [initialize] the table [T] of the host and the
    collection [P] of the widget stay as they are; [N] are the
    notifications sent before. *)
Section Registered.
Context (N T : list string) (P : list loc).
Abbreviation Reg :=
  (fun v => registered v /\ fires_within N v /\ trigger_ids v = T /\ players v = P).

Lemma reg_same w w' :
  store w' = store w -> players w' = players w -> trace w' = trace w ->
  inits w' = inits w -> sources w' = sources w ->
  haptic_actionTriggers w' = haptic_actionTriggers w ->
  Reg w -> Reg w'.
Proof.
  intros Hst Hp Htr Hi Hs Ht.
  unfold registered, fires_within, own_closure, trigger_ids, notifications.
  by rewrite Hst, Hp, Htr, Hi, Hs, Ht.
Qed.

Lemma reg_emit e : (forall a, e = TriggerAction a -> a ∈ T) -> stable Reg (emit e).
Proof.
  intros He w (Hr & (new & Hn & Hnew) & HT & HP). rewrite emit_eq. cbn [snd].
  split_and!; try done.
  unfold fires_within, notifications, trigger_ids in *. cbn [trace set_trace haptic_actionTriggers].
  rewrite omap_app, Hn.
  destruct e; cbn [omap list_omap app];
    try (exists new; split; [by rewrite app_nil_r | done]).
  exists (new ++ [action]). split; [by rewrite app_assoc|].
  apply Forall_app. split; [done|].
  apply Forall_cons_2; [|apply Forall_nil_2]. rewrite HT. by apply He.
Qed.

Lemma reg_quiet e : (forall a, e <> TriggerAction a) -> stable Reg (emit e).
Proof. intros He. apply reg_emit. intros a Ha. by destruct (He a). Qed.

Lemma reg_trigger a : a ∈ T -> stable Reg (triggerAction a).
Proof. intros Ha. apply reg_emit. by intros a' [= <-]. Qed.

(** An update that keeps the identifier, and keeps the callback or puts
    one that may sit on this player. *)
Lemma reg_update_at w l f :
  Reg w ->
  (forall p, store w !! l = Some p ->
     AudioPlayer.id (f p) = AudioPlayer.id p
     /\ (AudioPlayer.onEndCallback (f p) = AudioPlayer.onEndCallback p
         \/ own_closure w l (f p))) ->
  Reg (snd (update l f w)).
Proof.
  intros ((H1 & H2 & H3 & H4) & Hn & HT & HP) Hf. unfold update, bind, deref.
  destruct (store w !! l) as [p|] eqn:Hl; [|done]. cbn [snd modify].
  destruct (Hf p eq_refl) as [Hid Hcb].
  split_and!; try done. split_and!; try done.
  - intros x p' Hx Hin. cbn [store set_store players trigger_ids haptic_actionTriggers] in *.
    destruct (decide (x = l)) as [->|Hne].
    + rewrite (lookup_insert_same _ _ _ _ Hl) in Hx. injection Hx as <-.
      rewrite Hid. by apply (H1 l).
    + rewrite list_lookup_insert_ne in Hx by done. by apply (H1 x).
  - intros x p' Hx. cbn [store set_store] in Hx.
    destruct (decide (x = l)) as [->|Hne].
    + rewrite (lookup_insert_same _ _ _ _ Hl) in Hx. injection Hx as <-.
      destruct Hcb as [Hcb|Hcb]; [|exact Hcb].
      specialize (H2 l p Hl). unfold own_closure in *. cbn [players set_store].
      by rewrite Hcb, Hid.
    + rewrite list_lookup_insert_ne in Hx by done. by apply (H2 x).
Qed.

Lemma reg_update l f :
  (forall p, AudioPlayer.id (f p) = AudioPlayer.id p) ->
  (forall p, AudioPlayer.onEndCallback (f p) = AudioPlayer.onEndCallback p
             \/ match AudioPlayer.onEndCallback (f p) with
                | Some (OnEndTrigger _) | Some (OnEndAdvance _ _) => False
                | _ => True
                end) ->
  stable Reg (update l f).
Proof.
  intros Hid Hcb w H. apply reg_update_at; [done|]. intros p _. split; [done|].
  destruct (Hcb p) as [E|E]; [by left | right].
  unfold own_closure. by destruct (AudioPlayer.onEndCallback (f p)) as [[]|].
Qed.

Lemma reg_register_advance c l :
  l ∈ P -> stable Reg (update l (AudioPlayer.registerOnEndCallback (OnEndAdvance c l))).
Proof.
  intros Hl w H. apply reg_update_at; [done|]. intros p _. split; [done|]. right.
  unfold own_closure. cbn. split; [|done]. destruct H as (_ & _ & _ & ->). done.
Qed.

Ltac as_reg :=
  cbv beta in *;
  match goal with
  | H : registered ?w /\ _ |- registered (snd (?m ?w)) /\ _ =>
      revert w H; change (stable Reg m)
  end.

Ltac reg_leaf :=
  match goal with
  | |- stable _ (update _ AudioPlayer.destroy) =>
      apply reg_update; intros ?; [reflexivity | right; exact Logic.I]
  | |- stable _ (update _ (AudioPlayer.registerOnEndCallback (OnEndUser _ _))) =>
      apply reg_update; intros ?; [reflexivity | right; exact Logic.I]
  | |- stable _ (update _ _) =>
      apply reg_update; intros ?; [reflexivity | left; reflexivity]
  | |- stable _ (write_cell _ _) => apply stable_modify; intros ?; by apply reg_same
  | |- stable _ (set_phase _ _) =>
      apply stable_modify; intros w0; destruct (plays w0 !! _); [by apply reg_same | done]
  | |- stable _ (emit _) => apply reg_quiet; intros ?; discriminate
  | |- stable _ (spawn _) => intros ?; by apply reg_same
  | |- stable _ (find_player _) => by intros ? ?
  | |- stable _ (new_cell _) => intros ?; by apply reg_same
  | |- stable _ (activation_of _) => by intros ? ?
  end.

Lemma reg_play l loop : stable Reg (play l loop).
Proof. unfold play, attemptPlay. stable_go; reg_leaf. Qed.

Lemma reg_do_call c : stable Reg (do_call c).
Proof.
  destruct c; cbn [do_call]; try (stable_go; first [apply reg_play | reg_leaf]).
  apply stable_bind_deref. intros w p H Hl.
  unfold AudioPlayer.setVolume.
  destruct (HTMLAudioElement.set_volume _ _) as [a|e]; [|done].
  apply reg_update_at; [done|]. intros p' Hl'. rewrite Hl in Hl'. injection Hl' as <-.
  split; [reflexivity | left; reflexivity].
Qed.

Lemma reg_managed w l p :
  Reg w -> l ∈ P -> store w !! l = Some p ->
  ended_action (AudioPlayer.id p) ∈ T /\ started_action (AudioPlayer.id p) ∈ T.
Proof.
  intros ((H1 & _) & _ & HT & HP) Hl Hp. rewrite <- HT. apply (H1 l p Hp). by rewrite HP.
Qed.

Lemma reg_playNext c : stable Reg (playNext c).
Proof.
  unfold playNext. apply stable_bind_get. intros w H.
  assert (HP : players w = P) by apply H. rewrite HP. clear HP. as_reg.
  apply stable_bind; [apply stable_read_cell | intros i].
  apply stable_bind; [destruct (_ <=? _)%nat; [reg_leaf | apply stable_ret] | intros _].
  apply stable_bind; [apply stable_read_cell | intros ci].
  destruct (P !! ci) as [l|] eqn:Hci; [|apply stable_throw].
  assert (Hl : l ∈ P) by (apply list_elem_of_lookup; by exists ci).
  apply stable_bind; [by apply reg_register_advance | intros _].
  apply stable_bind_deref. intros w p H Hp.
  destruct (reg_managed w l p H Hl Hp) as [_ Hstart].
  clear Hp. as_reg.
  stable_go; [by apply reg_trigger | apply reg_play].
Qed.

Lemma reg_invoke w l p cb :
  Reg w -> store w !! l = Some p -> AudioPlayer.onEndCallback p = Some cb ->
  Reg (snd (invoke cb w)).
Proof.
  intros H Hp Hcb.
  assert (Hown : own_closure w l p) by (destruct H as ((_ & H2 & _) & _); by apply H2).
  unfold own_closure in Hown. rewrite Hcb in Hown.
  assert (HP : players w = P) by apply H.
  destruct cb as [sid | c l0 | calls raises]; cbn [invoke].
  - destruct Hown as [Hl ->]. rewrite HP in Hl.
    destruct (reg_managed w l p H Hl Hp) as [Hend _].
    clear Hp Hcb HP. as_reg. by apply reg_trigger.
  - destruct Hown as [Hl ->]. rewrite HP in Hl. clear Hp Hcb HP. as_reg.
    apply stable_bind_deref. intros w p' H Hp'.
    destruct (reg_managed w l p' H Hl Hp') as [Hend _].
    clear Hp'. as_reg.
    stable_go; [by apply reg_trigger | reg_leaf | apply reg_playNext].
  - clear Hp Hcb Hown HP. as_reg. stable_go; apply reg_do_call.
Qed.

Lemma reg_ended_listener l : stable Reg (ended_listener l).
Proof.
  unfold ended_listener. apply stable_bind; [apply stable_deref | intros p].
  destruct (negb (AudioPlayer.playing p)); [apply stable_ret|].
  apply stable_bind; [reg_leaf | intros _].
  apply stable_bind_deref. intros w p' H Hl.
  destruct (AudioPlayer.onEndCallback p') as [cb|] eqn:Hcb; [|done].
  unfold try_catch, bind. rewrite emit_eq.
  assert (H1 : Reg (set_trace (trace w ++ [CallbackInvoked l]) w)).
  { apply (reg_quiet (CallbackInvoked l) ltac:(intros ?; discriminate) w H). }
  assert (H2 := reg_invoke _ l p' cb H1 Hl Hcb).
  destruct (invoke cb _) as [[[]|err] w2]; cbn [snd] in *; [done|].
  by apply (reg_quiet (ConsoleError "Audio onEnd callback failed:" err)
              ltac:(intros ?; discriminate) w2).
Qed.

Lemma reg_playAsPlaylist : stable Reg AudioPlayerWidget.playAsPlaylist.
Proof.
  unfold AudioPlayerWidget.playAsPlaylist. stable_go; first [apply reg_playNext | reg_leaf].
Qed.

Lemma reg_widget_play id loop : stable Reg (AudioPlayerWidget.play id loop).
Proof. unfold AudioPlayerWidget.play. stable_go; first [apply reg_play | reg_leaf]. Qed.

Lemma reg_widget_stop id : stable Reg (AudioPlayerWidget.stop id).
Proof. unfold AudioPlayerWidget.stop. stable_go; reg_leaf. Qed.

Lemma reg_stopAll : stable Reg AudioPlayerWidget.stopAll.
Proof. unfold AudioPlayerWidget.stopAll. stable_go; reg_leaf. Qed.

Lemma reg_run_effect cb : stable Reg (AudioPlayerWidget.run_effect cb).
Proof.
  destruct cb; cbn [AudioPlayerWidget.run_effect];
    auto using reg_stopAll, reg_playAsPlaylist, reg_widget_play, reg_widget_stop.
Qed.

Lemma reg_play_settled k r : stable Reg (play_settled k r).
Proof. unfold play_settled. stable_go; reg_leaf. Qed.

Lemma reg_timer_fired k : stable Reg (timer_fired k).
Proof. unfold timer_fired, attemptPlay. stable_go; reg_leaf. Qed.

Lemma reg_register_user l calls raises :
  stable Reg (update l (AudioPlayer.registerOnEndCallback (OnEndUser calls raises))).
Proof. reg_leaf. Qed.

Lemma reg_set_init a st :
  match st with AwaitFileUrl _ _ _ _ | AwaitFileNode _ _ _ _ _ => False | _ => True end ->
  stable Reg (set_init a st).
Proof.
  intros Hst. apply stable_modify. intros w ((H1 & H2 & H3 & H4) & Hn & HT & HP).
  split_and!; try done. split_and!; try done.
  cbn [inits set_inits]. by apply Forall_insert.
Qed.

End Registered.

(** No lookup is answered while no activation of [initialize] awaits one. *)
Lemma lookup_settled_idle w a :
  Forall (fun i => match i with
                   | AwaitFileUrl _ _ _ _ | AwaitFileNode _ _ _ _ _ => False
                   | _ => True
                   end) (inits w) ->
  (forall r, step (FileUrlSettled a r) w = (Ret tt, w))
  /\ (forall r, step (FileNodeSettled a r) w = (Ret tt, w)).
Proof.
  intros H. split; intros r; cbn [step];
    unfold AudioPlayerWidget.file_url_settled, AudioPlayerWidget.file_node_settled;
    unfold bind at 1; cbn [get];
    destruct (inits w !! a) as [i|] eqn:Ha; try done;
    apply (Forall_lookup_1 _ _ _ _ H) in Ha; by destruct i.
Qed.

Lemma synchronous_lookups a files names srcs :
  Forall (fun s => synchronous s = true) srcs -> lookups a files names srcs = [].
Proof.
  induction 1 as [|s srcs Hs _ IH]; [done|]. cbn [lookups]. rewrite IH, app_nil_r.
  unfold synchronous in Hs.
  by destruct (AudioSource.type s), (AudioPlayerWidget.truthy (AudioSource.fileId s)).
Qed.

Lemma run_single e w : snd (run [e] w) = snd (step e w).
Proof. cbn [run]. by destruct (step e w) as [[[]|err] w1]. Qed.

(** Where [running] leaves the end of [initialize]: the tables are with
    the host, the playlist is started if [autoStart] says so, and the
    activation has settled. *)
Lemma init_finish_world a ts es w :
  exists st,
    match st with AwaitFileUrl _ _ _ _ | AwaitFileNode _ _ _ _ _ => False | _ => True end
    /\ snd (running a (AudioPlayerWidget.init_finish a ts es) w) =
       snd (set_init a st
              (snd ((if autoStart w then AudioPlayerWidget.playAsPlaylist else ret tt)
                      (set_haptic_actionEffects es (set_haptic_actionTriggers ts w))))).
Proof.
  unfold running, try_catch, AudioPlayerWidget.init_finish, bind, modify, get.
  cbn [autoStart set_haptic_actionEffects set_haptic_actionTriggers].
  destruct ((if autoStart w then AudioPlayerWidget.playAsPlaylist else ret tt) _)
    as [[[]|e] w1].
  - by exists InitResolved.
  - by exists (InitRejected e).
Qed.

(** [initialize] over sources that need no lookup leaves the host with
    the triggers of the players it has built. *)
Lemma registered_initialize w :
  registered w -> valid_players w ->
  registered (snd (step WidgetInitialize w))
  /\ fires_within (notifications w) (snd (step WidgetInitialize w)).
Proof.
  intros (H1 & H2 & H3 & srcs & Hs & Hsync) Hv.
  destruct (initialize_uninterrupted (fun _ => None) w srcs Hv Hs) as (t & E & Ht & _).
  rewrite (synchronous_lookups _ _ _ _ Hsync) in E.
  rewrite <- run_single, E, then_run_nil. cbn [snd]. clear E.
  set (a := length (inits w)).
  set (ts := pushed_triggers (assets w) (fun _ => None) srcs []).
  set (es := pushed_effects (assets w) (fun _ => None) srcs AudioPlayerWidget.global_effects).
  set (made := omap (built_player (assets w)) srcs).
  set (old := update_all AudioPlayer.destroy (players w) (store w)).
  assert (Hold : length old = length (store w)) by apply length_update_all.
  set (w1 := mkWorld _ _ _ _ _ _ _ _ _ _ _).
  destruct (init_finish_world a ts es w1) as (st & Hst & ->).
  set (w2 := set_haptic_actionEffects es (set_haptic_actionTriggers ts w1)).
  assert (Hids : trigger_ids w2 =
            flat_map (fun p => [ended_action (AudioPlayer.id p);
                                started_action (AudioPlayer.id p)]) made).
  { apply (pushed_triggers_ids _ _ _ []). }
  assert (Hmade : forall x p, store w2 !! x = Some p -> length (store w) <= x ->
            p ∈ made /\ x ∈ players w2).
  { intros x p Hx Hge. cbn [store w2 w1 set_haptic_actionEffects set_haptic_actionTriggers] in Hx.
    rewrite lookup_app_r in Hx by lia. split.
    - apply list_elem_of_lookup. by eexists.
    - cbn [players w2 w1 set_haptic_actionEffects set_haptic_actionTriggers].
      apply elem_of_seq. apply lookup_lt_Some in Hx. lia. }
  assert (Hreg : (registered w2 /\ fires_within (notifications w) w2
                  /\ trigger_ids w2 = trigger_ids w2 /\ players w2 = players w2)).
  { split_and!; try done.
    - split_and!.
      + intros x p Hx Hin.
        assert (Hge : length (store w) <= x).
        { cbn [players w2 w1 set_haptic_actionEffects set_haptic_actionTriggers] in Hin.
          apply elem_of_seq in Hin. lia. }
        destruct (Hmade x p Hx Hge) as [Hp _]. rewrite Hids.
        split; apply list_elem_of_In, in_flat_map; exists p;
          (split; [by apply list_elem_of_In | cbn; auto]).
      + intros x p Hx. destruct (decide (x < length (store w))) as [Hlt|Hge].
        * cbn [store w2 w1 set_haptic_actionEffects set_haptic_actionTriggers] in Hx.
          rewrite lookup_app_l in Hx by lia. subst old.
          rewrite (lookup_update_all _ _ _ _ destroy_idempotent) in Hx.
          destruct (store w !! x) as [p0|] eqn:Hp0;
            [|by destruct (bool_decide (x ∈ players w))].
          case_bool_decide as Hin; cbn in Hx; injection Hx as <-.
          -- done.
          -- specialize (H2 x p0 Hp0). unfold own_closure in *.
             destruct (AudioPlayer.onEndCallback p0) as [[sid|c0 l0|]|]; try done.
             ++ by destruct H2.
             ++ by destruct H2.
        * destruct (Hmade x p Hx ltac:(lia)) as [Hp Hin].
          apply list_elem_of_omap in Hp as (s & _ & Hb).
          destruct (built_player_shape _ _ _ Hb) as (Hid & _ & Hcb & _).
          unfold own_closure. rewrite Hcb. by rewrite Hid.
      + cbn [inits w2 w1 set_haptic_actionEffects set_haptic_actionTriggers].
        apply Forall_app. split; [done|]. by apply Forall_cons_2.
      + by exists srcs.
    - exists []. split; [|done]. rewrite app_nil_r. unfold notifications.
      cbn [trace w2 w1 set_haptic_actionEffects set_haptic_actionTriggers].
      change (trace w ++ AnalyticsDebug "initialize" :: t)
        with (trace w ++ [AnalyticsDebug "initialize"] ++ t).
      rewrite !omap_app, (errors_notify_nothing t Ht). cbn. by rewrite !app_nil_r. }
  assert (Hauto : stable (fun v => registered v /\ fires_within (notifications w) v
                                   /\ trigger_ids v = trigger_ids w2 /\ players v = players w2)
                    (if autoStart w1 then AudioPlayerWidget.playAsPlaylist else ret tt)).
  { destruct (autoStart w1); [apply reg_playAsPlaylist | apply stable_ret]. }
  pose proof (reg_set_init (notifications w) (trigger_ids w2) (players w2) a st Hst _
                (Hauto w2 Hreg)) as (R1 & R2 & _).
  done.
Qed.

(** The triggers the host knows are kept up with the players, and only
    they are fired, by every event of the widget's own. *)
Lemma registered_step e w :
  registered w -> valid_players w -> own_event e ->
  registered (snd (step e w)) /\ fires_within (notifications w) (snd (step e w)).
Proof.
  intros Hr Hv Hown.
  assert (H0 : registered w /\ fires_within (notifications w) w
               /\ trigger_ids w = trigger_ids w /\ players w = players w).
  { split_and!; try done. exists []. by rewrite app_nil_r. }
  assert (Hplain : stable (fun v => registered v /\ fires_within (notifications w) v
                                    /\ trigger_ids v = trigger_ids w /\ players v = players w)
                     (step e) ->
                   registered (snd (step e w)) /\ fires_within (notifications w) (snd (step e w))).
  { intros Hst. by destruct (Hst w H0) as (? & ? & _). }
  destruct e; cbn [own_event] in Hown.
  - apply Hplain. apply reg_do_call.
  - apply Hplain. cbn [step]. destruct cb; [done | done |]. apply reg_register_user.
  - apply Hplain. apply reg_widget_play.
  - apply Hplain. apply reg_widget_stop.
  - apply Hplain. apply reg_stopAll.
  - apply Hplain. apply reg_playAsPlaylist.
  - by apply registered_initialize.
  - (* destroy *)
    rewrite (destroyPlayers_ok w Hv). cbn [snd].
    destruct Hr as (H1 & H2 & H3 & H4). split.
    + split_and!; try done.
      * intros x p _ Hin. cbn in Hin. by apply elem_of_nil in Hin.
      * intros x p Hx. cbn [store set_players set_store] in Hx.
        rewrite (lookup_update_all _ _ _ _ destroy_idempotent) in Hx.
        destruct (store w !! x) as [p0|] eqn:Hp0;
          [|by destruct (bool_decide (x ∈ players w))].
        case_bool_decide as Hin; cbn in Hx; injection Hx as <-.
        -- done.
        -- specialize (H2 x p0 Hp0). unfold own_closure in *.
           destruct (AudioPlayer.onEndCallback p0) as [[sid|c0 l0|]|]; try done.
           ++ by destruct H2.
           ++ by destruct H2.
    + exists []. by rewrite app_nil_r.
  - (* the sources change *)
    cbn [step]. unfold bind at 1. cbn [modify].
    assert (Hr' : registered (set_sources (Some srcs) w)).
    { destruct Hr as (H1 & H2 & H3 & H4). split_and!; try done. by exists srcs. }
    apply (registered_initialize _ Hr' Hv).
  - cbn [step modify snd]. split.
    + by destruct Hr as (H1 & H2 & H3 & H4).
    + exists []. by rewrite app_nil_r.
  - apply Hplain. cbn [step]. apply stable_bind; [apply stable_get | intros w0].
    destruct (List.find _ _); [apply reg_run_effect | apply stable_ret].
  - apply Hplain. apply reg_play_settled.
  - apply Hplain. apply reg_timer_fired.
  - apply Hplain. apply reg_ended_listener.
  - destruct (lookup_settled_idle w a) as [-> _]; [by destruct Hr as (_ & _ & ? & _)|].
    cbn [snd]. split; [done|]. exists []. by rewrite app_nil_r.
  - destruct (lookup_settled_idle w a) as [_ ->]; [by destruct Hr as (_ & _ & ? & _)|].
    cbn [snd]. split; [done|]. exists []. by rewrite app_nil_r.
Qed.

Lemma registered_run es w :
  Forall own_event es ->
  registered w -> well_formed w ->
  registered (snd (run es w)) /\ well_formed (snd (run es w)).
Proof.
  revert w. induction es as [|e es IH]; intros w Hown Hr Hw; [done|].
  apply Forall_cons in Hown as [He Hes].
  destruct (registered_step e w Hr (proj1 Hw) He) as [Hr1 _].
  assert (Hw1 : well_formed (snd (step e w))).
  { destruct (sound_run 0 [e] w (conj Hw (Nat.le_0_l _))) as [Hs _].
    by rewrite run_single in Hs. }
  cbn [run]. destruct (step e w) as [[[]|err] w1]; cbn [snd] in *.
  - by apply IH.
  - specialize (IH w1 Hes Hr1 Hw1). by destruct (run es w1).
Qed.

(** X19.  The widget fires only triggers the host knows.  The widget is
    loaded with sources that need no lookup (URL sources, or files not
    yet picked), and whenever the settings change the sources they are
    of this kind again, so that [initialize] never suspends; nobody but
    the widget registers the widget's own closures on a player.  Then,
    whatever the widget, the host, the platform and the callers of the
    players' public methods do, every notification an event sends to the
    action system is the identifier of a trigger that is in
    [haptic.actionTriggers] when the event has run, the table
    [initialize] has installed last; and that table holds the start and
    the end of every player the widget manages. *)
Theorem only_registered_triggers_fire
    (srcs : list AudioSource.t) (auto : bool) (files : list (string * string))
    (es : list event) (e : event) :
  Forall (fun s => synchronous s = true) srcs ->
  Forall own_event es ->
  own_event e ->
  let w := snd (run es (boot srcs auto files)) in
  let w' := snd (step e w) in
  (exists new,
     notifications w' = notifications w ++ new
     /\ Forall (fun a => a ∈ trigger_ids w') new)
  /\ Forall (fun l => match store w' !! l with
                      | Some p => ended_action (AudioPlayer.id p) ∈ trigger_ids w'
                                  /\ started_action (AudioPlayer.id p) ∈ trigger_ids w'
                      | None => False
                      end) (players w').
Proof.
  intros Hsync Hown He. cbn zeta.
  assert (H0 : registered (boot srcs auto files)).
  { split_and!; try done. by exists srcs. }
  destruct (registered_run es _ Hown H0 (boot_well_formed srcs auto files)) as [Hr Hw].
  destruct (registered_step e _ Hr (proj1 Hw) He) as [Hr1 Hn].
  split; [exact Hn|].
  assert (Hw1 : well_formed (snd (step e (snd (run es (boot srcs auto files)))))).
  { destruct (sound_run 0 [e] _ (conj Hw (Nat.le_0_l _))) as [Hs _].
    by rewrite run_single in Hs. }
  apply Forall_forall. intros l Hl.
  destruct (lookup_lt_is_Some_2 _ _ (proj1 Hw1 l Hl)) as [p Hp]. rewrite Hp.
  destruct Hr1 as (H1 & _). by apply (H1 l p Hp).
Qed.

Lemma only_registered_triggers_fire_witness :
  Forall (fun s => synchronous s = true) three_sources
  /\ Forall own_event [WidgetInitialize; PlaySettled 0 None; Ended 0;
                       CallRegisterOnEndCallback 1 (OnEndUser [DoStop 1] None);
                       SourcesChanged [url_source "D" "d.mp3"];
                       WidgetPlay "D" false; PlaySettled 2 None]
  /\ own_event (Ended 3)
  /\ trigger_ids
       (snd (run [WidgetInitialize; PlaySettled 0 None; Ended 0;
                  CallRegisterOnEndCallback 1 (OnEndUser [DoStop 1] None);
                  SourcesChanged [url_source "D" "d.mp3"];
                  WidgetPlay "D" false; PlaySettled 2 None; Ended 3]
               (boot three_sources true [])))
     = ["widget-audio-player-audio-ended-D"; "widget-audio-player-audio-started-D"]
  /\ notifications
       (snd (run [WidgetInitialize; PlaySettled 0 None; Ended 0;
                  CallRegisterOnEndCallback 1 (OnEndUser [DoStop 1] None);
                  SourcesChanged [url_source "D" "d.mp3"];
                  WidgetPlay "D" false; PlaySettled 2 None; Ended 3]
               (boot three_sources true [])))
     = ["widget-audio-player-audio-started-A"; "widget-audio-player-audio-ended-A";
        "widget-audio-player-audio-started-B"; "widget-audio-player-audio-started-D";
        "widget-audio-player-audio-ended-D"; "widget-audio-player-audio-started-D"]
  /\ exists new,
       notifications
         (snd (step (Ended 3)
                 (snd (run [WidgetInitialize; PlaySettled 0 None; Ended 0;
                            CallRegisterOnEndCallback 1 (OnEndUser [DoStop 1] None);
                            SourcesChanged [url_source "D" "d.mp3"];
                            WidgetPlay "D" false; PlaySettled 2 None]
                         (boot three_sources true [])))))
       = notifications
           (snd (run [WidgetInitialize; PlaySettled 0 None; Ended 0;
                      CallRegisterOnEndCallback 1 (OnEndUser [DoStop 1] None);
                      SourcesChanged [url_source "D" "d.mp3"];
                      WidgetPlay "D" false; PlaySettled 2 None]
                   (boot three_sources true []))) ++ new
       /\ Forall (fun a => a ∈ trigger_ids
                    (snd (step (Ended 3)
                       (snd (run [WidgetInitialize; PlaySettled 0 None; Ended 0;
                                  CallRegisterOnEndCallback 1 (OnEndUser [DoStop 1] None);
                                  SourcesChanged [url_source "D" "d.mp3"];
                                  WidgetPlay "D" false; PlaySettled 2 None]
                               (boot three_sources true [])))))) new.
Proof.
  assert (H1 : Forall (fun s => synchronous s = true) three_sources).
  { repeat (apply Forall_cons_2; [reflexivity|]). apply Forall_nil_2. }
  assert (H2 : Forall own_event [WidgetInitialize; PlaySettled 0 None; Ended 0;
                       CallRegisterOnEndCallback 1 (OnEndUser [DoStop 1] None);
                       SourcesChanged [url_source "D" "d.mp3"];
                       WidgetPlay "D" false; PlaySettled 2 None]).
  { repeat (apply Forall_cons_2;
              [first [exact Logic.I
                     | apply Forall_cons_2; [reflexivity | apply Forall_nil_2]]|]).
    apply Forall_nil_2. }
  assert (H3 : own_event (Ended 3)) by exact Logic.I.
  destruct (only_registered_triggers_fire three_sources true [] _ (Ended 3) H1 H2 H3)
    as (C1 & _).
  split_and!; [exact H1 | exact H2 | exact H3 | reflexivity | reflexivity | exact C1].
Defined.
(** ** One unit at a time *)




(** ** A natural end that calls nothing *)

(** C4, at the input where the code departs from it.  [play()], [stop()]
    and [play()] are called on a player with an end callback while the
    first attempt is pending.  [stop()] pauses the element, so the
    platform rejects the first attempt with an error that is not
    NotAllowedError (an AbortError).  The handler of that rejection
    belongs to the first [play()], and it clears the playing flag that
    the second [play()] has set.  The second attempt is fulfilled: the
    element plays while the flag is false.  No fault is raised and no
    callback is called on the way.  When the resource then reaches its
    end, the listener returns at once: the registered callback is not
    invoked at this natural end. *)
Theorem stale_rejection_silences_end_callback
    (w : world) (l : loc) (p : AudioPlayer.t) (cb : callback) (loop loop' : bool)
    (err : Error) :
  store w !! l = Some p ->
  AudioPlayer.onEndCallback p = Some cb ->
  name err <> "NotAllowedError" ->
  let k := length (plays w) in
  let es := [Call (DoPlay l loop); Call (DoStop l); Call (DoPlay l loop');
             PlaySettled k (Some err); PlaySettled (S k) None] in
  let w1 := snd (run es w) in
  fst (run es w) = []
  /\ phase_of w1 k = Some Resolved
  /\ phase_of w1 (S k) = Some Resolved
  /\ (fun q => HTMLAudioElement.paused (AudioPlayer.audio q)) <$> player_at w1 l = Some false
  /\ playing_at w1 l = Some false
  /\ callback_at w1 l = Some (Some cb)
  /\ callbacks w1 = callbacks w
  /\ step (Ended l) w1 = (Ret tt, w1)
  /\ callbacks (snd (step (Ended l) w1)) = callbacks w.
Proof.
  intros Hl Hcb He. cbn zeta.
  set (k := length (plays w)).
  (* play() *)
  assert (E1 : step (Call (DoPlay l loop)) w = (Ret tt, snd (play l loop w))).
  { cbn [step do_call]. unfold bind. by rewrite (play_ok w l p loop Hl). }
  rewrite (play_ok w l p loop Hl) in E1. cbn [snd] in E1.
  set (q1 := AudioPlayer.play_head loop p) in E1.
  set (wa := mkWorld _ _ _ _ _ _ _ _ _ _ _) in E1.
  assert (Hla : store wa !! l = Some q1)
    by (subst wa; cbn; by apply (lookup_insert_same _ _ _ _ Hl)).
  (* stop() *)
  pose proof (stop_ok wa l q1 Hla) as E2.
  set (q2 := AudioPlayer.stop q1) in E2.
  set (wb := set_store _ wa) in E2.
  assert (Hlb : store wb !! l = Some q2)
    by (subst wb; cbn; by apply (lookup_insert_same _ _ _ _ Hla)).
  (* play() again *)
  assert (E3 : step (Call (DoPlay l loop')) wb = (Ret tt, snd (play l loop' wb))).
  { cbn [step do_call]. unfold bind. by rewrite (play_ok wb l q2 loop' Hlb). }
  rewrite (play_ok wb l q2 loop' Hlb) in E3. cbn [snd] in E3.
  set (q3 := AudioPlayer.play_head loop' q2) in E3.
  set (wc := mkWorld _ _ _ _ _ _ _ _ _ _ _) in E3.
  assert (Hlc : store wc !! l = Some q3)
    by (subst wc; cbn; by apply (lookup_insert_same _ _ _ _ Hlb)).
  assert (Hlen : length (plays w ++ [mkActivation l AwaitPlay]) = S k)
    by (rewrite length_app; cbn; subst k; lia).
  assert (Hk0 : plays wc !! k = Some (mkActivation l AwaitPlay)).
  { subst wc wb wa. cbn [plays set_store]. rewrite lookup_app_l by lia.
    apply lookup_snoc_length. }
  (* the first attempt is rejected *)
  pose proof (play_settled_failed wc k l q3 err Hk0 Hlc He) as E4.
  set (q4 := AudioPlayer.set_playing false q3) in E4.
  set (wd := set_plays _ _) in E4.
  assert (Hld : store wd !! l = Some q4)
    by (subst wd; cbn; by apply (lookup_insert_same _ _ _ _ Hlc)).
  assert (Hk1 : plays wd !! S k = Some (mkActivation l AwaitPlay)).
  { subst wd wc wb wa. cbn [plays set_plays set_store set_trace].
    rewrite list_lookup_insert_ne by lia. rewrite <- Hlen. apply lookup_snoc_length. }
  (* the second attempt is fulfilled *)
  pose proof (play_settled_fulfilled wd (S k) l q4 Hk1 Hld) as E5.
  set (q5 := AudioPlayer.set_audio _ q4) in E5.
  set (we := set_plays _ _) in E5.
  assert (Hle : store we !! l = Some q5)
    by (subst we; cbn; by apply (lookup_insert_same _ _ _ _ Hld)).
  assert (Hidle : step (Ended l) we = (Ret tt, we))
    by (by apply (ended_listener_idle we l q5 Hle)).
  assert (Hcalls : callbacks we = callbacks w).
  { unfold callbacks. subst we wd wc wb wa. cbn [trace set_plays set_store set_trace].
    rewrite !count_app. cbn. lia. }
  fold k.
  rewrite (run_cons_ok (Call (DoPlay l loop)) _ _ _ E1).
  rewrite (run_cons_ok (Call (DoStop l)) _ _ _ E2).
  rewrite (run_cons_ok (Call (DoPlay l loop')) _ _ _ E3).
  rewrite (run_cons_ok (PlaySettled k (Some err)) _ _ _ E4).
  rewrite (run_cons_ok (PlaySettled (S k) None) _ _ _ E5).
  cbn [run fst snd]. rewrite Hidle. cbn [snd].
  split_and!; try done.
  - unfold phase_of. subst we. cbn [plays set_plays set_store].
    rewrite list_lookup_insert_ne by lia.
    subst wd. cbn [plays set_plays set_store set_trace].
    by rewrite (lookup_insert_same _ _ _ _ Hk0).
  - unfold phase_of. subst we. cbn [plays set_plays set_store].
    by rewrite (lookup_insert_same _ _ _ _ Hk1).
  - unfold player_at. by rewrite Hle.
  - unfold playing_at. by rewrite Hle.
  - unfold callback_at. rewrite Hle. cbn. by rewrite Hcb.
Qed.

Lemma stale_rejection_silences_end_callback_witness :
  store three_units !! 0 =
    Some (AudioPlayer.mk "A" false (HTMLAudioElement.Audio "a.mp3") (Some (OnEndTrigger "A")))
  /\ AudioPlayer.onEndCallback
       (AudioPlayer.mk "A" false (HTMLAudioElement.Audio "a.mp3") (Some (OnEndTrigger "A")))
     = Some (OnEndTrigger "A")
  /\ name AbortError <> "NotAllowedError"
  /\ fst (run [Call (DoPlay 0 false); Call (DoStop 0); Call (DoPlay 0 false);
               PlaySettled 0 (Some AbortError); PlaySettled 1 None] three_units) = []
  /\ (fun q => HTMLAudioElement.paused (AudioPlayer.audio q))
       <$> player_at
             (snd (run [Call (DoPlay 0 false); Call (DoStop 0); Call (DoPlay 0 false);
                        PlaySettled 0 (Some AbortError); PlaySettled 1 None] three_units)) 0
     = Some false
  /\ playing_at
       (snd (run [Call (DoPlay 0 false); Call (DoStop 0); Call (DoPlay 0 false);
                  PlaySettled 0 (Some AbortError); PlaySettled 1 None] three_units)) 0
     = Some false
  /\ callback_at
       (snd (run [Call (DoPlay 0 false); Call (DoStop 0); Call (DoPlay 0 false);
                  PlaySettled 0 (Some AbortError); PlaySettled 1 None] three_units)) 0
     = Some (Some (OnEndTrigger "A"))
  /\ callbacks
       (snd (step (Ended 0)
               (snd (run [Call (DoPlay 0 false); Call (DoStop 0); Call (DoPlay 0 false);
                          PlaySettled 0 (Some AbortError); PlaySettled 1 None] three_units))))
     = callbacks three_units.
Proof.
  assert (H1 : store three_units !! 0 =
    Some (AudioPlayer.mk "A" false (HTMLAudioElement.Audio "a.mp3") (Some (OnEndTrigger "A"))))
    by reflexivity.
  assert (H2 : AudioPlayer.onEndCallback
       (AudioPlayer.mk "A" false (HTMLAudioElement.Audio "a.mp3") (Some (OnEndTrigger "A")))
     = Some (OnEndTrigger "A")) by reflexivity.
  assert (H3 : name AbortError <> "NotAllowedError") by discriminate.
  destruct (stale_rejection_silences_end_callback three_units 0 _ (OnEndTrigger "A")
              false false AbortError H1 H2 H3)
    as (C1 & _ & _ & C4 & C5 & C6 & _ & _ & C9).
  split_and!; [exact H1 | exact H2 | exact H3 | exact C1 | exact C4 | exact C5 | exact C6
              | exact C9].
Defined.

(** ** A destroyed player is still in use *)

(** C7, at the inputs where the code departs from it.  [destroy()]
    leaves no mark on the player, and no method looks for one.  After
    [destroy()] the flag is false, the callback is cleared and the volume
    is 0; but [play()] then sets the flag and calls [audio.play()] on the
    released element, and a [stop()] after it clears the flag again;
    [setVolume(v)] sets the volume to the clamped value;
    [registerOnEndCallback(cb)] stores the callback, and after a [play()]
    the natural end of the destroyed player invokes it. *)
Theorem destroyed_player_still_operates
    (w : world) (l : loc) (p : AudioPlayer.t) (v : Q) (cb : callback) (loop : bool) :
  store w !! l = Some p ->
  let w1 := snd (step (Call (DoDestroy l)) w) in
  let played := snd (step (Call (DoPlay l loop)) w1) in
  let ended := snd (run [CallRegisterOnEndCallback l cb; Call (DoPlay l loop); Ended l] w1) in
  playing_at w1 l = Some false
  /\ callback_at w1 l = Some None
  /\ volume_at w1 l = Some 0%Q
  /\ fst (step (Call (DoPlay l loop)) w1) = Ret tt
  /\ playing_at played l = Some true
  /\ plays played = plays w1 ++ [mkActivation l AwaitPlay]
  /\ attempts (length (plays w1)) played = attempts (length (plays w1)) w1 + 1
  /\ playing_at (snd (step (Call (DoStop l)) played)) l = Some false
  /\ volume_at (snd (step (Call (DoSetVolume l (Finite v))) w1)) l = Some (Qmin 1 (Qmax 0 v))
  /\ callback_at (snd (step (CallRegisterOnEndCallback l cb) w1)) l = Some (Some cb)
  /\ callbacks ended = callbacks w1 + 1.
Proof.
  intros Hl. cbn zeta.
  assert (E : step (Call (DoDestroy l)) w =
                (Ret tt, set_store (<[l := AudioPlayer.destroy p]> (store w)) w))
    by (cbn [step do_call]; by apply update_ok).
  rewrite E. cbn [snd].
  set (d := AudioPlayer.destroy p).
  set (w1 := set_store _ w).
  assert (Hl1 : store w1 !! l = Some d)
    by (subst w1; cbn; by apply (lookup_insert_same _ _ _ _ Hl)).
  assert (Ep : step (Call (DoPlay l loop)) w1 = (Ret tt, snd (play l loop w1))).
  { cbn [step do_call]. unfold bind. by rewrite (play_ok w1 l d loop Hl1). }
  rewrite Ep. rewrite (play_ok w1 l d loop Hl1). cbn [fst snd].
  set (wp := mkWorld _ _ _ _ _ _ _ _ _ _ _).
  assert (Hlp : store wp !! l = Some (AudioPlayer.play_head loop d))
    by (subst wp; cbn; by apply (lookup_insert_same _ _ _ _ Hl1)).
  (* the callback is registered, the player is played and ends *)
  set (dr := AudioPlayer.registerOnEndCallback cb d).
  assert (Er : step (CallRegisterOnEndCallback l cb) w1 =
            (Ret tt, set_store (<[l := dr]> (store w1)) w1))
    by (cbn [step]; by apply update_ok).
  set (wr := set_store (<[l := dr]> (store w1)) w1) in *.
  assert (Hlr : store wr !! l = Some dr)
    by (subst wr; cbn; by apply (lookup_insert_same _ _ _ _ Hl1)).
  assert (Erp : step (Call (DoPlay l loop)) wr = (Ret tt, snd (play l loop wr))).
  { cbn [step do_call]. unfold bind. by rewrite (play_ok wr l dr loop Hlr). }
  rewrite (play_ok wr l dr loop Hlr) in Erp. cbn [snd] in Erp.
  set (wrp := mkWorld _ _ _ _ _ _ _ _ _ _ _) in Erp.
  assert (Hlrp : store wrp !! l = Some (AudioPlayer.play_head loop dr))
    by (subst wrp; cbn; by apply (lookup_insert_same _ _ _ _ Hlr)).
  assert (Hend : callbacks (snd (step (Ended l) wrp)) = callbacks w1 + 1).
  { cbn [step].
    rewrite (ended_listener_fires wrp l (AudioPlayer.play_head loop dr) cb Hlrp eq_refl eq_refl).
    unfold try_catch, bind. rewrite emit_eq.
    set (w0 := set_trace _ _).
    assert (H0 : callbacks w0 = callbacks w1 + 1).
    { subst w0 wrp wr. unfold callbacks. cbn [trace set_trace set_store].
      rewrite !count_app. cbn. lia. }
    assert (H1 := called_invoke (callbacks w1 + 1) cb w0 H0).
    destruct (invoke cb w0) as [[[]|e] w2]; cbn [snd] in *; [done|].
    by apply (called_quiet (callbacks w1 + 1)
                (ConsoleError "Audio onEnd callback failed:" e) Logic.I w2). }
  rewrite (run_cons_ok (CallRegisterOnEndCallback l cb) _ _ _ Er).
  rewrite (run_cons_ok (Call (DoPlay l loop)) _ _ _ Erp).
  rewrite run_single.
  split_and!; try done.
  - unfold playing_at. by rewrite Hl1.
  - unfold callback_at. by rewrite Hl1.
  - unfold volume_at. by rewrite Hl1.
  - unfold playing_at. by rewrite Hlp.
  - unfold attempts. subst wp. cbn [trace]. rewrite count_app. cbn.
    rewrite Nat.eqb_refl. cbn. lia.
  - rewrite (stop_ok wp l _ Hlp). cbn [snd]. unfold playing_at. cbn [store set_store].
    by rewrite (lookup_insert_same _ _ _ _ Hlp).
  - cbn [step do_call]. unfold bind. rewrite (deref_ok _ _ _ Hl1), setVolume_finite.
    rewrite (update_ok _ _ _ _ Hl1). unfold volume_at. cbn [snd store set_store].
    by rewrite (lookup_insert_same _ _ _ _ Hl1).
  - rewrite Er. cbn [snd]. unfold callback_at. by rewrite Hlr.
Qed.

Lemma destroyed_player_still_operates_witness :
  store three_units !! 0 =
    Some (AudioPlayer.mk "A" false (HTMLAudioElement.Audio "a.mp3") (Some (OnEndTrigger "A")))
  /\ playing_at destroyed_first 0 = Some false
  /\ playing_at (snd (step (Call (DoPlay 0 false)) destroyed_first)) 0 = Some true
  /\ playing_at (snd (step (Call (DoStop 0))
                        (snd (step (Call (DoPlay 0 false)) destroyed_first)))) 0 = Some false
  /\ volume_at destroyed_first 0 = Some 0%Q
  /\ volume_at (snd (step (Call (DoSetVolume 0 (Finite (1 # 2)))) destroyed_first)) 0
     = Some (Qmin 1 (Qmax 0 (1 # 2)))
  /\ callback_at destroyed_first 0 = Some None
  /\ callback_at (snd (step (CallRegisterOnEndCallback 0 (OnEndTrigger "A")) destroyed_first)) 0
     = Some (Some (OnEndTrigger "A"))
  /\ callbacks (snd (run [CallRegisterOnEndCallback 0 (OnEndTrigger "A");
                          Call (DoPlay 0 false); Ended 0] destroyed_first))
     = callbacks destroyed_first + 1.
Proof.
  assert (H1 : store three_units !! 0 =
    Some (AudioPlayer.mk "A" false (HTMLAudioElement.Audio "a.mp3") (Some (OnEndTrigger "A"))))
    by reflexivity.
  destruct (destroyed_player_still_operates three_units 0 _ (1 # 2) (OnEndTrigger "A") false H1)
    as (C1 & C2 & C3 & _ & C5 & _ & _ & C8 & C9 & C10 & C11).
  split_and!; [exact H1 | exact C1 | exact C5 | exact C8 | exact C3 | exact C9 | exact C2
              | exact C10 | exact C11].
Defined.

(** ** Two activations of [initialize] at once *)

(** X23.  Nothing keeps a second [initialize] from starting while the
    first is suspended on a lookup.  The widget is loaded with one source
    whose file the board knows; before the board has answered
    [getFileUrl], the settings assign the same sources again and the
    observer of [sources] calls [initialize] a second time; then the
    board answers the lookups of both activations.  No fault is raised
    and both activations resolve.  The second call has emptied
    [this.players] before either player is pushed, so the widget ends up
    with two players for the one source, both with its identifier, both
    with the callback that reports its end, while the table of the host
    names each trigger once. *)
Theorem overlapping_initialize_duplicates_players (n1 n2 : option string) :
  let w := boot [file_source "F" "f1"] false [("f1", "blob:f1")] in
  let es := [WidgetInitialize; SourcesChanged [file_source "F" "f1"];
             FileUrlSettled 0 None; FileUrlSettled 1 None;
             FileNodeSettled 0 (Ret n1); FileNodeSettled 1 (Ret n2)] in
  let w' := snd (run es w) in
  inits (snd (run [WidgetInitialize; SourcesChanged [file_source "F" "f1"]] w))
    = [AwaitFileUrl (file_source "F" "f1") [] [] AudioPlayerWidget.global_effects;
       AwaitFileUrl (file_source "F" "f1") [] [] AudioPlayerWidget.global_effects]
  /\ fst (run es w) = []
  /\ inits w' = [InitResolved; InitResolved]
  /\ players w' = [0; 1]
  /\ AudioPlayer.id <$> store w' = ["F"; "F"]
  /\ AudioPlayer.onEndCallback <$> store w' = [Some (OnEndTrigger "F"); Some (OnEndTrigger "F")]
  /\ HTMLAudioElement.src <$> (AudioPlayer.audio <$> store w') = ["blob:f1"; "blob:f1"]
  /\ trigger_ids w' = ["widget-audio-player-audio-ended-F"; "widget-audio-player-audio-started-F"]
  /\ fst (step (WidgetPlay "F" false) w') = Ret tt
  /\ playing_at (snd (step (WidgetPlay "F" false) w')) 0 = Some true
  /\ playing_at (snd (step (WidgetPlay "F" false) w')) 1 = Some false.
Proof.
  cbn zeta. split_and!; reflexivity.
Qed.
